(** * pyhibernator: delayed-recognition indicators, embedded and verified

    A shallow embedding of [pyhibernator/main.py].  Every class of the
    module is a Rocq [Module] of the same name; every static method is a
    function of the same name.

    Conventions of the embedding.
    - A citation history [list[int]] is a [list Z]; the slices [c[:k]] and
      [c[k:]] are [take k c] and [drop k c].
    - A Python exception is a constructor of [exn]; a method that can raise
      returns a [result].
    - Floating-point values that the code computes with [/] are exact
      rationals ([Q]): rounding is not modelled.  Where numpy produces a
      non-finite value (division of a float by zero) the value is an
      [npfloat], which adds the infinities and [NaN] to [Q].  Square roots
      and arctangents are taken in the real numbers.
    - The one place where rounding selects a different result on ordinary
      inputs, the position [int(len(targets)*rate)] of [Quartile.get_c_dic],
      is computed in binary64 with the kernel's primitive floats.
    - A [dict] keyed by [(subject, year)] is a [gmap (string * Z)]. *)

From Stdlib Require Import ZArith QArith Qround Qreals Reals Lia Lra List.
From Stdlib Require PrimFloat SpecFloat FloatOps FloatAxioms Uint63.
From stdpp Require Import gmap strings list sorting.

Local Open Scope Z_scope.

(** ** Exceptions and results *)

Inductive exn : Set :=
| KeyError
| ValueError
| IndexError
| ZeroDivisionError
| OverflowError.

Inductive result (A : Type) : Type :=
| Ok (a : A)
| Raise (e : exn).

Arguments Ok {A} a.
Arguments Raise {A} e.

Definition raises {A : Type} (r : result A) : Prop :=
  match r with Ok _ => False | Raise _ => True end.

Definition rbind {A B : Type} (r : result A) (f : A -> result B) : result B :=
  match r with Ok a => f a | Raise e => Raise e end.

(** ** Keys of the baseline tables *)

Abbreviation key := (string * Z)%type.

(** ** Python and numpy list primitives *)

(** [sum(l)] on integers. *)
Definition sum (l : list Z) : Z := foldr Z.add 0 l.

(** [sum(l)] on exact rationals. *)
Definition Qsum (l : list Q) : Q := foldr Qplus 0%Q l.

(** [np.cumsum(l)]: the running totals, one per entry. *)
Fixpoint cumsum_from (acc : Z) (l : list Z) : list Z :=
  match l with
  | [] => []
  | x :: l' => (acc + x) :: cumsum_from (acc + x) l'
  end.

Definition cumsum (l : list Z) : list Z := cumsum_from 0 l.

Definition Qltb (x y : Q) : bool := negb (Qle_bool y x).

Section Extremum.
Context {A : Type} (ltb : A -> A -> bool).

(** The scan behind [np.argmax] and [np.max]: [best] is the largest value
    seen so far, found at index [ibest]; [i] is the index of the head of
    the remaining list.  Only a strictly larger value displaces [best], so
    the first occurrence of the maximum wins. *)
Fixpoint argmax_from (best : A) (ibest i : nat) (l : list A) : nat * A :=
  match l with
  | [] => (ibest, best)
  | x :: l' =>
      if ltb best x then argmax_from x i (S i) l'
      else argmax_from best ibest (S i) l'
  end.

(** [np.argmax(l)]; numpy raises [ValueError] on an empty sequence. *)
Definition np_argmax (l : list A) : result nat :=
  match l with
  | [] => Raise ValueError
  | x :: l' => Ok (fst (argmax_from x 0%nat 1%nat l'))
  end.

(** [np.max(l)] and the builtin [max(l)]; both raise [ValueError] on an
    empty sequence. *)
Definition np_max (l : list A) : result A :=
  match l with
  | [] => Raise ValueError
  | x :: l' => Ok (snd (argmax_from x 0%nat 1%nat l'))
  end.

End Extremum.

(** [l[i]] for a natural index; Python raises [IndexError] out of range. *)
Definition getitem {A : Type} (l : list A) (i : nat) : result A :=
  match l !! i with
  | Some x => Ok x
  | None => Raise IndexError
  end.

(** [np.where(cond)] on a one-dimensional boolean array: the indices at
    which the condition holds, in increasing order. *)
Fixpoint where_from (i : nat) (l : list bool) : list nat :=
  match l with
  | [] => []
  | b :: l' => if b then i :: where_from (S i) l' else where_from (S i) l'
  end.

Definition np_where (l : list bool) : list nat := where_from 0 l.

(** ** numpy floats with their non-finite values *)

Inductive npfloat : Type :=
| Fin (q : Q)
| Inf (negative : bool)
| NaN.

(** [x / d] for a numpy float [x] and a numpy integer [d]: numpy does not
    raise on a zero divisor, it warns and yields [nan] ([0/0]) or a signed
    infinity. *)
Definition np_div (x : Q) (d : Z) : npfloat :=
  if d =? 0 then
    if Qeq_bool x 0 then NaN else Inf (Qltb x 0)
  else Fin (x / inject_Z d).

Definition np_add (a b : npfloat) : npfloat :=
  match a, b with
  | NaN, _ | _, NaN => NaN
  | Fin x, Fin y => Fin (x + y)
  | Inf s, Fin _ | Fin _, Inf s => Inf s
  | Inf s, Inf s' => if Bool.eqb s s' then Inf s else NaN
  end.

Definition np_neg (a : npfloat) : npfloat :=
  match a with
  | Fin x => Fin (- x)
  | Inf s => Inf (negb s)
  | NaN => NaN
  end.

Definition np_sub (a b : npfloat) : npfloat := np_add a (np_neg b).

(** The builtin [sum] over numpy floats: a left fold from the integer 0. *)
Definition np_sum (l : list npfloat) : npfloat := foldl np_add (Fin 0) l.

(** ** AdjustedGiniCoefficient *)

Module AdjustedGiniCoefficient.

Definition score (c : list Z) : Q :=
  let C := sum c in
  let n := Z.of_nat (length c) in
  if C =? 0 then 1%Q
  else if n <? 2 then 0%Q
  else
    let weighted := sum (imap (fun t ct => ct * (n - Z.of_nat t)) c) in
    ((inject_Z n / inject_Z (n - 1))
     * (1 - inject_Z (2 * weighted - C) / inject_Z (n * C)))%Q.

End AdjustedGiniCoefficient.

(** ** BeautyCoefficient *)

Module BeautyCoefficient.

Definition _get_c0_tm_ctm (c : list Z) : result (Z * nat * Z) :=
  rbind (getitem c 0) (fun c0 =>
  rbind (np_argmax Z.ltb c) (fun tm =>
  rbind (np_max Z.ltb c) (fun ctm =>
  Ok (c0, tm, ctm)))).

Definition _calcB (ctm c0 : Z) (tm : nat) (ct max_ct : Z) (t : nat) : Q :=
  ((inject_Z ((ctm - c0) * Z.of_nat t) / inject_Z (Z.of_nat tm)
    + inject_Z c0 - inject_Z ct) / inject_Z max_ct)%Q.

Definition score (c : list Z) : result Q :=
  if sum c =? 0 then Ok 0%Q
  else
    rbind (_get_c0_tm_ctm c) (fun '(c0, tm, ctm) =>
    if (tm =? 0)%nat then Ok 0%Q
    else
      Ok (Qsum (imap (fun t ct => _calcB ctm c0 tm ct (Z.max 1 ct) t)
                     (take (S tm) c)))).

End BeautyCoefficient.

(** ** BeautyCoefficientCumulativePercentage *)

Module BeautyCoefficientCumulativePercentage.

Definition _get_c0_tm_ctm (c : list Q) : result (Q * nat * Q) :=
  rbind (getitem c 0) (fun c0 =>
  rbind (np_argmax Qltb c) (fun tm =>
  rbind (np_max Qltb c) (fun ctm =>
  Ok (c0, tm, ctm)))).

(** The parameter [ctm] is passed and not used, as in the source. *)
Definition _calcBcp (ctm c0 : Q) (tm : nat) (ct : Q) (t : nat) : npfloat :=
  np_sub (np_add (np_div ((1 - c0) * inject_Z (Z.of_nat t)) (Z.of_nat tm))
                 (Fin c0))
         (Fin ct).

(** [np.cumsum(c)/np.sum(c)]; the caller has excluded a zero total. *)
Definition c_relative (c : list Z) : list Q :=
  map (fun s => (inject_Z s / inject_Z (sum c))%Q) (cumsum c).

Definition score (c : list Z) : result npfloat :=
  if sum c =? 0 then Ok (Fin 0)
  else
    let cr := c_relative c in
    rbind (_get_c0_tm_ctm cr) (fun '(c0, tm, ctm) =>
    Ok (np_sum (imap (fun t ct => _calcBcp ctm c0 tm ct t)
                     (take (S tm) cr)))).

End BeautyCoefficientCumulativePercentage.

(** ** Indexing and ranges with Python integers *)

(** [l[i]] for a Python integer: a negative index counts from the end, and
    an index outside [-len(l), len(l))] raises [IndexError]. *)
Definition py_getitem {A : Type} (l : list A) (i : Z) : result A :=
  let n := Z.of_nat (length l) in
  if (0 <=? i) && (i <? n) then getitem l (Z.to_nat i)
  else if (- n <=? i) && (i <? 0) then getitem l (Z.to_nat (n + i))
  else Raise IndexError.

(** [range(a, b)]. *)
Definition range (a b : Z) : list Z := seqZ a (b - a).

(** [x / y] where [y] comes out of a baseline table.  A zero divisor is
    modelled as Python's [ZeroDivisionError]; no table built by
    [DNIC.get_ekj] holds a zero (see [get_ekj_nonzero]). *)
Definition py_div (x : Z) (y : Q) : result Q :=
  if Qeq_bool y 0 then Raise ZeroDivisionError
  else Ok (inject_Z x / y)%Q.

(** ** Computations that record their dictionary lookups

    A [traced E A] is the outcome of a computation together with the
    lookup events it performed, oldest first.  A computation stops at the
    first exception, so the events after a failed lookup are never
    performed and never recorded. *)

Section Traced.
Context {E : Type}.

Definition traced (A : Type) : Type := (list E * result A)%type.

Definition lookups {A : Type} (m : traced A) : list E := fst m.
Definition outcome {A : Type} (m : traced A) : result A := snd m.

Definition tret {A : Type} (a : A) : traced A := ([], Ok a).

Definition tlift {A : Type} (r : result A) : traced A := ([], r).

Definition tbind {A B : Type} (m : traced A) (f : A -> traced B) : traced B :=
  match m with
  | (tr, Ok a) => let '(tr', r) := f a in (tr ++ tr', r)
  | (tr, Raise e) => (tr, Raise e)
  end.

(** [d[k]]: the lookup is recorded as the event [ev]; an absent key raises
    [KeyError]. *)
Definition tlookup {V : Type} (ev : E) (d : gmap key V) (k : key) : traced V :=
  ([ev], match d !! k with Some v => Ok v | None => Raise KeyError end).

(** A list comprehension [[f x for x in l]], evaluated left to right. *)
Fixpoint tmap {A B : Type} (f : A -> traced B) (l : list A) : traced (list B) :=
  match l with
  | [] => tret []
  | x :: l' => tbind (f x) (fun y => tbind (tmap f l') (fun ys => tret (y :: ys)))
  end.

End Traced.

Declare Scope traced_scope.
Delimit Scope traced_scope with traced.
Notation "'let*' x ':=' m 'in' k" := (tbind m (fun x => k))
  (at level 10, x name, m at level 100, k at level 200) : traced_scope.

(** ** Loops and comprehensions that can raise *)

(** [[f x for x in l]] where [f] can raise: the first exception ends the
    comprehension. *)
Fixpoint rmap {A B : Type} (f : A -> result B) (l : list A) : result (list B) :=
  match l with
  | [] => Ok []
  | x :: l' => rbind (f x) (fun y => rbind (rmap f l') (fun ys => Ok (y :: ys)))
  end.

(** [for x in l: body], threading the state the body updates. *)
Fixpoint for_each {A S : Type} (l : list A) (body : A -> S -> result S) (s : S)
  : result S :=
  match l with
  | [] => Ok s
  | x :: l' => rbind (body x s) (for_each l' body)
  end.

(** ** Corpus tables

    [pd.DataFrame([data, subjs_list, year_list], index=[...]).T] for three
    parallel lists: one row per paper.  The model covers lists of equal
    length, which is what the callers supply. *)

Record row (A : Type) : Type := Row {
  row_data : A;
  row_subjs : list string;
  row_year : Z
}.

Arguments Row {A} _ _ _.
Arguments row_data {A} _.
Arguments row_subjs {A} _.
Arguments row_year {A} _.

Fixpoint DataFrame {A : Type} (data : list A) (subjs_list : list (list string))
    (year_list : list Z) : list (row A) :=
  match data, subjs_list, year_list with
  | d :: data', s :: subjs', y :: years' =>
      Row d s y :: DataFrame data' subjs' years'
  | _, _, _ => []
  end.

(** [set(l)] as the loops iterate it: every element once.  The order in
    which Python visits a set is unspecified; each cell of a table is
    computed from the corpus alone, so the order does not show in the
    result. *)
Definition py_set {A : Type} `{EqDecision A} (l : list A) : list A :=
  remove_dups l.

(** [set(list(itertools.chain.from_iterable(subjs_list)))]. *)
Definition all_subjects (subjs_list : list (list string)) : list string :=
  py_set (concat subjs_list).

(** ** DNIC *)

Module DNIC.

(** [df[(df['year']<=year)&(df['subjs'].map(lambda x: subj in x))]] *)
Definition targets {A : Type} (df : list (row A)) (subj : string) (year : Z)
  : list (row A) :=
  filter (fun r => row_year r <= year /\ subj ∈ row_subjs r) df.

(** [targets.apply(lambda row: row['c'][year-row['year']],axis=1)] *)
Definition citations_kj (tg : list (row (list Z))) (year : Z) : result (list Z) :=
  rmap (fun r => py_getitem (row_data r) (year - row_year r)) tg.

(** [(citations_kj>=1).sum()] *)
Definition N_kj (cit : list Z) : nat := length (filter (fun x => 1 <= x) cit).

(** The body of the two loops of [get_ekj] for one [(subj, year)]. *)
Definition ekj_cell (df : list (row (list Z))) (year : Z) (subj : string)
    (ekj_dic : gmap key Q) : result (gmap key Q) :=
  let tg := targets df subj year in
  if (length tg =? 0)%nat then Ok ekj_dic
  else
    rbind (citations_kj tg year) (fun cit =>
    if (N_kj cit =? 0)%nat then Ok (<[(subj, year) := (-1)%Q]> ekj_dic)
    else
      Ok (<[(subj, year) :=
             (inject_Z (sum cit) / inject_Z (Z.of_nat (N_kj cit)))%Q]> ekj_dic)).

Definition get_ekj (c_list : list (list Z)) (subjs_list : list (list string))
    (year_list : list Z) : result (gmap key Q) :=
  let df := DataFrame c_list subjs_list year_list in
  for_each (py_set year_list) (fun year =>
    for_each (all_subjects subjs_list) (fun subj => ekj_cell df year subj))
    ∅.

Section Extract.
Variables (c : list Z) (year : Z) (ekj_dic : gmap key Q).
Variables (c_peak c_before_peak : Q).
Variables (y_peak_v c_peak_v : Z).

Local Open Scope traced_scope.

(** [c[i-year]/ekj_dic[(subj,i)]]: the left operand is evaluated first. *)
Definition normalized (subj : string) (i : Z) : traced (E := key) Q :=
  let* ci := tlift (py_getitem c (i - year)) in
  let* e := tlookup (subj, i) ekj_dic (subj, i) in
  tlift (py_div ci e).

(** The loop [for subj in subjs] with its early [return True]; falling out
    of the loop returns [False]. *)
Fixpoint for_subj (subjs : list string) : traced (E := key) bool :=
  match subjs with
  | [] => tret false
  | subj :: rest =>
      let* e := tlookup (subj, y_peak_v) ekj_dic (subj, y_peak_v) in
      let* q := tlift (py_div c_peak_v e) in
      if Qltb c_peak q then
        let* before := tmap (normalized subj) (range year (y_peak_v - 2)) in
        let* m := tlift (np_max Qltb before) in
        if Qltb m c_before_peak then tret true else for_subj rest
      else for_subj rest
  end.

End Extract.

(** [extract] with the record of its dictionary lookups. *)
Definition extract_m (c : list Z) (subjs : list string) (year : Z)
    (ekj_dic : gmap key Q) (c_peak c_before_peak : Q) : traced (E := key) bool :=
  let t_h := (length c / 2)%nat in
  (let* t_peak_v := tlift (np_argmax Z.ltb c) in
   let y_peak_v := year + Z.of_nat t_peak_v in
   let* c_peak_v := tlift (getitem c t_peak_v) in
   if (t_h <? t_peak_v)%nat then
     for_subj c year ekj_dic c_peak c_before_peak y_peak_v c_peak_v subjs
   else tret false)%traced.

Definition extract (c : list Z) (subjs : list string) (year : Z)
    (ekj_dic : gmap key Q) (c_peak c_before_peak : Q) : result bool :=
  outcome (extract_m c subjs year ekj_dic c_peak c_before_peak).

End DNIC.

(** ** ExponentialQuartile *)

Module ExponentialQuartile.

(** [cw > np.sqrt(x)] for integers [cw] and [x], decided without leaving
    the integers: the square root of a negative number is [nan], which
    compares false; otherwise [cw] exceeds the root exactly when it is
    positive and its square exceeds [x] (see [gt_sqrt_real]). *)
Definition gt_sqrt (cw x : Z) : bool :=
  (0 <=? x) && (0 <? cw) && (x <? cw * cw).

(** [int(n * 0.2)] is [n // 5] for every length a list can have. *)
Definition extract (c : list Z) (k : Z) : result bool :=
  let n := length c in
  let nw := (n / 5)%nat in
  let ns := (n - nw)%nat in
  rbind (np_max Z.ltb (take ns c)) (fun cs =>
  rbind (np_max Z.ltb (drop ns c)) (fun cw =>
  Ok ((4 * cs <? cw) && gt_sqrt cw (k * Z.of_nat ns)))).

End ExponentialQuartile.

(** ** KValue *)

Module KValue.

(** [np.sqrt(q)]: [nan] (here [None]) below zero. *)
Definition np_sqrt (q : Q) : option R :=
  if Qltb q 0 then None else Some (sqrt (Q2R q)).

(** [sum([i**2 * ct for i,ct in enumerate(c20)])] *)
Definition weighted (c20 : list Z) : Z :=
  sum (imap (fun i ct => Z.of_nat i ^ 2 * ct) c20).

(** The score is a real number, or [None] for [nan]. *)
Definition score (c : list Z) : option R :=
  let c20 := take 21 c in
  if sum c20 =? 0 then Some 0%R
  else
    option_map (fun r => (r / 20)%R)
      (np_sqrt (inject_Z (weighted c20) / inject_Z (sum c20))).

End KValue.

(** ** CitationAngle *)

Module CitationAngle.

(** [np.degrees] *)
Definition degrees (x : R) : R := (x * 180 / PI)%R.

(** [np.degrees(np.arctan(peak2/t2)) > angle_after], in the real numbers. *)
Definition angle_exceeds (peak2 : Z) (t2 : nat) (angle_after : Q) : bool :=
  if Rlt_dec (Q2R angle_after) (degrees (atan (IZR peak2 / INR t2)))
  then true else false.

(** [np.average(l)] of a non-empty list. *)
Definition np_average (l : list Z) : Q :=
  (inject_Z (sum l) / inject_Z (Z.of_nat (length l)))%Q.

Definition extract (c : list Z) (c_before_average c_peak angle_after span : Q)
  : result bool :=
  if (length c <=? 10)%nat then Ok false
  else
    let th := (length c / 2)%nat in
    rbind (np_argmax Z.ltb (take th c)) (fun t1 =>
    let ac1 := np_average (take th c) in
    rbind (np_argmax Z.ltb (drop th c)) (fun j2 =>
    let t2 := (th + j2)%nat in
    rbind (np_max Z.ltb (drop th c)) (fun peak2 =>
    Ok (Qltb c_peak (inject_Z peak2)
        && angle_exceeds peak2 t2 angle_after
        && Qle_bool ac1 c_before_average
        && Qle_bool span (inject_Z (Z.of_nat t2 - Z.of_nat t1)))))).

End CitationAngle.

(** ** Quartile *)

(** [int(q)]: truncation towards zero. *)
Definition py_int (q : Q) : Z :=
  if Qle_bool 0 q then Qfloor q else Qceiling q.

(** [float(n)] for a length [n]: the nearest binary64 number, which is
    [n] itself below [2^53]. *)
Definition float_of_nat (n : nat) : PrimFloat.float :=
  PrimFloat.of_uint63 (Uint63.of_Z (Z.of_nat n)).

(** [int(x)] for a binary64 [x]: truncation towards zero; Python raises
    [OverflowError] on an infinity and [ValueError] on [nan]. *)
Definition py_int_float (x : PrimFloat.float) : result Z :=
  match FloatOps.Prim2SF x with
  | SpecFloat.S754_zero _ => Ok 0
  | SpecFloat.S754_finite negative m e =>
      let magnitude :=
        if 0 <=? e then Z.pos m * 2 ^ e else Z.pos m / 2 ^ (- e) in
      Ok (if negative then - magnitude else magnitude)
  | SpecFloat.S754_infinity _ => Raise OverflowError
  | SpecFloat.S754_nan => Raise ValueError
  end.

(** [int(n * rate)] for a length [n], by the type of the [rate] the caller
    passes. *)
Class Rate (R : Type) : Type := int_of_product : nat -> R -> result Z.

(** A [float], as the signature of [get_c_dic] says: [n] is converted to
    binary64, the product is rounded to binary64, and [int] truncates the
    rounded product. *)
#[export] Instance Rate_float : Rate PrimFloat.float :=
  fun n rate => py_int_float (PrimFloat.mul (float_of_nat n) rate).

(** An exact rational (a [fractions.Fraction]): product and truncation
    are exact. *)
#[export] Instance Rate_Q : Rate Q :=
  fun n rate => Ok (py_int (inject_Z (Z.of_nat n) * rate)).

(** The rational number a binary64 value stands for; infinities and NaN
    stand for none. *)
Definition float_value (x : PrimFloat.float) : option Q :=
  match FloatOps.Prim2SF x with
  | SpecFloat.S754_zero _ => Some 0%Q
  | SpecFloat.S754_finite negative m e =>
      let magnitude :=
        match e with
        | Z.neg p => (Z.pos m # Pos.pow 2 p)%Q
        | _ => inject_Z (Z.pos m * 2 ^ e)
        end in
      Some (if negative then (- magnitude)%Q else magnitude)
  | _ => None
  end.

(** The binary64 product [len(targets) * rate] of main.py:445, as a
    rational number. *)
Definition rounded_product (n : nat) (rate : PrimFloat.float) : option Q :=
  float_value (PrimFloat.mul (float_of_nat n) rate).

(** [np.mean(l)]: the mean of an empty list is [nan]. *)
Definition np_mean (l : list Z) : npfloat :=
  np_div (inject_Z (sum l)) (Z.of_nat (length l)).

(** [x >= q] for a numpy float [x]; [nan] compares false. *)
Definition np_ge (x : npfloat) (q : Q) : bool :=
  match x with
  | Fin y => Qle_bool q y
  | Inf negative => negb negative
  | NaN => false
  end.

(** [np.min(l)] raises [ValueError] on an empty sequence. *)
Definition np_min (l : list nat) : result nat :=
  match l with
  | [] => Raise ValueError
  | x :: l' => Ok (foldr Nat.min x l')
  end.

(** The two percentile tables [Quartile.extract] reads. *)
Inductive table : Set := c_dic_before_table | c_dic_after_table.

Module Quartile.

Definition get_c50 (c : list Z) : result Z :=
  if sum c =? 0 then Ok 0
  else
    rbind
      (np_min (np_where (map (fun s => Qle_bool (1 # 2)
                                         (inject_Z s / inject_Z (sum c)))
                             (cumsum c))))
      (fun i => Ok (Z.of_nat i)).

(** [df[(df['year']==year)&(df['subjs'].map(lambda x: subj in x))]] *)
Definition targets {A : Type} (df : list (row A)) (subj : string) (year : Z)
  : list (row A) :=
  filter (fun r => row_year r = year /\ subj ∈ row_subjs r) df.

(** [targets.sort_values('c50')], read through its ['c50'] column. *)
Definition sort_values (tg : list (row Z)) : list Z :=
  merge_sort Z.le (map row_data tg).

(** The body of the two loops of [get_c_dic] for one [(subj, year)];
    [.iloc[i]] indexes like a list. *)
Definition c_dic_cell {R : Type} `{Rate R} (df : list (row Z)) (rate : R)
    (year : Z) (subj : string) (c_dic : gmap key Z) : result (gmap key Z) :=
  let tg := targets df subj year in
  if (length tg =? 0)%nat then Ok c_dic
  else
    rbind (int_of_product (length tg) rate) (fun i =>
    rbind (py_getitem (sort_values tg) i) (fun v =>
    Ok (<[(subj, year) := v]> c_dic))).

Definition get_c_dic {R : Type} `{Rate R} (c50_list : list Z)
    (subjs_list : list (list string)) (year_list : list Z) (rate : R)
  : result (gmap key Z) :=
  let df := DataFrame c50_list subjs_list year_list in
  for_each (py_set (map row_year df)) (fun year =>
    for_each (all_subjects (map row_subjs df)) (fun subj =>
      c_dic_cell df rate year subj))
    ∅.

Local Open Scope traced_scope.

(** [1 if c50 < c_dic_before[(subj,year)] else 3 if c50 >
    c_dic_after[(subj,year)] else 2]: the second table is read only when
    the first test fails. *)
Definition subject_score (c50 : Z) (year : Z) (c_dic_before c_dic_after : gmap key Z)
    (subj : string) : traced (E := table * key) Z :=
  let* before := tlookup (c_dic_before_table, (subj, year)) c_dic_before (subj, year) in
  if c50 <? before then tret 1
  else
    let* after := tlookup (c_dic_after_table, (subj, year)) c_dic_after (subj, year) in
    if after <? c50 then tret 3 else tret 2.

(** [extract] with the record of its dictionary lookups. *)
Definition extract_m (c50 : Z) (subjs : list string) (year : Z)
    (c_dic_before c_dic_after : gmap key Z) : traced (E := table * key) bool :=
  let* scores := tmap (subject_score c50 year c_dic_before c_dic_after) subjs in
  tret (np_ge (np_mean scores) (5 # 2)).

Definition extract (c50 : Z) (subjs : list string) (year : Z)
    (c_dic_before c_dic_after : gmap key Z) : result bool :=
  outcome (extract_m c50 subjs year c_dic_before c_dic_after).

End Quartile.

(** ** Slices and division with Python integers *)

(** Where a slice bound [i] falls in a list of length [n]: a negative
    bound counts from the end, and every bound is clipped to [0, n]. *)
Definition slice_index (n : nat) (i : Z) : nat :=
  if i <? 0 then Z.to_nat (Z.max 0 (Z.of_nat n + i))
  else Z.to_nat (Z.min i (Z.of_nat n)).

(** [l[lo:hi]]; [l[:hi]] is [py_slice l 0 hi]. *)
Definition py_slice {A : Type} (l : list A) (lo hi : Z) : list A :=
  let start := slice_index (length l) lo in
  let stop := slice_index (length l) hi in
  take (stop - start) (drop start l).

(** [x / y] on Python integers: true division, [ZeroDivisionError] on a
    zero divisor. *)
Definition py_true_div (x y : Z) : result Q :=
  if y =? 0 then Raise ZeroDivisionError
  else Ok (inject_Z x / inject_Z y)%Q.

(** [x / d] for a numpy float [x], finite or not, and an integer [d]. *)
Definition np_fdiv (x : npfloat) (d : Z) : npfloat :=
  match x with
  | Fin q => np_div q d
  | Inf negative => if d <? 0 then Inf (negb negative) else Inf negative
  | NaN => NaN
  end.

(** ** Average *)

Module Average.

Definition extract (c : list Z) (s cs a ca : Z) : result bool :=
  rbind (py_true_div (sum (py_slice c 0 (s + 1))) (s + 1)) (fun c_average =>
  rbind (py_true_div (sum (py_slice c (s + 1) (s + a + 1))) a)
    (fun ca_average =>
  Ok (Qle_bool c_average (inject_Z cs)
      && Qle_bool (inject_Z ca) ca_average))).

End Average.

(** ** CitationDelay *)

Module CitationDelay.

(** [np.cumsum(c)/np.sum(c)]: a zero total turns the entries into [nan]
    or infinities, it does not raise. *)
Definition shares (c : list Z) : list npfloat :=
  map (fun s => np_div (inject_Z s) (sum c)) (cumsum c).

Definition score (c : list Z) : npfloat :=
  np_sub (Fin 1)
    (np_fdiv (np_sum (py_slice (shares c) 0 (-1)))
             (Z.of_nat (length c) - 1)).

End CitationDelay.

(** ** Naive *)

Module Naive.

Definition extract (c : list Z) (s cs ca : Z) : bool :=
  let c_sum := sum (py_slice c 0 (s + 1)) in
  let c_now := sum c in
  (c_sum <=? cs) && (ca <=? c_now).

End Naive.

(** * Verification *)

(** * Facts about the primitives *)

Lemma rbind_Ok {A B : Type} (r : result A) (f : A -> result B) (b : B) :
  rbind r f = Ok b <-> exists a, r = Ok a /\ f a = Ok b.
Proof.
  destruct r as [a | e]; cbn.
  - split; [eauto | intros (a' & [= <-] & H); exact H].
  - split; [discriminate | intros (a' & [=] & _)].
Qed.

Lemma Qltb_lt (x y : Q) : Qltb x y = true <-> (x < y)%Q.
Proof.
  unfold Qltb. rewrite negb_true_iff, <- not_true_iff_false, Qle_bool_iff.
  split; [apply Qnot_le_lt | apply Qlt_not_le].
Qed.

Lemma Qltb_ge (x y : Q) : Qltb x y = false <-> (y <= x)%Q.
Proof.
  unfold Qltb. rewrite negb_false_iff. apply Qle_bool_iff.
Qed.

(** The comparisons [np.argmax] and [np.max] rely on. *)
Class BoolStrictOrder {A : Type} (ltb : A -> A -> bool) : Prop := {
  ltb_irrefl x : ltb x x = false;
  ltb_asym x y : ltb x y = true -> ltb y x = false;
  ltb_le_lt x y z : ltb y x = false -> ltb y z = true -> ltb x z = true;
  ltb_lt_le x y z : ltb x y = true -> ltb z y = false -> ltb x z = true
}.

#[export] Instance Zltb_order : BoolStrictOrder Z.ltb.
Proof.
  split; intros *; rewrite ?Z.ltb_lt, ?Z.ltb_ge; lia.
Qed.

#[export] Instance Qltb_order : BoolStrictOrder Qltb.
Proof.
  split; intros *; rewrite ?Qltb_lt, ?Qltb_ge.
  - apply Qle_refl.
  - apply Qlt_le_weak.
  - apply Qle_lt_trans.
  - apply Qlt_le_trans.
Qed.

Section ExtremumFacts.
Context {A : Type} (ltb : A -> A -> bool) `{!BoolStrictOrder ltb}.

Lemma ltb_le_trans (x y z : A) :
  ltb y x = false -> ltb z y = false -> ltb z x = false.
Proof.
  intros Hxy Hyz. destruct (ltb z x) eqn:Hzx; [| reflexivity].
  rewrite (ltb_le_lt y z x Hyz Hzx) in Hxy. discriminate.
Qed.

(** What the scan returns: an upper bound of everything seen, which is
    either the incoming [best] or the first entry that reaches the
    maximum. *)
Lemma argmax_from_spec (l : list A) (best : A) (ibest i t : nat) (v : A) :
  argmax_from ltb best ibest i l = (t, v) ->
  (forall x, x ∈ l -> ltb v x = false)
  /\ ltb v best = false
  /\ ((t = ibest /\ v = best)
      \/ exists j, t = (i + j)%nat /\ l !! j = Some v /\ ltb best v = true
           /\ forall j' x, (j' < j)%nat -> l !! j' = Some x -> ltb x v = true).
Proof.
  revert best ibest i.
  induction l as [| x l IH]; intros best ibest i; cbn.
  - intros [= <- <-]. split; [intros x Hx; inversion Hx |].
    split; [apply ltb_irrefl | left; auto].
  - destruct (ltb best x) eqn:Hbx; intros Hrun;
      apply IH in Hrun as (Hub & Hge & Hcase).
    + assert (Hbv : ltb best v = true) by (eapply ltb_lt_le; eassumption).
      split; [| split].
      * intros y [-> | Hy]%elem_of_cons; auto.
      * apply ltb_asym, Hbv.
      * right. destruct Hcase as [[-> ->] | (j & -> & Hj & Hxv & Hfirst)].
        -- exists 0%nat. split; [lia |]. split; [reflexivity |].
           split; [exact Hbx | intros; lia].
        -- exists (S j). split; [lia |]. split; [exact Hj |].
           split; [exact Hbv |].
           intros [| j'] y Hlt Hy; cbn in Hy.
           ++ injection Hy as <-. exact Hxv.
           ++ apply (Hfirst j'); [lia | exact Hy].
    + split; [| split]; [| exact Hge |].
      * intros y [-> | Hy]%elem_of_cons; auto.
        eapply ltb_le_trans; eassumption.
      * destruct Hcase as [? | (j & -> & Hj & Hbv & Hfirst)]; [left; auto |].
        right. exists (S j). split; [lia |]. split; [exact Hj |].
        split; [exact Hbv |].
        intros [| j'] y Hlt Hy; cbn in Hy.
        -- injection Hy as <-. eapply ltb_le_lt; eassumption.
        -- apply (Hfirst j'); [lia | exact Hy].
Qed.

(** [np.max] returns an entry of the list that no entry exceeds. *)
Lemma np_max_spec (l : list A) (v : A) :
  np_max ltb l = Ok v ->
  v ∈ l /\ forall x, x ∈ l -> ltb v x = false.
Proof.
  destruct l as [| x0 l]; [discriminate |]. cbn.
  destruct (argmax_from ltb x0 0 1 l) as [t v'] eqn:Hrun. cbn.
  intros [= ->].
  apply argmax_from_spec in Hrun as (Hub & Hge & Hcase). split.
  - destruct Hcase as [[_ ->] | (j & _ & Hj & _)]; [left |].
    right. eapply list_elem_of_lookup_2, Hj.
  - intros y [-> | Hy]%elem_of_cons; auto.
Qed.

Lemma np_max_nonempty (l : list A) :
  l <> [] -> exists v, np_max ltb l = Ok v.
Proof. destruct l; [congruence | cbn; eauto]. Qed.

End ExtremumFacts.

(** ** The peak of a citation history

    [is_peak c t v]: the largest yearly count of [c] is [v], and [t] is
    the first offset at which it is reached. *)
Definition is_peak (c : list Z) (t : nat) (v : Z) : Prop :=
  c !! t = Some v
  /\ (forall j x, c !! j = Some x -> x <= v)
  /\ (forall j x, (j < t)%nat -> c !! j = Some x -> x < v).

Lemma is_peak_unique (c : list Z) (t t' : nat) (v v' : Z) :
  is_peak c t v -> is_peak c t' v' -> t = t' /\ v = v'.
Proof.
  intros (Ht & Hub & Hfirst) (Ht' & Hub' & Hfirst').
  assert (v = v') as <- by (apply Hub in Ht'; apply Hub' in Ht; lia).
  split; [| reflexivity].
  destruct (Nat.lt_trichotomy t t') as [Hlt | [-> | Hlt]]; [| reflexivity |].
  - specialize (Hfirst' t v Hlt Ht). lia.
  - specialize (Hfirst t' v Hlt Ht'). lia.
Qed.

(** [np.argmax] and [np.max] find the peak of a non-empty history. *)
Lemma np_argmax_peak (c : list Z) :
  c <> [] ->
  exists t v, np_argmax Z.ltb c = Ok t /\ np_max Z.ltb c = Ok v /\ is_peak c t v.
Proof.
  destruct c as [| x0 l]; [congruence |]. intros _. cbn.
  destruct (argmax_from Z.ltb x0 0 1 l) as [t v] eqn:Hrun.
  exists t, v. do 2 (split; [reflexivity |]).
  apply argmax_from_spec in Hrun as (Hub & Hge & Hcase); [| apply _].
  apply Z.ltb_ge in Hge.
  assert (Hall : forall j x, (x0 :: l) !! j = Some x -> x <= v).
  { intros [| j] x Hx; cbn in Hx; [injection Hx as <-; exact Hge |].
    apply Z.ltb_ge, Hub. eapply list_elem_of_lookup_2, Hx. }
  destruct Hcase as [[-> ->] | (j & -> & Hj & Hlt & Hfirst)].
  - split; [reflexivity |]. split; [exact Hall | intros; lia].
  - split; [exact Hj |]. split; [exact Hall |].
    intros [| j'] x Hj' Hx; cbn in Hx.
    + injection Hx as <-. apply Z.ltb_lt, Hlt.
    + apply Z.ltb_lt, (Hfirst j'); [lia | exact Hx].
Qed.

Lemma is_peak_np_argmax (c : list Z) (t : nat) (v : Z) :
  is_peak c t v ->
  np_argmax Z.ltb c = Ok t /\ np_max Z.ltb c = Ok v /\ getitem c t = Ok v.
Proof.
  intros Hpeak.
  assert (Hne : c <> []) by (destruct Hpeak as [Ht _]; intros ->; discriminate).
  destruct (np_argmax_peak c Hne) as (t' & v' & Harg & Hmax & Hpeak').
  destruct (is_peak_unique _ _ _ _ _ Hpeak Hpeak') as [<- <-].
  split; [exact Harg |]. split; [exact Hmax |].
  unfold getitem. destruct Hpeak as [-> _]. reflexivity.
Qed.

Lemma is_peak_compute (c : list Z) (t : nat) (v : Z) :
  np_argmax Z.ltb c = Ok t -> np_max Z.ltb c = Ok v -> is_peak c t v.
Proof.
  intros Harg Hmax.
  assert (Hne : c <> []) by (intros ->; discriminate).
  destruct (np_argmax_peak c Hne) as (t' & v' & Harg' & Hmax' & Hpeak).
  congruence.
Qed.

Lemma rmap_Ok_map {A B : Type} (f : A -> result B) (g : A -> B) (l : list A) :
  (forall x, x ∈ l -> f x = Ok (g x)) -> rmap f l = Ok (map g l).
Proof.
  induction l as [| x l IH]; intros Hf; cbn; [reflexivity |].
  rewrite Hf by left. cbn. rewrite IH; [reflexivity |].
  intros y Hy. apply Hf. right. exact Hy.
Qed.

(** * Recorded lookups *)

Section TracedFacts.
Context {E : Type}.

Lemma outcome_tbind {A B : Type} (m : traced (E := E) A) (f : A -> traced B) :
  outcome (tbind m f) = rbind (outcome m) (fun a => outcome (f a)).
Proof.
  destruct m as [tr [a | e]]; cbn; [| reflexivity].
  destruct (f a); reflexivity.
Qed.

Lemma outcome_tmap {A B : Type} (f : A -> traced (E := E) B) (l : list A) :
  outcome (tmap f l) = rmap (fun x => outcome (f x)) l.
Proof.
  induction l as [| x l IH]; cbn [tmap rmap]; [reflexivity |].
  rewrite outcome_tbind. destruct (outcome (f x)); cbn; [| reflexivity].
  rewrite outcome_tbind, IH. destruct (rmap _ l); reflexivity.
Qed.

(** [absent ev] says that the event [ev] is a lookup of a key its table
    does not hold.  A computation fails loudly when such a lookup, once
    performed, makes the whole computation end in [KeyError]. *)
Variable absent : E -> Prop.

Definition fails_loudly {A : Type} (m : traced (E := E) A) : Prop :=
  forall ev, ev ∈ lookups m -> absent ev -> outcome m = Raise KeyError.

Lemma fails_loudly_tret {A : Type} (a : A) : fails_loudly (tret a).
Proof. intros ev Hev. inversion Hev. Qed.

Lemma fails_loudly_tlift {A : Type} (r : result A) : fails_loudly (tlift r).
Proof. intros ev Hev. inversion Hev. Qed.

Lemma fails_loudly_tlookup {V : Type} (ev : E) (d : gmap key V) (k : key) :
  (absent ev -> d !! k = None) -> fails_loudly (tlookup ev d k).
Proof.
  intros Habs ev' Hev Hev'. cbn in Hev.
  apply list_elem_of_singleton in Hev as ->.
  cbn. rewrite (Habs Hev'). reflexivity.
Qed.

Lemma fails_loudly_tbind {A B : Type} (m : traced A) (f : A -> traced B) :
  fails_loudly m -> (forall a, fails_loudly (f a)) -> fails_loudly (tbind m f).
Proof.
  intros Hm Hf ev Hev Habs.
  destruct m as [tr [a | e]]; cbn in *.
  - specialize (Hf a). destruct (f a) as [tr' r] eqn:Hfa. cbn in *.
    apply elem_of_app in Hev as [Hev | Hev].
    + discriminate (Hm ev Hev Habs).
    + exact (Hf ev Hev Habs).
  - specialize (Hm ev Hev Habs). cbn in Hm. injection Hm as ->. reflexivity.
Qed.

Lemma fails_loudly_tmap {A B : Type} (f : A -> traced B) (l : list A) :
  (forall x, fails_loudly (f x)) -> fails_loudly (tmap f l).
Proof.
  intros Hf. induction l as [| x l IH]; cbn [tmap].
  - apply fails_loudly_tret.
  - apply fails_loudly_tbind; [apply Hf |]. intros y.
    apply fails_loudly_tbind; [exact IH |]. intros ys.
    apply fails_loudly_tret.
Qed.

End TracedFacts.

Create HintDb loud.
#[export] Hint Resolve fails_loudly_tret fails_loudly_tlift fails_loudly_tlookup
  fails_loudly_tbind fails_loudly_tmap : loud.

(** * DNIC.extract *)

Section DNICExtract.
Variables (c : list Z) (year : Z) (ekj_dic : gmap key Q).
Variables (c_peak c_before_peak : Q).

Let absent_key (k : key) : Prop := ekj_dic !! k = None.

Lemma normalized_fails_loudly (subj : string) (i : Z) :
  fails_loudly absent_key (DNIC.normalized c year ekj_dic subj i).
Proof.
  unfold DNIC.normalized.
  apply fails_loudly_tbind; [auto with loud |]. intros ci.
  apply fails_loudly_tbind; [| auto with loud].
  apply fails_loudly_tlookup. auto.
Qed.

Lemma for_subj_fails_loudly (y_peak_v c_peak_v : Z) (subjs : list string) :
  fails_loudly absent_key
    (DNIC.for_subj c year ekj_dic c_peak c_before_peak y_peak_v c_peak_v subjs).
Proof.
  induction subjs as [| subj rest IH]; cbn [DNIC.for_subj]; [auto with loud |].
  apply fails_loudly_tbind; [apply fails_loudly_tlookup; auto |]. intros e.
  apply fails_loudly_tbind; [auto with loud |]. intros q.
  destruct (Qltb c_peak q); [| exact IH].
  apply fails_loudly_tbind.
  { apply fails_loudly_tmap. intros i. apply normalized_fails_loudly. }
  intros before.
  apply fails_loudly_tbind; [auto with loud |]. intros m.
  destruct (Qltb m c_before_peak); [auto with loud | exact IH].
Qed.

Lemma extract_m_fails_loudly (subjs : list string) :
  fails_loudly absent_key
    (DNIC.extract_m c subjs year ekj_dic c_peak c_before_peak).
Proof.
  unfold DNIC.extract_m.
  apply fails_loudly_tbind; [auto with loud |]. intros t.
  apply fails_loudly_tbind; [auto with loud |]. intros v.
  destruct (_ <? _)%nat; [apply for_subj_fails_loudly | auto with loud].
Qed.

End DNICExtract.

(** * Quartile.extract *)

Definition read_table {V : Type} (c_dic_before c_dic_after : gmap key V)
    (tb : table) : gmap key V :=
  match tb with
  | c_dic_before_table => c_dic_before
  | c_dic_after_table => c_dic_after
  end.

Lemma quartile_extract_m_fails_loudly (c50 : Z) (subjs : list string) (year : Z)
    (c_dic_before c_dic_after : gmap key Z) :
  fails_loudly
    (fun ev => read_table c_dic_before c_dic_after (fst ev) !! snd ev = None)
    (Quartile.extract_m c50 subjs year c_dic_before c_dic_after).
Proof.
  unfold Quartile.extract_m.
  apply fails_loudly_tbind; [| auto with loud].
  apply fails_loudly_tmap. intros subj. unfold Quartile.subject_score.
  apply fails_loudly_tbind; [apply fails_loudly_tlookup; auto |]. intros b.
  destruct (c50 <? b); [auto with loud |].
  apply fails_loudly_tbind; [apply fails_loudly_tlookup; auto |]. intros a.
  destruct (a <? c50); auto with loud.
Qed.

(** C4: when [DNIC.extract] or [Quartile.extract] looks up a (subject,
    year) key that the table it reads does not hold, the call ends in
    [KeyError]; it neither substitutes a default nor returns a boolean. *)
Theorem missing_baseline_key_raises :
  (forall c subjs year ekj_dic c_peak c_before_peak k,
      k ∈ lookups (DNIC.extract_m c subjs year ekj_dic c_peak c_before_peak) ->
      ekj_dic !! k = None ->
      DNIC.extract c subjs year ekj_dic c_peak c_before_peak = Raise KeyError)
  /\ (forall c50 subjs year c_dic_before c_dic_after tb k,
      (tb, k) ∈ lookups (Quartile.extract_m c50 subjs year c_dic_before c_dic_after) ->
      read_table c_dic_before c_dic_after tb !! k = None ->
      Quartile.extract c50 subjs year c_dic_before c_dic_after = Raise KeyError).
Proof.
  split.
  - intros c subjs year ekj_dic c_peak c_before_peak k Hk Habs.
    exact (extract_m_fails_loudly c year ekj_dic c_peak c_before_peak subjs k Hk Habs).
  - intros c50 subjs year c_dic_before c_dic_after tb k Hk Habs.
    exact (quartile_extract_m_fails_loudly c50 subjs year c_dic_before
             c_dic_after (tb, k) Hk Habs).
Qed.

Lemma py_div_Ok (x : Z) (y : Q) :
  ~ (y == 0)%Q -> py_div x y = Ok (inject_Z x / y)%Q.
Proof.
  intros Hy. unfold py_div.
  destruct (Qeq_bool y 0) eqn:Heq; [| reflexivity].
  apply Qeq_bool_iff in Heq. contradiction.
Qed.

Lemma py_div_raises_or_Ok (x : Z) (y : Q) :
  py_div x y = Raise ZeroDivisionError \/ py_div x y = Ok (inject_Z x / y)%Q.
Proof. unfold py_div. destruct (Qeq_bool y 0); auto. Qed.

Lemma py_getitem_nat {A : Type} (l : list A) (i : nat) (x : A) :
  l !! i = Some x -> py_getitem l (Z.of_nat i) = Ok x.
Proof.
  intros Hi. pose proof (lookup_lt_Some _ _ _ Hi) as Hlt.
  unfold py_getitem.
  replace (0 <=? Z.of_nat i) with true by (symmetry; apply Z.leb_le; lia).
  replace (Z.of_nat i <? Z.of_nat (length l)) with true
    by (symmetry; apply Z.ltb_lt; lia).
  cbn. unfold getitem. rewrite Nat2Z.id, Hi. reflexivity.
Qed.

Lemma range_empty (a b : Z) : b <= a -> range a b = [].
Proof.
  intros H. unfold range, seqZ.
  replace (Z.to_nat (b - a)) with 0%nat by lia. reflexivity.
Qed.

Lemma elem_of_range (a b i : Z) : i ∈ range a b <-> a <= i < b.
Proof. unfold range. rewrite elem_of_seqZ. lia. Qed.

(** * DNIC.extract around the peak of the history *)

Section DNICPeak.
Variables (c : list Z) (year : Z) (ekj_dic : gmap key Q).
Variables (c_peak c_before_peak : Q).
Variables (t : nat) (v : Z).
Hypothesis Hpeak : is_peak c t v.

Let y_peak : Z := year + Z.of_nat t.
Let loop : list string -> traced bool :=
  DNIC.for_subj c year ekj_dic c_peak c_before_peak y_peak v.

Lemma extract_unfold (subjs : list string) :
  DNIC.extract c subjs year ekj_dic c_peak c_before_peak
  = if (length c / 2 <? t)%nat then outcome (loop subjs) else Ok false.
Proof.
  destruct (is_peak_np_argmax c t v Hpeak) as (Harg & _ & Hget).
  unfold DNIC.extract, DNIC.extract_m.
  rewrite outcome_tbind. cbn [outcome tlift snd]. rewrite Harg. cbn [rbind].
  rewrite outcome_tbind. cbn [outcome tlift snd]. rewrite Hget. cbn [rbind].
  destruct (_ <? _)%nat; reflexivity.
Qed.

Lemma normalized_outcome (subj : string) (i : Z) :
  outcome (DNIC.normalized c year ekj_dic subj i)
  = rbind (py_getitem c (i - year)) (fun ci =>
      match ekj_dic !! (subj, i) with
      | Some e => py_div ci e
      | None => Raise KeyError
      end).
Proof.
  unfold DNIC.normalized. rewrite outcome_tbind. cbn [outcome tlift snd].
  destruct (py_getitem c (i - year)) as [ci | e]; cbn [rbind]; [| reflexivity].
  rewrite outcome_tbind. cbn [outcome tlookup snd].
  destruct (ekj_dic !! (subj, i)); reflexivity.
Qed.

Lemma loop_step (subj : string) (rest : list string) :
  outcome (loop (subj :: rest))
  = match ekj_dic !! (subj, y_peak) with
    | None => Raise KeyError
    | Some e =>
        rbind (py_div v e) (fun q =>
          if Qltb c_peak q then
            rbind (rmap (fun i => outcome (DNIC.normalized c year ekj_dic subj i))
                        (range year (y_peak - 2)))
              (fun before =>
                 rbind (np_max Qltb before) (fun m =>
                   if Qltb m c_before_peak then Ok true
                   else outcome (loop rest)))
          else outcome (loop rest))
    end.
Proof.
  unfold loop. cbn [DNIC.for_subj].
  rewrite outcome_tbind. cbn [outcome tlookup snd].
  destruct (ekj_dic !! (subj, y_peak)) as [e |]; cbn [rbind]; [| reflexivity].
  rewrite outcome_tbind. cbn [outcome tlift snd].
  destruct (py_div v e) as [q | ex]; cbn [rbind]; [| reflexivity].
  destruct (Qltb c_peak q); [| reflexivity].
  rewrite outcome_tbind, outcome_tmap.
  destruct (rmap _ _) as [before | ex]; cbn [rbind]; [| reflexivity].
  rewrite outcome_tbind. cbn [outcome tlift snd].
  destruct (np_max Qltb before) as [m | ex]; cbn [rbind]; [| reflexivity].
  destruct (Qltb m c_before_peak); reflexivity.
Qed.

(** The normalized peak of subject [subj] exceeds [c_peak]. *)
Definition peak_exceeds (subj : string) : Prop :=
  exists e, ekj_dic !! (subj, y_peak) = Some e
            /\ (c_peak < inject_Z v / e)%Q.

(** Every normalized value of subject [subj] over the offsets
    [0 .. t - 3], the years of [range(year, y_peak_v - 2)], stays below
    [c_before_peak]. *)
Definition quiet_before_peak (subj : string) : Prop :=
  forall (i : nat) (ci : Z) (ei : Q),
    (i + 2 < t)%nat -> c !! i = Some ci ->
    ekj_dic !! (subj, year + Z.of_nat i) = Some ei ->
    (inject_Z ci / ei < c_before_peak)%Q.

(** ** A late peak within the first three years *)

Lemma loop_raises_short (subjs : list string) :
  (t < 3)%nat ->
  (exists subj, subj ∈ subjs /\ peak_exceeds subj) ->
  raises (outcome (loop subjs)).
Proof.
  intros Ht. induction subjs as [| subj rest IH]; intros (s & Hs & Hq).
  - inversion Hs.
  - rewrite loop_step.
    destruct (ekj_dic !! (subj, y_peak)) as [e |] eqn:He; [| exact I].
    destruct (py_div_raises_or_Ok v e) as [-> | ->]; cbn [rbind]; [exact I |].
    destruct (Qltb c_peak (inject_Z v / e)) eqn:Hcmp.
    + rewrite range_empty by (unfold y_peak; lia). exact I.
    + apply IH. exists s. split; [| exact Hq].
      apply elem_of_cons in Hs as [-> | Hs]; [| exact Hs].
      destruct Hq as (e' & He' & Hlt).
      rewrite He in He'. injection He' as <-.
      apply Qltb_lt in Hlt. congruence.
Qed.

Lemma loop_ValueError_short (subjs : list string) :
  (t < 3)%nat ->
  (forall subj, subj ∈ subjs ->
     exists e, ekj_dic !! (subj, y_peak) = Some e /\ ~ (e == 0)%Q) ->
  (exists subj, subj ∈ subjs /\ peak_exceeds subj) ->
  outcome (loop subjs) = Raise ValueError.
Proof.
  intros Ht. induction subjs as [| subj rest IH]; intros Hkeys (s & Hs & Hq).
  - inversion Hs.
  - rewrite loop_step.
    destruct (Hkeys subj) as (e & He & Hnz); [left |].
    rewrite He, (py_div_Ok v e Hnz). cbn [rbind].
    destruct (Qltb c_peak (inject_Z v / e)) eqn:Hcmp.
    + rewrite range_empty by (unfold y_peak; lia). reflexivity.
    + apply IH; [intros s' Hs'; apply Hkeys; right; exact Hs' |].
      exists s. split; [| exact Hq].
      apply elem_of_cons in Hs as [-> | Hs]; [| exact Hs].
      destruct Hq as (e' & He' & Hlt).
      rewrite He in He'. injection He' as <-.
      apply Qltb_lt in Hlt. congruence.
Qed.

(** ** A peak at offset three or later *)

(** The baseline of [subj] is present and non-zero for every year from
    publication to the peak. *)
Definition baseline_defined (subj : string) : Prop :=
  forall i : nat, (i <= t)%nat ->
    exists e, ekj_dic !! (subj, year + Z.of_nat i) = Some e /\ ~ (e == 0)%Q.

End DNICPeak.

(** * Which runs of DNIC.extract return *)

Section ReturnsFacts.
Context {E : Type}.

Lemma lookups_tbind_eq {A B : Type} (m : traced (E := E) A)
    (f : A -> traced B) :
  lookups (tbind m f)
  = lookups m ++ match outcome m with
                 | Ok a => lookups (f a)
                 | Raise _ => []
                 end.
Proof.
  destruct m as [tr [a | e]]; cbn; [| rewrite app_nil_r; reflexivity].
  destruct (f a); reflexivity.
Qed.

(** A comprehension returns, or one of its elements raises after being
    evaluated: the lookups of that element were performed. *)
Lemma tmap_returns_or_raises {A B : Type} (f : A -> traced (E := E) B)
    (l : list A) :
  (exists ys, outcome (tmap f l) = Ok ys)
  \/ exists x e, x ∈ l /\ outcome (f x) = Raise e
                 /\ forall ev, ev ∈ lookups (f x) -> ev ∈ lookups (tmap f l).
Proof.
  induction l as [| x l IH]; cbn [tmap]; [left; exists []; reflexivity |].
  rewrite outcome_tbind.
  destruct (outcome (f x)) as [y | e] eqn:Hx.
  - cbn [rbind]. rewrite outcome_tbind.
    destruct IH as [[ys Hys] | (x' & e & Hx' & Hraise & Hsub)].
    + left. rewrite Hys. cbn. eauto.
    + right. exists x', e. split; [right; exact Hx' |].
      split; [exact Hraise |]. intros ev Hev.
      rewrite lookups_tbind_eq, Hx. apply elem_of_app. right.
      rewrite lookups_tbind_eq. apply elem_of_app. left. auto.
  - right. exists x, e. split; [left |]. split; [exact Hx |].
    intros ev Hev. rewrite lookups_tbind_eq. apply elem_of_app. left.
    exact Hev.
Qed.

End ReturnsFacts.

Lemma rmap_Ok_Forall2 {A B : Type} (f : A -> result B) (l : list A)
    (ys : list B) :
  rmap f l = Ok ys -> Forall2 (fun x y => f x = Ok y) l ys.
Proof.
  revert ys. induction l as [| x l IH]; intros ys; cbn [rmap].
  - intros [= <-]. constructor.
  - destruct (f x) as [y | e] eqn:Hx; cbn [rbind]; [| discriminate].
    destruct (rmap f l) as [ys' | e]; cbn [rbind]; [| discriminate].
    intros [= <-]. constructor; [exact Hx | apply IH; reflexivity].
Qed.

Section DNICReturns.
Variables (c : list Z) (year : Z) (ekj_dic : gmap key Q).
Variables (c_peak c_before_peak : Q).
Variables (t : nat) (v : Z).
Hypothesis Hpeak : is_peak c t v.

Let y_peak : Z := year + Z.of_nat t.
Let loop : list string -> traced bool :=
  DNIC.for_subj c year ekj_dic c_peak c_before_peak y_peak v.

(** A key is usable when the table holds a non-zero baseline for it. *)
Definition usable (k : key) : Prop :=
  exists e, ekj_dic !! k = Some e /\ ~ (e == 0)%Q.

Lemma normalized_value (subj : string) (i : Z) (q : Q) :
  year <= i < y_peak - 2 ->
  outcome (DNIC.normalized c year ekj_dic subj i) = Ok q ->
  exists ci ei,
    c !! Z.to_nat (i - year) = Some ci
    /\ ekj_dic !! (subj, i) = Some ei
    /\ q = (inject_Z ci / ei)%Q.
Proof.
  intros Hi. rewrite normalized_outcome.
  assert (Hlen : (t < length c)%nat).
  { destruct Hpeak as [Ht _]. eapply lookup_lt_Some, Ht. }
  destruct (lookup_lt_is_Some_2 c (Z.to_nat (i - year))) as [ci Hci];
    [unfold y_peak in Hi; lia |].
  assert (Hget : py_getitem c (i - year) = Ok ci).
  { rewrite <- (py_getitem_nat _ _ _ Hci). f_equal. lia. }
  rewrite Hget. cbn [rbind].
  destruct (ekj_dic !! (subj, i)) as [ei |]; [| discriminate].
  destruct (py_div_raises_or_Ok ci ei) as [-> | ->]; [discriminate |].
  intros [= <-]. eauto.
Qed.

Lemma normalized_returns (subj : string) (i : Z) :
  year <= i < y_peak - 2 -> usable (subj, i) ->
  exists q, outcome (DNIC.normalized c year ekj_dic subj i) = Ok q.
Proof.
  intros Hi (ei & Hei & Hnz). rewrite normalized_outcome.
  assert (Hlen : (t < length c)%nat).
  { destruct Hpeak as [Ht _]. eapply lookup_lt_Some, Ht. }
  destruct (lookup_lt_is_Some_2 c (Z.to_nat (i - year))) as [ci Hci];
    [unfold y_peak in Hi; lia |].
  assert (Hget : py_getitem c (i - year) = Ok ci).
  { rewrite <- (py_getitem_nat _ _ _ Hci). f_equal. lia. }
  rewrite Hget. cbn [rbind].
  rewrite Hei, (py_div_Ok _ _ Hnz). eauto.
Qed.

Lemma normalized_key (subj : string) (i : Z) :
  year <= i < y_peak - 2 ->
  (subj, i) ∈ lookups (DNIC.normalized c year ekj_dic subj i).
Proof.
  intros Hi.
  assert (Hlen : (t < length c)%nat).
  { destruct Hpeak as [Ht _]. eapply lookup_lt_Some, Ht. }
  destruct (lookup_lt_is_Some_2 c (Z.to_nat (i - year))) as [ci Hci];
    [unfold y_peak in Hi; lia |].
  assert (Hget : py_getitem c (i - year) = Ok ci).
  { rewrite <- (py_getitem_nat _ _ _ Hci). f_equal. lia. }
  unfold DNIC.normalized. rewrite lookups_tbind_eq.
  cbn [lookups outcome tlift fst snd]. rewrite Hget. cbn [app].
  rewrite lookups_tbind_eq. cbn [lookups tlookup fst]. left.
Qed.

(** The values of the comprehension before the peak, once it has been
    evaluated. *)
Lemma before_peak_evaluated (subj : string) (vals : list Q) :
  rmap (fun i => outcome (DNIC.normalized c year ekj_dic subj i))
       (range year (y_peak - 2)) = Ok vals ->
  (length vals = t - 2)%nat
  /\ forall q, q ∈ vals <->
       exists (i : nat) (ci : Z) (ei : Q),
         (i + 2 < t)%nat /\ c !! i = Some ci
         /\ ekj_dic !! (subj, year + Z.of_nat i) = Some ei
         /\ q = (inject_Z ci / ei)%Q.
Proof.
  intros Hvals. apply rmap_Ok_Forall2 in Hvals. split.
  - rewrite <- (Forall2_length _ _ _ Hvals). unfold range.
    rewrite length_seqZ. unfold y_peak. lia.
  - intros q. split.
    + intros Hq. apply list_elem_of_lookup in Hq as [n Hn].
      destruct (Forall2_lookup_r _ _ _ _ _ Hvals Hn) as (i & Hi & Hval).
      assert (Hin : i ∈ range year (y_peak - 2))
        by (eapply list_elem_of_lookup_2, Hi).
      apply elem_of_range in Hin.
      destruct (normalized_value subj i q Hin Hval) as (ci & ei & Hci & Hei & ->).
      exists (Z.to_nat (i - year)), ci, ei.
      split; [unfold y_peak in Hin; lia |]. split; [exact Hci |].
      replace (year + Z.of_nat (Z.to_nat (i - year))) with i by lia.
      split; [exact Hei | reflexivity].
    + intros (i & ci & ei & Hi & Hci & Hei & ->).
      assert (Hin : year + Z.of_nat i ∈ range year (y_peak - 2))
        by (apply elem_of_range; unfold y_peak; lia).
      apply list_elem_of_lookup in Hin as [n Hn].
      destruct (Forall2_lookup_l _ _ _ _ _ Hvals Hn) as (q & Hq & Hval).
      assert (Hrange : year <= year + Z.of_nat i < y_peak - 2)
        by (unfold y_peak; lia).
      destruct (normalized_value subj _ q Hrange Hval)
        as (ci' & ei' & Hci' & Hei' & ->).
      replace (Z.to_nat (year + Z.of_nat i - year)) with i in Hci' by lia.
      rewrite Hci in Hci'. rewrite Hei in Hei'.
      injection Hci' as <-. injection Hei' as <-.
      eapply list_elem_of_lookup_2, Hq.
Qed.

(** Whatever boolean the loop over the subjects returns, it is [True]
    exactly when some subject has a peak above [c_peak] and stays quiet
    before it. *)
Lemma loop_returned (subjs : list string) (b : bool) :
  outcome (loop subjs) = Ok b ->
  (b = true <->
   exists subj, subj ∈ subjs
     /\ peak_exceeds year ekj_dic c_peak t v subj
     /\ quiet_before_peak c year ekj_dic c_before_peak t subj).
Proof.
  revert b. induction subjs as [| subj rest IH]; intros b.
  - cbn. intros [= <-].
    split; [discriminate | intros (s & Hs & _); inversion Hs].
  - unfold loop, y_peak. rewrite loop_step. fold y_peak. fold loop.
    destruct (ekj_dic !! (subj, y_peak)) as [e |] eqn:He; [| discriminate].
    destruct (py_div_raises_or_Ok v e) as [-> | ->]; [discriminate |].
    cbn [rbind].
    assert (Hskip : ~ (peak_exceeds year ekj_dic c_peak t v subj
                       /\ quiet_before_peak c year ekj_dic c_before_peak t
                            subj) ->
                    outcome (loop rest) = Ok b ->
                    (b = true <->
                     exists s, s ∈ subj :: rest
                       /\ peak_exceeds year ekj_dic c_peak t v s
                       /\ quiet_before_peak c year ekj_dic c_before_peak t s)).
    { intros Hno Hrest. rewrite (IH b Hrest). split.
      - intros (s & Hs & Hq). exists s. split; [right; exact Hs | exact Hq].
      - intros (s & [-> | Hs]%elem_of_cons & Hq); [contradiction | eauto]. }
    destruct (Qltb c_peak (inject_Z v / e)) eqn:Hcmp.
    + destruct (rmap _ _) as [vals | ex] eqn:Hvals; [| discriminate].
      cbn [rbind].
      destruct (before_peak_evaluated subj vals Hvals) as [Hlen Hin].
      destruct (np_max Qltb vals) as [m | ex] eqn:Hm; [| discriminate].
      cbn [rbind].
      assert (Hne : vals <> []) by (intros ->; discriminate).
      apply np_max_spec in Hm as [Hmin Hub]; [| apply _].
      destruct (Qltb m c_before_peak) eqn:Hquiet.
      * intros [= <-]. split; [| reflexivity].
        intros _. exists subj. split; [left |]. split.
        -- exists e. split; [exact He |]. apply Qltb_lt, Hcmp.
        -- intros i ci ei Hi Hci Hei.
           eapply Qle_lt_trans; [| apply Qltb_lt, Hquiet].
           apply Qltb_ge, Hub, Hin. eauto 10.
      * apply Hskip. intros [_ Hq].
        apply Hin in Hmin as (i & ci & ei & Hi & Hci & Hei & ->).
        specialize (Hq i ci ei Hi Hci Hei).
        apply Qltb_lt in Hq. congruence.
    + apply Hskip. intros [(e' & He' & Hlt) _].
      fold y_peak in He'. rewrite He in He'. injection He' as <-.
      apply Qltb_lt in Hlt. congruence.
Qed.

(** The loop returns a boolean when every key it looks up is usable and
    [max] is not applied to an empty list. *)
Lemma loop_returns (subjs : list string) :
  (forall k, k ∈ lookups (loop subjs) -> usable k) ->
  ((3 <= t)%nat
   \/ ~ exists subj, subj ∈ subjs /\ peak_exceeds year ekj_dic c_peak t v subj) ->
  exists b, outcome (loop subjs) = Ok b.
Proof.
  induction subjs as [| subj rest IH]; intros Hkeys Hmax.
  - exists false. reflexivity.
  - revert Hkeys. unfold loop at 1. cbn [DNIC.for_subj]. fold loop.
    rewrite lookups_tbind_eq. cbn [lookups outcome tlookup fst snd].
    intros Hkeys.
    destruct (Hkeys (subj, y_peak)) as (e & He & Hnz); [left |].
    unfold loop at 1. unfold y_peak at 1. rewrite loop_step.
    fold y_peak. fold loop.
    rewrite He in Hkeys |- *. rewrite (py_div_Ok v e Hnz). cbn [rbind].
    rewrite lookups_tbind_eq in Hkeys.
    cbn [lookups outcome tlift fst snd] in Hkeys.
    rewrite (py_div_Ok v e Hnz) in Hkeys. cbn [app] in Hkeys.
    assert (Hrest : (forall k, k ∈ lookups (loop rest) -> usable k) ->
                    exists b, outcome (loop rest) = Ok b).
    { intros Hk. apply IH; [exact Hk |].
      destruct Hmax as [Ht | Hno]; [left; exact Ht | right].
      intros (s & Hs & Hq). apply Hno. exists s. split; [right |]; auto. }
    destruct (Qltb c_peak (inject_Z v / e)) eqn:Hcmp.
    + assert (Ht : (3 <= t)%nat).
      { destruct Hmax as [Ht | Hno]; [exact Ht |]. exfalso. apply Hno.
        exists subj. split; [left |]. exists e.
        split; [exact He | apply Qltb_lt, Hcmp]. }
      rewrite lookups_tbind_eq in Hkeys. rewrite <- outcome_tmap.
      destruct (tmap_returns_or_raises
                  (DNIC.normalized c year ekj_dic subj)
                  (range year (y_peak - 2)))
        as [[vals Hvals] | (i & ex & Hi & Hraise & Hsub)].
      2:{ exfalso. apply elem_of_range in Hi.
          destruct (normalized_returns subj i Hi) as [q Hq];
            [| congruence].
          apply Hkeys. right. apply elem_of_app. left. apply Hsub.
          apply normalized_key, Hi. }
      rewrite Hvals in Hkeys |- *. cbn [rbind].
      rewrite outcome_tmap in Hvals.
      destruct (before_peak_evaluated subj vals Hvals) as [Hlen _].
      destruct (np_max_nonempty Qltb vals) as [m Hm].
      { intros ->. cbn in Hlen. lia. }
      rewrite Hm. cbn [rbind].
      rewrite lookups_tbind_eq in Hkeys.
      cbn [lookups outcome tlift fst snd] in Hkeys. rewrite Hm in Hkeys.
      cbn [app] in Hkeys.
      destruct (Qltb m c_before_peak); [exists true; reflexivity |].
      apply Hrest. intros k Hk. apply Hkeys. right.
      apply elem_of_app. right. exact Hk.
    + apply Hrest. intros k Hk. apply Hkeys. right. exact Hk.
Qed.

End DNICReturns.

Lemma extract_lookups_unfold (c : list Z) (subjs : list string) (year : Z)
    (ekj_dic : gmap key Q) (c_peak c_before_peak : Q) (t : nat) (v : Z) :
  is_peak c t v ->
  lookups (DNIC.extract_m c subjs year ekj_dic c_peak c_before_peak)
  = if (length c / 2 <? t)%nat
    then lookups (DNIC.for_subj c year ekj_dic c_peak c_before_peak
                    (year + Z.of_nat t) v subjs)
    else [].
Proof.
  intros Hpeak.
  destruct (is_peak_np_argmax c t v Hpeak) as (Harg & _ & Hget).
  unfold DNIC.extract_m.
  rewrite lookups_tbind_eq. cbn [lookups outcome tlift fst snd].
  rewrite Harg. cbn [app].
  rewrite lookups_tbind_eq. cbn [lookups outcome tlift fst snd].
  rewrite Hget. cbn [app].
  destruct (_ <? _)%nat; reflexivity.
Qed.

(** A baseline table that holds [e] for [subj] in each of the [n] years
    from [year] on. *)
Definition flat_baseline (subj : string) (year n : Z) (e : Q) : gmap key Q :=
  list_to_map (map (fun y => ((subj, y), e)) (seqZ year n)).

Lemma missing_baseline_key_raises_witness :
  ("a"%string, 2003) ∈ lookups (DNIC.extract_m [0; 0; 0; 5] ["a"%string] 2000 ∅ 2 1)
  /\ DNIC.extract [0; 0; 0; 5] ["a"%string] 2000 ∅ 2 1 = Raise KeyError
  /\ Quartile.extract 5 ["a"%string] 2000 {[("a"%string, 2000) := 3]} ∅
     = Raise KeyError.
Proof.
  split; [left |]. split.
  - apply (proj1 missing_baseline_key_raises _ _ _ _ _ _ ("a"%string, 2003));
      [left | reflexivity].
  - apply (proj2 missing_baseline_key_raises _ _ _ _ _ c_dic_after_table
             ("a"%string, 2000)); [right; left | reflexivity].
Defined.

(** C1, as the code has it: [extract] returns [False] whenever the peak
    does not lie strictly beyond offset [len(c)//2].  When it does, any
    boolean [extract] returns is [True] exactly when for at least one
    subject the normalized peak exceeds [c_peak] and every normalized
    value over [range(year, y_peak_v - 2)] stays below [c_before_peak];
    and [extract] does return a boolean when every key it looks up holds a
    non-zero baseline and, unless no subject's normalized peak exceeds
    [c_peak], the peak lies at offset 3 or later. *)
Theorem extract_hibernator_iff (c : list Z) (subjs : list string) (year : Z)
    (ekj_dic : gmap key Q) (c_peak c_before_peak : Q) (t : nat) (v : Z) :
  is_peak c t v ->
  ((t <= length c / 2)%nat ->
   DNIC.extract c subjs year ekj_dic c_peak c_before_peak = Ok false)
  /\ ((length c / 2 < t)%nat ->
      (forall b,
         DNIC.extract c subjs year ekj_dic c_peak c_before_peak = Ok b ->
         (b = true <->
          exists subj, subj ∈ subjs
            /\ peak_exceeds year ekj_dic c_peak t v subj
            /\ quiet_before_peak c year ekj_dic c_before_peak t subj))
      /\ ((forall k,
             k ∈ lookups (DNIC.extract_m c subjs year ekj_dic c_peak
                            c_before_peak) ->
             exists e, ekj_dic !! k = Some e /\ ~ (e == 0)%Q) ->
          ((3 <= t)%nat
           \/ ~ exists subj,
                  subj ∈ subjs /\ peak_exceeds year ekj_dic c_peak t v subj) ->
          exists b,
            DNIC.extract c subjs year ekj_dic c_peak c_before_peak = Ok b)).
Proof.
  intros Hpeak.
  rewrite (extract_unfold c year ekj_dic c_peak c_before_peak t v Hpeak).
  rewrite (extract_lookups_unfold c subjs year ekj_dic c_peak c_before_peak
             t v Hpeak).
  split.
  - intros Hle. apply Nat.ltb_ge in Hle. rewrite Hle. reflexivity.
  - intros Hlt. apply Nat.ltb_lt in Hlt. rewrite Hlt. split.
    + intros b. apply loop_returned. exact Hpeak.
    + apply loop_returns. exact Hpeak.
Qed.

(** A table that holds the baseline 1 of subject [a] for 2000 to 2003 and
    for 2006, and nothing for 2004 and 2005. *)
Definition sparse_baseline : gmap key Q :=
  list_to_map
    [(("a"%string, 2000), 1%Q); (("a"%string, 2001), 1%Q);
     (("a"%string, 2002), 1%Q); (("a"%string, 2003), 1%Q);
     (("a"%string, 2006), 1%Q)].

(** A peak at offset 6 of 7 over the sparse table: [extract] reads the
    years 2006 and 2000 to 2003, and returns [True].  A peak at offset 3
    of 8: [extract] reads nothing, and returns [False]. *)
Lemma extract_hibernator_iff_witness :
  (is_peak [0; 0; 0; 0; 0; 0; 9] 6 9
   /\ sparse_baseline !! ("a"%string, 2004) = None
   /\ sparse_baseline !! ("a"%string, 2005) = None
   /\ lookups (DNIC.extract_m [0; 0; 0; 0; 0; 0; 9] ["a"%string] 2000
                 sparse_baseline 2 1)
      = [("a"%string, 2006); ("a"%string, 2000); ("a"%string, 2001);
         ("a"%string, 2002); ("a"%string, 2003)]
   /\ DNIC.extract [0; 0; 0; 0; 0; 0; 9] ["a"%string] 2000 sparse_baseline
        2 1 = Ok true)
  /\ (is_peak [0; 0; 0; 9; 0; 0; 0; 0] 3 9
      /\ DNIC.extract [0; 0; 0; 9; 0; 0; 0; 0] ["a"%string] 2000 ∅ 2 1
         = Ok false).
Proof.
  assert (Hlate : is_peak [0; 0; 0; 0; 0; 0; 9] 6 9)
    by (apply is_peak_compute; reflexivity).
  assert (Hearly : is_peak [0; 0; 0; 9; 0; 0; 0; 0] 3 9)
    by (apply is_peak_compute; reflexivity).
  split.
  - split; [exact Hlate |]. split; [reflexivity |]. split; [reflexivity |].
    split; [reflexivity |].
    destruct (extract_hibernator_iff [0; 0; 0; 0; 0; 0; 9] ["a"%string] 2000
                sparse_baseline 2 1 6 9 Hlate) as [_ Hsecond].
    destruct Hsecond as [Hiff Hreturns]; [cbn; lia |].
    destruct Hreturns as [b Hb].
    + intros k Hk.
      change (lookups _)
        with [("a"%string, 2006); ("a"%string, 2000); ("a"%string, 2001);
              ("a"%string, 2002); ("a"%string, 2003)] in Hk.
      rewrite !elem_of_cons, elem_of_nil in Hk.
      exists 1%Q.
      destruct Hk as [-> | [-> | [-> | [-> | [-> | []]]]]];
        (split; [reflexivity | discriminate]).
    + left. lia.
    + rewrite Hb. f_equal. apply (Hiff b Hb).
      exists "a"%string. split; [left |]. split.
      * exists 1%Q. split; reflexivity.
      * intros i ci ei Hi Hci Hei.
        assert (Hcases : (i = 0 \/ i = 1 \/ i = 2 \/ i = 3)%nat) by lia.
        destruct Hcases as [-> | [-> | [-> | ->]]];
          vm_compute in Hci, Hei; injection Hci as <-; injection Hei as <-;
          reflexivity.
  - split; [exact Hearly |].
    apply (extract_hibernator_iff [0; 0; 0; 9; 0; 0; 0; 0] ["a"%string] 2000
             ∅ 2 1 3 9 Hearly).
    cbn. lia.
Defined.

(** C1 fails as stated: the peak of this history is at offset 3 of 8, its
    normalized value 9 exceeds [c_peak = 2], the one normalized value
    before it is 0, below [c_before_peak = 1], every key is present, and
    yet [extract] returns [False]: the peak is not in the second half. *)
Lemma extract_rejects_peak_in_first_half :
  is_peak [0; 0; 0; 9; 0; 0; 0; 0] 3 9
  /\ baseline_defined 2000 (flat_baseline "a" 2000 8 1) 3 "a"
  /\ peak_exceeds 2000 (flat_baseline "a" 2000 8 1) 2 3 9 "a"
  /\ quiet_before_peak [0; 0; 0; 9; 0; 0; 0; 0] 2000
       (flat_baseline "a" 2000 8 1) 1 3 "a"
  /\ DNIC.extract [0; 0; 0; 9; 0; 0; 0; 0] ["a"%string] 2000
       (flat_baseline "a" 2000 8 1) 2 1 = Ok false.
Proof.
  split; [apply is_peak_compute; reflexivity |].
  split; [| split; [| split]].
  - intros i Hi. exists 1%Q.
    split; [| intros H; discriminate H].
    assert (Hcases : (i = 0 \/ i = 1 \/ i = 2 \/ i = 3)%nat) by lia.
    destruct Hcases as [-> | [-> | [-> | ->]]]; reflexivity.
  - exists 1%Q. split; reflexivity.
  - intros i ci ei Hi Hci Hei.
    assert (i = 0%nat) as -> by lia.
    vm_compute in Hci, Hei. injection Hci as <-. injection Hei as <-.
    reflexivity.
  - reflexivity.
Qed.

(** C10: when the peak lies beyond [len(c)//2] but before offset 3, and
    the normalized peak of some subject exceeds [c_peak], [extract] does
    not return a boolean: it raises.  With a non-zero baseline at the peak
    year for every subject, the exception is the [ValueError] of [max] on
    the empty [range(year, y_peak_v - 2)]. *)
Theorem extract_raises_on_early_peak (c : list Z) (subjs : list string)
    (year : Z) (ekj_dic : gmap key Q) (c_peak c_before_peak : Q)
    (t : nat) (v : Z) :
  is_peak c t v ->
  (length c / 2 < t)%nat -> (t < 3)%nat ->
  (exists subj, subj ∈ subjs /\ peak_exceeds year ekj_dic c_peak t v subj) ->
  raises (DNIC.extract c subjs year ekj_dic c_peak c_before_peak)
  /\ ((forall subj, subj ∈ subjs ->
         exists e, ekj_dic !! (subj, year + Z.of_nat t) = Some e
                   /\ ~ (e == 0)%Q) ->
      DNIC.extract c subjs year ekj_dic c_peak c_before_peak
      = Raise ValueError).
Proof.
  intros Hpeak Hlt Ht Hex.
  rewrite (extract_unfold c year ekj_dic c_peak c_before_peak t v Hpeak).
  apply Nat.ltb_lt in Hlt. rewrite Hlt. split.
  - apply loop_raises_short; assumption.
  - intros Hkeys. apply loop_ValueError_short; assumption.
Qed.

Lemma extract_raises_on_early_peak_witness :
  is_peak [0; 0; 5] 2 5
  /\ (length [0; 0; 5] / 2 < 2)%nat /\ (2 < 3)%nat
  /\ peak_exceeds 2000 (flat_baseline "a" 2000 3 1) 2 2 5 "a"
  /\ raises (DNIC.extract [0; 0; 5] ["a"%string] 2000
               (flat_baseline "a" 2000 3 1) 2 1).
Proof.
  assert (Hpeak : is_peak [0; 0; 5] 2 5) by (apply is_peak_compute; reflexivity).
  assert (Hex : peak_exceeds 2000 (flat_baseline "a" 2000 3 1) 2 2 5 "a")
    by (exists 1%Q; split; reflexivity).
  split; [exact Hpeak |].
  split; [cbn; lia |]. split; [lia |]. split; [exact Hex |].
  apply (extract_raises_on_early_peak [0; 0; 5] ["a"%string] 2000
           (flat_baseline "a" 2000 3 1) 2 1 2 5 Hpeak).
  - cbn. lia.
  - lia.
  - exists "a"%string. split; [left | exact Hex].
Defined.

(** * Degenerate histories *)

(** C5: a history whose total is zero (the empty history included) scores
    1.0 with the adjusted Gini coefficient, 0 with both beauty
    coefficients, and reaches half of its citations at offset 0; none of
    the four raises. *)
Theorem zero_total_scores (c : list Z) :
  sum c = 0 ->
  AdjustedGiniCoefficient.score c = 1%Q
  /\ BeautyCoefficient.score c = Ok 0%Q
  /\ BeautyCoefficientCumulativePercentage.score c = Ok (Fin 0)
  /\ Quartile.get_c50 c = Ok 0.
Proof.
  intros H.
  unfold AdjustedGiniCoefficient.score, BeautyCoefficient.score,
    BeautyCoefficientCumulativePercentage.score, Quartile.get_c50.
  rewrite H. cbn. auto.
Qed.

Lemma zero_total_scores_witness :
  sum [0; 0; 0] = 0
  /\ AdjustedGiniCoefficient.score [] = 1%Q
  /\ Quartile.get_c50 [0; 0; 0] = Ok 0.
Proof.
  split; [reflexivity |].
  split.
  - exact (proj1 (zero_total_scores [] eq_refl)).
  - exact (proj2 (proj2 (proj2 (zero_total_scores [0; 0; 0] eq_refl)))).
Defined.


(** * ExponentialQuartile *)

Lemma gt_sqrt_real (cw x : Z) :
  ExponentialQuartile.gt_sqrt cw x = true
  <-> 0 <= x /\ (sqrt (IZR x) < IZR cw)%R.
Proof.
  unfold ExponentialQuartile.gt_sqrt.
  rewrite !andb_true_iff, Z.leb_le, !Z.ltb_lt.
  split.
  - intros [[Hx Hcw] Hlt]. split; [exact Hx |].
    rewrite <- (sqrt_square (IZR cw)) by (apply IZR_le; lia).
    apply sqrt_lt_1.
    + apply IZR_le; lia.
    + rewrite <- mult_IZR. apply IZR_le. nia.
    + rewrite <- mult_IZR. apply IZR_lt. exact Hlt.
  - intros [Hx Hlt].
    assert (Hs : (0 <= sqrt (IZR x))%R) by apply sqrt_pos.
    assert (Hcw : (0 < IZR cw)%R) by lra.
    assert (Hcw' : 0 < cw) by (apply lt_IZR; exact Hcw).
    repeat split; try assumption.
    apply lt_IZR. rewrite mult_IZR.
    rewrite <- (sqrt_sqrt (IZR x)) at 1 by (apply IZR_le; lia).
    apply Rmult_le_0_lt_compat; assumption.
Qed.

Lemma gt_sqrt_antitone (cw x y : Z) :
  0 <= x -> x <= y ->
  ExponentialQuartile.gt_sqrt cw y = true ->
  ExponentialQuartile.gt_sqrt cw x = true.
Proof.
  unfold ExponentialQuartile.gt_sqrt.
  rewrite !andb_true_iff, !Z.leb_le, !Z.ltb_lt. lia.
Qed.

(** C6: for non-negative hyperparameters [k1 <= k2] and a fixed history,
    [extract c k2 = True] forces [extract c k1 = True]: raising [k] can
    only turn a hibernator into a non-hibernator. *)
Theorem extract_antitone_in_k (c : list Z) (k1 k2 : Z) :
  0 <= k1 -> k1 <= k2 ->
  ExponentialQuartile.extract c k2 = Ok true ->
  ExponentialQuartile.extract c k1 = Ok true.
Proof.
  intros H0 Hle. unfold ExponentialQuartile.extract.
  destruct (np_max Z.ltb (take _ c)) as [cs | e]; [| discriminate].
  destruct (np_max Z.ltb (drop _ c)) as [cw | e]; [| discriminate].
  cbn. intros [= H]. f_equal.
  apply andb_true_iff in H as [H4 Hs].
  rewrite H4. cbn.
  eapply gt_sqrt_antitone; [| | exact Hs]; nia.
Qed.

Lemma extract_antitone_in_k_witness :
  0 <= 3 /\ 3 <= 20
  /\ ExponentialQuartile.extract [0; 0; 0; 0; 9] 20 = Ok true
  /\ ExponentialQuartile.extract [0; 0; 0; 0; 9] 3 = Ok true.
Proof.
  split; [lia |]. split; [lia |]. split; [reflexivity |].
  apply (extract_antitone_in_k [0; 0; 0; 0; 9] 3 20); [lia | lia | reflexivity].
Defined.

(** * KValue *)

(** The sum over the offsets [0 .. n - 1] of [w t * c_t], where a history
    shorter than [n] contributes nothing beyond its end. *)
Definition window_sum (n : nat) (w : nat -> Z) (c : list Z) : Z :=
  sum (map (fun t => w t * default 0 (c !! t)) (seq 0 n)).

(** The two sums of the K value over the first 21 years. *)
Definition window_total (c : list Z) : Z := window_sum 21 (fun _ => 1) c.

Definition window_weighted (c : list Z) : Z :=
  window_sum 21 (fun t => Z.of_nat t ^ 2) c.

Lemma sum_cons (x : Z) (l : list Z) : sum (x :: l) = x + sum l.
Proof. reflexivity. Qed.

Lemma sum_imap_take (n : nat) (w : nat -> Z) (c : list Z) :
  sum (imap (fun i ct => w i * ct) (take n c)) = window_sum n w c.
Proof.
  unfold window_sum. revert w c.
  induction n as [| n IH]; intros w c; [reflexivity |].
  cbn [seq]. rewrite <- seq_shift. cbn [map]. rewrite map_map, sum_cons.
  destruct c as [| x c].
  - rewrite take_nil. clear IH.
    induction (seq 0 n) as [| t l IHl]; cbn [map]; rewrite ?sum_cons.
    + cbn. lia.
    + rewrite !lookup_nil in *. cbn [default] in *. cbn [imap] in *. lia.
  - cbn [take imap]. rewrite sum_cons. cbn. f_equal.
    exact (IH (fun i => w (S i)) c).
Qed.

Lemma sum_take_window (n : nat) (c : list Z) :
  sum (take n c) = window_sum n (fun _ => 1) c.
Proof.
  rewrite <- sum_imap_take. f_equal.
  induction (take n c) as [| x l IH] using rev_ind; [reflexivity |].
  rewrite imap_app. cbn. rewrite <- IH. f_equal. f_equal. lia.
Qed.

Lemma sum_nonneg (l : list Z) : Forall (fun x => 0 <= x) l -> 0 <= sum l.
Proof. induction 1; cbn; [lia |]. unfold sum in *. lia. Qed.

Lemma Q2R_inject_Z_div (a b : Z) :
  b <> 0 -> Q2R (inject_Z a / inject_Z b) = (IZR a / IZR b)%R.
Proof.
  intros Hb. rewrite Q2R_div.
  - unfold Q2R. cbn. rewrite !Rinv_1, !Rmult_1_r. reflexivity.
  - unfold Qeq. cbn. lia.
Qed.

(** C8: the K value reads nothing beyond offset 20.  It is 0 when the
    first 21 entries sum to zero; otherwise, for a history without
    negative entries, it is the square root of
    [(sum of t^2 * c_t) / (sum of c_t)] over [t] in [0, 20], divided by 20. *)
Theorem kvalue_first_21_years (c : list Z) :
  Forall (fun x => 0 <= x) c ->
  (forall c', take 21 c' = take 21 c -> KValue.score c' = KValue.score c)
  /\ (window_total c = 0 -> KValue.score c = Some 0%R)
  /\ (window_total c <> 0 ->
      KValue.score c
      = Some (sqrt (IZR (window_weighted c)
                    / IZR (window_total c)) / 20)%R).
Proof.
  intros Hpos. unfold window_total, window_weighted.
  rewrite <- sum_take_window.
  split; [| split].
  - intros c' Hc'. unfold KValue.score. rewrite Hc'. reflexivity.
  - intros H0. unfold KValue.score. rewrite H0. reflexivity.
  - intros Hne. unfold KValue.score, KValue.weighted.
    rewrite sum_imap_take.
    destruct (Z.eqb_spec (sum (take 21 c)) 0) as [| _]; [contradiction |].
    assert (Hpos21 : Forall (fun x => 0 <= x) (take 21 c))
      by (apply Forall_take, Hpos).
    assert (Hs : 0 < sum (take 21 c)).
    { pose proof (sum_nonneg (take 21 c) Hpos21). lia. }
    assert (Hw : 0 <= window_sum 21 (fun t => Z.of_nat t ^ 2) c).
    { rewrite <- sum_imap_take. apply sum_nonneg.
      apply Forall_forall. intros y Hy.
      apply list_elem_of_lookup in Hy as [i Hi].
      rewrite list_lookup_imap in Hi.
      destruct (take 21 c !! i) as [x |] eqn:Hx; [| discriminate].
      cbn in Hi. injection Hi as <-.
      assert (0 <= x).
      { eapply (proj1 (Forall_forall _ _) Hpos21).
        eapply list_elem_of_lookup_2, Hx. }
      apply Z.mul_nonneg_nonneg; [apply Z.pow_nonneg; lia | assumption]. }
    unfold KValue.np_sqrt.
    destruct (Qltb _ 0) eqn:Hneg.
    + exfalso. apply Qltb_lt in Hneg. revert Hneg. apply Qle_not_lt.
      apply Qle_shift_div_l.
      * change 0%Q with (inject_Z 0). rewrite <- Zlt_Qlt. exact Hs.
      * rewrite Qmult_0_l. change 0%Q with (inject_Z 0).
        rewrite <- Zle_Qle. exact Hw.
    + cbn [option_map]. rewrite Q2R_inject_Z_div by lia. reflexivity.
Qed.

Lemma kvalue_first_21_years_witness :
  Forall (fun x => 0 <= x) [0; 0; 3]
  /\ KValue.score [0; 0; 3]
     = Some (sqrt (IZR (window_weighted [0; 0; 3]%Z)
                   / IZR (window_total [0; 0; 3]%Z)) / 20)%R.
Proof.
  assert (Hpos : Forall (fun x => 0 <= x) [0; 0; 3])
    by (repeat constructor; lia).
  split; [exact Hpos |].
  apply (proj2 (proj2 (kvalue_first_21_years [0; 0; 3] Hpos))).
  vm_compute. discriminate.
Defined.

(** * CitationAngle *)

Lemma angle_exceeds_iff (peak2 : Z) (t2 : nat) (angle_after : Q) :
  CitationAngle.angle_exceeds peak2 t2 angle_after = true
  <-> (Q2R angle_after
       < CitationAngle.degrees (atan (IZR peak2 / INR t2)))%R.
Proof.
  unfold CitationAngle.angle_exceeds.
  destruct (Rlt_dec _ _) as [H | H]; split; auto; discriminate.
Qed.

(** C9: a history of at most 10 years is never a hibernator.  A longer
    one is split at [th = len(c)//2]; with [t1] the peak offset of the
    first half and [peak2] the peak of the second half, reached at offset
    [th + j2], [extract] returns [True] exactly when [peak2 > c_peak], the
    angle [atan(peak2 / (th + j2))], converted to degrees by the factor
    [180 / pi], exceeds [angle_after], the mean of the first half is at
    most [c_before_average], and [(th + j2) - t1 >= span]. *)
Theorem citation_angle_extract (c : list Z)
    (c_before_average c_peak angle_after span : Q) :
  ((length c <= 10)%nat ->
   CitationAngle.extract c c_before_average c_peak angle_after span = Ok false)
  /\ ((10 < length c)%nat ->
      let th := (length c / 2)%nat in
      exists (t1 : nat) (v1 : Z) (j2 : nat) (peak2 : Z) (b : bool),
        is_peak (take th c) t1 v1
        /\ is_peak (drop th c) j2 peak2
        /\ CitationAngle.extract c c_before_average c_peak angle_after span
           = Ok b
        /\ (b = true <->
            (c_peak < inject_Z peak2)%Q
            /\ (Q2R angle_after
                < atan (IZR peak2 / INR (th + j2)) * 180 / PI)%R
            /\ (inject_Z (sum (take th c)) / inject_Z (Z.of_nat th)
                <= c_before_average)%Q
            /\ (span <= inject_Z (Z.of_nat (th + j2) - Z.of_nat t1))%Q)).
Proof.
  unfold CitationAngle.extract. split.
  - intros Hle. apply Nat.leb_le in Hle. rewrite Hle. reflexivity.
  - intros Hlt. cbv zeta. set (th := (length c / 2)%nat).
    destruct (Nat.leb_spec (length c) 10) as [Hle | _]; [lia |].
    assert (Hth : (5 <= th /\ th < length c)%nat).
    { unfold th. split.
      - apply Nat.div_le_lower_bound; lia.
      - apply Nat.Div0.div_lt_upper_bound; lia. }
    clearbody th.
    assert (Hlen1 : length (take th c) = th) by (rewrite length_take; lia).
    assert (Hne1 : take th c <> []).
    { intros H. rewrite H in Hlen1. cbn in Hlen1. lia. }
    assert (Hne2 : drop th c <> []).
    { intros H. apply (f_equal length) in H. rewrite length_drop in H.
      cbn in H. lia. }
    destruct (np_argmax_peak _ Hne1) as (t1 & v1 & Harg1 & _ & Hpk1).
    destruct (np_argmax_peak _ Hne2) as (j2 & peak2 & Harg2 & Hmax2 & Hpk2).
    exists t1, v1, j2, peak2. eexists.
    split; [exact Hpk1 |]. split; [exact Hpk2 |].
    rewrite Harg1, Harg2, Hmax2. cbn [rbind].
    split; [reflexivity |].
    rewrite !andb_true_iff, Qltb_lt, angle_exceeds_iff, !Qle_bool_iff.
    unfold CitationAngle.np_average, CitationAngle.degrees.
    rewrite Hlen1. tauto.
Qed.

(** A history of three years is rejected whatever the thresholds.  A
    history of eleven years with all its 30 citations in the last one
    has [th = 5], [t1 = 0], [peak2 = 30] at offset 10 and an angle
    [atan 3] of more than 45 degrees: with the thresholds
    [c_before_average = 2], [c_peak = 20], [angle_after = 5] and
    [span = 10] it is a hibernator. *)
Lemma citation_angle_extract_witness :
  ((length [0; 0; 7] <= 10)%nat
   /\ CitationAngle.extract [0; 0; 7] 2 20 5 10 = Ok false)
  /\ ((10 < length [0; 0; 0; 0; 0; 0; 0; 0; 0; 0; 30])%nat
      /\ CitationAngle.extract [0; 0; 0; 0; 0; 0; 0; 0; 0; 0; 30] 2 20 5 10
         = Ok true).
Proof.
  split.
  - split; [cbn; lia |].
    apply (proj1 (citation_angle_extract [0; 0; 7] 2 20 5 10)). cbn. lia.
  - split; [cbn; lia |].
    destruct (proj2 (citation_angle_extract
                       [0; 0; 0; 0; 0; 0; 0; 0; 0; 0; 30] 2 20 5 10))
      as (t1 & v1 & j2 & peak2 & b & Hpk1 & Hpk2 & -> & Hiff);
      [cbn; lia |].
    f_equal. apply Hiff. clear Hiff.
    cbn [length Nat.div Nat.divmod fst take drop] in Hpk1, Hpk2 |- *.
    assert (H1 : is_peak [0; 0; 0; 0; 0] 0 0)
      by (apply is_peak_compute; reflexivity).
    assert (H2 : is_peak [0; 0; 0; 0; 0; 30] 5 30)
      by (apply is_peak_compute; reflexivity).
    destruct (is_peak_unique _ _ _ _ _ Hpk1 H1) as [-> ->].
    destruct (is_peak_unique _ _ _ _ _ Hpk2 H2) as [-> ->].
    split; [reflexivity |]. split; [| split; [discriminate | discriminate]].
    replace (IZR 30 / INR (5 + 5))%R with 3%R by (cbn; lra).
    replace (Q2R 5) with 5%R by (unfold Q2R; cbn; lra).
    pose proof PI_RGT_0 as Hpi.
    assert (Hatan : (PI / 4 < atan 3)%R).
    { rewrite <- atan_1. apply atan_increasing. lra. }
    apply (Rmult_lt_reg_r PI); [exact Hpi |].
    replace (atan 3 * 180 / PI * PI)%R with (atan 3 * 180)%R
      by (field; lra).
    lra.
Defined.

(** * BeautyCoefficientCumulativePercentage *)

(** When the cumulative share peaks in the publication year, the slope
    term divides [0.0] by the zero [tm] and the score is [nan]. *)
Lemma bcp_score_nan_at_zero_peak (c : list Z) :
  sum c <> 0 ->
  np_argmax Qltb (BeautyCoefficientCumulativePercentage.c_relative c) = Ok 0%nat ->
  BeautyCoefficientCumulativePercentage.score c = Ok NaN.
Proof.
  intros Hsum Harg. unfold BeautyCoefficientCumulativePercentage.score.
  destruct (Z.eqb_spec (sum c) 0) as [| _]; [contradiction |]. cbn zeta.
  unfold BeautyCoefficientCumulativePercentage._get_c0_tm_ctm.
  destruct (BeautyCoefficientCumulativePercentage.c_relative c) as [| c0 cr];
    [discriminate |].
  cbn [getitem lookup list_lookup rbind]. rewrite Harg. cbn [rbind np_max].
  change (take 1 (c0 :: cr)) with [c0].
  cbn [imap np_sum foldl].
  unfold BeautyCoefficientCumulativePercentage._calcBcp, np_div.
  change (Z.of_nat 0) with 0. cbn [Z.eqb].
  replace (Qeq_bool ((1 - c0) * inject_Z 0) 0) with true; [reflexivity |].
  symmetry. apply Qeq_bool_iff. ring.
Qed.

(** C3 fails on the code: a history cited only in its publication year
    has its cumulative share peak at [tm = 0]; [BeautyCoefficient] returns
    0 there, while [BeautyCoefficientCumulativePercentage], which lacks the
    [tm == 0] branch, returns [nan]. *)
Theorem bcp_score_peak_at_publication_year :
  BeautyCoefficientCumulativePercentage.score [5; 0; 0] = Ok NaN
  /\ BeautyCoefficient.score [5; 0; 0] = Ok 0%Q.
Proof. split; reflexivity. Qed.

Lemma argmax_from_no_larger {A : Type} (ltb : A -> A -> bool) (l : list A)
    (best : A) (ibest i : nat) :
  (forall x, x ∈ l -> ltb best x = false) ->
  argmax_from ltb best ibest i l = (ibest, best).
Proof.
  revert i. induction l as [| x l IH]; intros i Hl; cbn; [reflexivity |].
  rewrite Hl by left. apply IH. intros y Hy. apply Hl. right. exact Hy.
Qed.

Lemma cumsum_from_bound (acc : Z) (l : list Z) (s : Z) :
  Forall (fun x => 0 <= x) l -> s ∈ cumsum_from acc l -> s <= acc + sum l.
Proof.
  intros Hpos. revert acc.
  induction Hpos as [| x l Hx Hl IH]; intros acc Hs; cbn in Hs.
  - inversion Hs.
  - rewrite sum_cons. pose proof (sum_nonneg l Hl).
    apply elem_of_cons in Hs as [-> | Hs]; [lia |].
    specialize (IH _ Hs). lia.
Qed.

(** A history with citations, all of them in the publication year: the
    cumulative share is 1 from the start, [tm] is 0, and the score is
    [nan]. *)
Lemma bcp_score_nan_first_year_only (x : Z) (c : list Z) :
  0 < x -> Forall (fun y => 0 <= y) c -> sum c = 0 ->
  BeautyCoefficientCumulativePercentage.score (x :: c) = Ok NaN.
Proof.
  intros Hx Hpos Hsum.
  assert (Htotal : sum (x :: c) = x) by (rewrite sum_cons; lia).
  apply bcp_score_nan_at_zero_peak; [lia |].
  unfold BeautyCoefficientCumulativePercentage.c_relative, cumsum.
  rewrite Htotal. cbn [cumsum_from map np_argmax].
  rewrite argmax_from_no_larger; [reflexivity |].
  intros q (s & -> & Hs)%list_elem_of_fmap.
  apply Qltb_ge. apply cumsum_from_bound in Hs; [| exact Hpos].
  replace (0 + x) with x by lia.
  apply Qmult_le_compat_r.
  - rewrite <- Zle_Qle. lia.
  - apply Qinv_le_0_compat. change 0%Q with (inject_Z 0).
    rewrite <- Zle_Qle. lia.
Qed.

(** * Loops that fill a table *)

Lemma for_each_app {A S : Type} (l l' : list A) (body : A -> S -> result S)
    (s : S) :
  for_each (l ++ l') body s = rbind (for_each l body s) (for_each l' body).
Proof.
  revert s. induction l as [| x l IH]; intros s; cbn; [reflexivity |].
  destruct (body x s) as [s' | e]; cbn; [apply IH | reflexivity].
Qed.

Lemma for_each_map {A B S : Type} (f : A -> B) (l : list A)
    (body : B -> S -> result S) (s : S) :
  for_each (map f l) body s = for_each l (fun x => body (f x)) s.
Proof.
  revert s. induction l as [| x l IH]; intros s; cbn; [reflexivity |].
  destruct (body (f x) s) as [s' | e]; cbn; [apply IH | reflexivity].
Qed.

(** Two nested loops are one loop over the pairs, outer index first. *)
Lemma for_each_nested {A B S : Type} (l1 : list A) (l2 : list B)
    (body : A -> B -> S -> result S) (s : S) :
  for_each l1 (fun x => for_each l2 (body x)) s
  = for_each (list_prod l1 l2) (fun p => body (fst p) (snd p)) s.
Proof.
  revert s. induction l1 as [| x l1 IH]; intros s; cbn [list_prod for_each];
    [reflexivity |].
  rewrite for_each_app, for_each_map. cbn [fst snd].
  destruct (for_each l2 (body x) s) as [s' | e]; cbn; [apply IH | reflexivity].
Qed.

Section FillTable.
Context {A V : Type}.
Variables (k : A -> key) (o : A -> option V).
Variable body : A -> gmap key V -> result (gmap key V).

(** One round of the loop either stores [v] under [k x] or leaves the
    table alone. *)
Definition store (x : A) (m : gmap key V) : gmap key V :=
  match o x with
  | Some v => <[k x := v]> m
  | None => m
  end.

Lemma for_each_store (l : list A) (m0 : gmap key V) :
  (forall x m, x ∈ l -> body x m = Ok (store x m)) ->
  (forall x x', x ∈ l -> x' ∈ l -> k x = k x' -> o x = o x') ->
  exists m, for_each l body m0 = Ok m
    /\ (forall x v, x ∈ l -> o x = Some v -> m !! k x = Some v)
    /\ (forall kk, (forall x, x ∈ l -> k x = kk -> o x = None) ->
                   m !! kk = m0 !! kk).
Proof.
  revert m0. induction l as [| x0 l IH]; intros m0 Hbody Hcons.
  - exists m0. split; [reflexivity |]. split; [| reflexivity].
    intros x v Hx. inversion Hx.
  - cbn [for_each]. rewrite Hbody by left. cbn [rbind].
    destruct (IH (store x0 m0)) as (m & Hrun & Hin & Hout).
    { intros x m' Hx. apply Hbody. right. exact Hx. }
    { intros x x' Hx Hx'. apply Hcons; right; assumption. }
    exists m. split; [exact Hrun |]. split.
    + intros x v [-> | Hx]%elem_of_cons Hv; [| exact (Hin x v Hx Hv)].
      destruct (decide (Exists (fun x' => k x' = k x0) l)) as [Hex | Hno].
      * apply Exists_exists in Hex as (x' & Hx' & Hk).
        rewrite <- Hk. apply Hin; [exact Hx' |].
        rewrite <- Hv. apply Hcons; [right; exact Hx' | left | exact Hk].
      * rewrite Hout.
        -- unfold store. rewrite Hv. apply lookup_insert_eq.
        -- intros x' Hx' Hk. exfalso. apply Hno.
           apply Exists_exists. eauto.
    + intros kk Hnone. rewrite Hout.
      * unfold store. destruct (o x0) as [v |] eqn:Hv; [| reflexivity].
        apply lookup_insert_ne. intros Hk.
        assert (Hx0 : x0 ∈ x0 :: l) by left.
        specialize (Hnone x0 Hx0 Hk). congruence.
      * intros x Hx. apply Hnone. right. exact Hx.
Qed.

End FillTable.

(** * Corpus tables *)

Lemma elem_of_DataFrame {A : Type} (data : list A)
    (subjs_list : list (list string)) (year_list : list Z) (r : row A) :
  r ∈ DataFrame data subjs_list year_list ->
  row_data r ∈ data /\ row_subjs r ∈ subjs_list /\ row_year r ∈ year_list.
Proof.
  revert subjs_list year_list.
  induction data as [| d data IH]; intros [| s subjs] [| y years] Hr;
    cbn in Hr; try (inversion Hr; fail).
  apply elem_of_cons in Hr as [-> | Hr].
  - cbn. repeat split; left.
  - destruct (IH _ _ Hr) as (H1 & H2 & H3). repeat split; right; assumption.
Qed.

Lemma DataFrame_columns {A : Type} (data : list A)
    (subjs_list : list (list string)) (year_list : list Z) :
  length data = length subjs_list -> length subjs_list = length year_list ->
  map row_subjs (DataFrame data subjs_list year_list) = subjs_list
  /\ map row_year (DataFrame data subjs_list year_list) = year_list.
Proof.
  revert subjs_list year_list.
  induction data as [| d data IH]; intros [| s subjs] [| y years] H1 H2;
    cbn in *; try discriminate; [auto |].
  destruct (IH subjs years) as [-> ->]; [lia | lia | auto].
Qed.

Lemma elem_of_all_subjects (subjs_list : list (list string)) (subj : string) :
  subj ∈ all_subjects subjs_list
  <-> exists subjs, subjs ∈ subjs_list /\ subj ∈ subjs.
Proof.
  unfold all_subjects, py_set.
  rewrite elem_of_remove_dups, list_elem_of_In, in_concat.
  split; intros (l & H1 & H2); exists l; rewrite ?list_elem_of_In in *; auto.
Qed.

(** * DNIC.get_ekj *)

(** The citations the paper of row [r] received in the absolute year
    [year], at offset [year - row_year r] of its history. *)
Definition citations_in (year : Z) (r : row (list Z)) : Z :=
  default 0 (row_data r !! Z.to_nat (year - row_year r)).

(** The qualifying papers of a cell: published on or before [year],
    tagged with [subj], cited at least once in [year]. *)
Definition qualifying (df : list (row (list Z))) (subj : string) (year : Z)
  : list (row (list Z)) :=
  filter (fun r => row_year r <= year /\ subj ∈ row_subjs r
                   /\ 1 <= citations_in year r) df.

(** The mean citation the papers [rows] received in [year]. *)
Definition mean_citation (year : Z) (rows : list (row (list Z))) : Q :=
  (inject_Z (sum (map (citations_in year) rows))
   / inject_Z (Z.of_nat (length rows)))%Q.

(** Every history reaches every corpus year from its publication on. *)
Definition covers (df : list (row (list Z))) (year_list : list Z) : Prop :=
  forall r y, r ∈ df -> y ∈ year_list -> row_year r <= y ->
    y - row_year r < Z.of_nat (length (row_data r)).

(** No history holds a negative count. *)
Definition nonnegative (df : list (row (list Z))) : Prop :=
  forall r, r ∈ df -> Forall (fun x => 0 <= x) (row_data r).

Section GetEkj.
Variables (df : list (row (list Z))) (year_list : list Z).
Hypothesis Hcov : covers df year_list.
Hypothesis Hpos : nonnegative df.

Lemma citations_in_nonneg (year : Z) (r : row (list Z)) :
  r ∈ df -> 0 <= citations_in year r.
Proof.
  intros Hr. unfold citations_in.
  destruct (row_data r !! _) as [x |] eqn:Hx; cbn; [| lia].
  eapply (proj1 (Forall_forall _ _) (Hpos r Hr)).
  eapply list_elem_of_lookup_2, Hx.
Qed.

Lemma citations_kj_targets (subj : string) (year : Z) :
  year ∈ year_list ->
  DNIC.citations_kj (DNIC.targets df subj year) year
  = Ok (map (citations_in year) (DNIC.targets df subj year)).
Proof.
  intros Hy. unfold DNIC.citations_kj. apply rmap_Ok_map.
  intros r [[Hle _] Hr]%list_elem_of_filter.
  pose proof (Hcov r year Hr Hy Hle) as Hlt.
  destruct (lookup_lt_is_Some_2 (row_data r) (Z.to_nat (year - row_year r)))
    as [x Hx]; [lia |].
  unfold citations_in. rewrite Hx. cbn.
  replace (year - row_year r) with (Z.of_nat (Z.to_nat (year - row_year r)))
    at 1 by lia.
  apply py_getitem_nat, Hx.
Qed.

Lemma qualifying_targets (subj : string) (year : Z) :
  qualifying df subj year
  = filter (fun r => 1 <= citations_in year r) (DNIC.targets df subj year).
Proof.
  unfold qualifying, DNIC.targets. rewrite list_filter_filter.
  apply list_filter_iff. intros r. tauto.
Qed.

Lemma N_kj_map (year : Z) (tg : list (row (list Z))) :
  DNIC.N_kj (map (citations_in year) tg)
  = length (filter (fun r => 1 <= citations_in year r) tg).
Proof.
  unfold DNIC.N_kj. induction tg as [| r tg IH]; [reflexivity |].
  cbn [map]. rewrite !filter_cons.
  destruct (decide (1 <= citations_in year r)); cbn; rewrite IH; reflexivity.
Qed.

Lemma sum_map_qualifying (year : Z) (tg : list (row (list Z))) :
  (forall r, r ∈ tg -> 0 <= citations_in year r) ->
  sum (map (citations_in year) tg)
  = sum (map (citations_in year)
           (filter (fun r => 1 <= citations_in year r) tg)).
Proof.
  induction tg as [| r tg IH]; intros Hnn; [reflexivity |].
  assert (Hr : 0 <= citations_in year r) by (apply Hnn; left).
  assert (IH' := IH (fun r' H => Hnn r' (list_elem_of_further _ _ _ H))).
  rewrite filter_cons. cbn [map]. rewrite sum_cons.
  destruct (decide (1 <= citations_in year r)); cbn [map];
    rewrite ?sum_cons; lia.
Qed.

Lemma sum_ge_length (year : Z) (rows : list (row (list Z))) :
  (forall r, r ∈ rows -> 1 <= citations_in year r) ->
  Z.of_nat (length rows) <= sum (map (citations_in year) rows).
Proof.
  induction rows as [| r rows IH]; intros H; [reflexivity |].
  cbn [map length]. rewrite sum_cons.
  assert (1 <= citations_in year r) by (apply H; left).
  assert (IH' := IH (fun r' Hr' => H r' (list_elem_of_further _ _ _ Hr'))).
  lia.
Qed.

(** What the loops store for one cell, if anything. *)
Definition ekj_value (year : Z) (subj : string) : option Q :=
  let tg := DNIC.targets df subj year in
  let ql := qualifying df subj year in
  match tg, ql with
  | [], _ => None
  | _ :: _, [] => Some (-1)%Q
  | _ :: _, _ :: _ => Some (mean_citation year ql)
  end.

Lemma ekj_cell_store (year : Z) (subj : string) (m : gmap key Q) :
  year ∈ year_list ->
  DNIC.ekj_cell df year subj m
  = Ok (store (fun p => (snd p, fst p)) (fun p => ekj_value (fst p) (snd p))
          (year, subj) m).
Proof.
  intros Hy. unfold DNIC.ekj_cell, store, ekj_value. cbn [fst snd].
  rewrite citations_kj_targets by exact Hy. cbn [rbind].
  rewrite N_kj_map, <- qualifying_targets.
  unfold mean_citation.
  rewrite (sum_map_qualifying year (DNIC.targets df subj year)),
    <- qualifying_targets.
  2:{ intros r [_ Hr]%list_elem_of_filter. apply citations_in_nonneg, Hr. }
  destruct (DNIC.targets df subj year) as [| r tg]; [reflexivity |].
  cbn [length Nat.eqb].
  destruct (qualifying df subj year) as [| q ql]; reflexivity.
Qed.

End GetEkj.

Lemma mean_citation_pos (year : Z) (rows : list (row (list Z))) :
  rows <> [] ->
  (forall r, r ∈ rows -> 1 <= citations_in year r) ->
  (0 < mean_citation year rows)%Q.
Proof.
  intros Hne Hq. pose proof (sum_ge_length year rows Hq) as Hge.
  assert (Hlen : 0 < Z.of_nat (length rows)).
  { destruct rows; [congruence | cbn; lia]. }
  unfold mean_citation. apply Qlt_shift_div_l.
  - change 0%Q with (inject_Z 0). rewrite <- Zlt_Qlt. exact Hlen.
  - rewrite Qmult_0_l. change 0%Q with (inject_Z 0). rewrite <- Zlt_Qlt. lia.
Qed.

Lemma elem_of_list_prod {A B : Type} (l1 : list A) (l2 : list B) (x : A) (y : B) :
  (x, y) ∈ list_prod l1 l2 <-> x ∈ l1 /\ y ∈ l2.
Proof. rewrite !list_elem_of_In. apply in_prod_iff. Qed.

Lemma elem_of_py_set {A : Type} `{EqDecision A} (l : list A) (x : A) :
  x ∈ py_set l <-> x ∈ l.
Proof. apply elem_of_remove_dups. Qed.

(** The table [get_ekj] returns holds, for the cells of corpus years,
    exactly the values [ekj_value] describes. *)
Lemma get_ekj_table (c_list : list (list Z)) (subjs_list : list (list string))
    (year_list : list Z) :
  covers (DataFrame c_list subjs_list year_list) year_list ->
  nonnegative (DataFrame c_list subjs_list year_list) ->
  exists ekj_dic,
    DNIC.get_ekj c_list subjs_list year_list = Ok ekj_dic
    /\ forall subj year,
         ekj_dic !! (subj, year)
         = if decide (year ∈ year_list)
           then ekj_value (DataFrame c_list subjs_list year_list) year subj
           else None.
Proof.
  intros Hcov Hpos.
  set (df := DataFrame c_list subjs_list year_list) in *.
  unfold DNIC.get_ekj. fold df. rewrite for_each_nested.
  set (cells := list_prod (py_set year_list) (all_subjects subjs_list)).
  destruct (for_each_store (fun p => (snd p, fst p))
              (fun p => ekj_value df (fst p) (snd p))
              (fun p => DNIC.ekj_cell df (fst p) (snd p)) cells ∅)
    as (m & Hrun & Hin & Hout).
  { intros [year subj] m0 [Hy _]%elem_of_list_prod.
    rewrite elem_of_py_set in Hy.
    apply (ekj_cell_store df year_list Hcov Hpos); exact Hy. }
  { intros [y s] [y' s'] _ _ [= -> ->]. reflexivity. }
  exists m. split; [exact Hrun |]. intros subj year.
  destruct (decide (year ∈ year_list)) as [Hy | Hy].
  - destruct (ekj_value df year subj) as [v |] eqn:Hv.
    + apply (Hin (year, subj) v); [| exact Hv].
      apply elem_of_list_prod. split; [apply elem_of_py_set, Hy |].
      unfold ekj_value in Hv.
      destruct (DNIC.targets df subj year) as [| r tg] eqn:Hr; [discriminate |].
      assert (Hrin : r ∈ DNIC.targets df subj year) by (rewrite Hr; left).
      apply list_elem_of_filter in Hrin as [[_ Hs] Hrdf].
      apply elem_of_all_subjects. exists (row_subjs r).
      split; [apply (elem_of_DataFrame _ _ _ _ Hrdf) | exact Hs].
    + rewrite Hout; [apply lookup_empty |].
      intros [y s] _ [= -> ->]. exact Hv.
  - rewrite Hout; [apply lookup_empty |].
    intros [y s] [Hy' _]%elem_of_list_prod [= -> ->].
    rewrite elem_of_py_set in Hy'. contradiction.
Qed.

(** No table built by [get_ekj] holds a zero baseline. *)
Lemma get_ekj_nonzero (c_list : list (list Z)) (subjs_list : list (list string))
    (year_list : list Z) (ekj_dic : gmap key Q) (k : key) (q : Q) :
  covers (DataFrame c_list subjs_list year_list) year_list ->
  nonnegative (DataFrame c_list subjs_list year_list) ->
  DNIC.get_ekj c_list subjs_list year_list = Ok ekj_dic ->
  ekj_dic !! k = Some q -> ~ (q == 0)%Q.
Proof.
  intros Hcov Hpos Hrun Hk.
  destruct (get_ekj_table _ _ _ Hcov Hpos) as (m & Hrun' & Htable).
  rewrite Hrun in Hrun'. injection Hrun' as <-.
  destruct k as [subj year]. rewrite Htable in Hk.
  destruct (decide (year ∈ year_list)); [| discriminate].
  unfold ekj_value in Hk.
  destruct (DNIC.targets _ subj year) as [| r0 tg]; [discriminate |].
  destruct (qualifying _ subj year) as [| r ql] eqn:Hq.
  - injection Hk as <-. discriminate.
  - injection Hk as <-. rewrite <- Hq. intros H0.
    assert (Hgt : (0 < mean_citation year
                         (qualifying (DataFrame c_list subjs_list year_list)
                            subj year))%Q).
    { apply mean_citation_pos; [rewrite Hq; discriminate |].
      intros r' [(_ & _ & H1) _]%list_elem_of_filter. exact H1. }
    rewrite H0 in Hgt. discriminate Hgt.
Qed.

(** C2, as the code has it: on a corpus of parallel lists whose histories
    are non-negative and reach every corpus year, [get_ekj] returns a
    table in which a cell [(subj, year)]
    - has no entry when [year] is not a corpus year or no paper tagged
      [subj] was published on or before [year];
    - holds [-1] exactly when [year] is a corpus year, such papers exist,
      and none of them is cited in [year];
    - holds otherwise the mean citation of the qualifying papers in
      [year], which is strictly positive. *)
Theorem get_ekj_cells (c_list : list (list Z)) (subjs_list : list (list string))
    (year_list : list Z) :
  length c_list = length subjs_list ->
  length subjs_list = length year_list ->
  covers (DataFrame c_list subjs_list year_list) year_list ->
  nonnegative (DataFrame c_list subjs_list year_list) ->
  exists ekj_dic,
    DNIC.get_ekj c_list subjs_list year_list = Ok ekj_dic
    /\ forall subj year,
         (year ∉ year_list
          \/ DNIC.targets (DataFrame c_list subjs_list year_list) subj year = []
          -> ekj_dic !! (subj, year) = None)
         /\ (ekj_dic !! (subj, year) = Some (-1)%Q
             <-> year ∈ year_list
                 /\ DNIC.targets (DataFrame c_list subjs_list year_list)
                      subj year <> []
                 /\ qualifying (DataFrame c_list subjs_list year_list)
                      subj year = [])
         /\ (year ∈ year_list ->
             qualifying (DataFrame c_list subjs_list year_list) subj year <> [] ->
             ekj_dic !! (subj, year)
             = Some (mean_citation year
                       (qualifying (DataFrame c_list subjs_list year_list)
                          subj year))
             /\ (0 < mean_citation year
                       (qualifying (DataFrame c_list subjs_list year_list)
                          subj year))%Q).
Proof.
  intros _ _ Hcov Hpos.
  destruct (get_ekj_table _ _ _ Hcov Hpos) as (m & Hrun & Htable).
  set (df := DataFrame c_list subjs_list year_list) in *.
  exists m. split; [exact Hrun |]. intros subj year.
  rewrite Htable. unfold ekj_value.
  assert (Hql : DNIC.targets df subj year = [] -> qualifying df subj year = []).
  { intros Htg. rewrite (qualifying_targets df), Htg. reflexivity. }
  assert (Hmean : qualifying df subj year <> [] ->
                  (0 < mean_citation year (qualifying df subj year))%Q).
  { intros Hq. apply mean_citation_pos; [exact Hq |].
    intros r [(_ & _ & H1) _]%list_elem_of_filter. exact H1. }
  destruct (decide (year ∈ year_list)) as [Hy | Hy].
  - destruct (DNIC.targets df subj year) as [| r tg] eqn:Htg.
    + rewrite Hql by reflexivity. split; [reflexivity |]. split.
      * split; [discriminate | intros (_ & H & _); congruence].
      * intros _ H. congruence.
    + destruct (qualifying df subj year) as [| q ql] eqn:Hq.
      * split; [intros [? | ?]; [contradiction | discriminate] |]. split.
        -- split; [intros _ | reflexivity].
           split; [exact Hy |]. split; [discriminate | reflexivity].
        -- intros _ H. congruence.
      * specialize (Hmean ltac:(discriminate)).
        split; [intros [? | ?]; [contradiction | discriminate] |]. split.
        -- split; [| intros (_ & _ & H); discriminate].
           intros Hm. exfalso.
           replace (mean_citation year (q :: ql)) with (-1)%Q in Hmean
             by congruence.
           vm_compute in Hmean. discriminate Hmean.
        -- intros _ _. split; [reflexivity | exact Hmean].
  - split; [reflexivity |]. split.
    + split; [discriminate | intros (H & _); contradiction].
    + intros H. contradiction.
Qed.

(** * Quartile.get_c_dic *)

(** The [c50] values of the papers published in [year] and tagged with
    [subj], in corpus order. *)
Definition group (df : list (row Z)) (subj : string) (year : Z) : list Z :=
  map row_data (Quartile.targets df subj year).

(** [floor(count * rate)] as a position in a list. *)
Definition order_index (count : nat) (rate : Q) : nat :=
  Z.to_nat (Qfloor (inject_Z (Z.of_nat count) * rate)).

Lemma order_index_bounds (count : nat) (rate : Q) :
  (0 < count)%nat -> (0 <= rate)%Q -> (rate < 1)%Q ->
  py_int (inject_Z (Z.of_nat count) * rate)
  = Z.of_nat (order_index count rate)
  /\ (order_index count rate < count)%nat.
Proof.
  intros Hn H0 H1. unfold py_int, order_index.
  set (q := (inject_Z (Z.of_nat count) * rate)%Q).
  assert (Hq0 : (0 <= q)%Q).
  { unfold q. apply Qmult_le_0_compat; [| exact H0].
    change 0%Q with (inject_Z 0). rewrite <- Zle_Qle. lia. }
  assert (Hq1 : (q < inject_Z (Z.of_nat count))%Q).
  { unfold q. rewrite <- (Qmult_1_r (inject_Z (Z.of_nat count))) at 2.
    apply Qmult_lt_l; [| exact H1].
    change 0%Q with (inject_Z 0). rewrite <- Zlt_Qlt. lia. }
  assert (Hf0 : 0 <= Qfloor q).
  { change 0 with (Qfloor 0). apply Qfloor_resp_le, Hq0. }
  assert (Hf1 : Qfloor q < Z.of_nat count).
  { rewrite Zlt_Qlt. eapply Qle_lt_trans; [apply Qfloor_le | exact Hq1]. }
  replace (Qle_bool 0 q) with true by (symmetry; apply Qle_bool_iff, Hq0).
  split; lia.
Qed.

(** What the loops of [get_c_dic] store for one cell, if anything. *)
Definition c_dic_value (df : list (row Z)) (rate : Q) (year : Z) (subj : string)
  : option Z :=
  match Quartile.targets df subj year with
  | [] => None
  | tg => Quartile.sort_values tg !! order_index (length tg) rate
  end.

(** With an exact rate the position is the truncated exact product. *)
Lemma c_dic_cell_exact (df : list (row Z)) (rate : Q) (year : Z)
    (subj : string) (c_dic : gmap key Z) :
  Quartile.c_dic_cell df rate year subj c_dic
  = let tg := Quartile.targets df subj year in
    if (length tg =? 0)%nat then Ok c_dic
    else
      rbind (py_getitem (Quartile.sort_values tg)
               (py_int (inject_Z (Z.of_nat (length tg)) * rate)))
            (fun v => Ok (<[(subj, year) := v]> c_dic)).
Proof. reflexivity. Qed.

Lemma length_sort_values (tg : list (row Z)) :
  length (Quartile.sort_values tg) = length tg.
Proof.
  unfold Quartile.sort_values.
  rewrite (Permutation_length (merge_sort_Permutation Z.le (map row_data tg))).
  apply length_map.
Qed.

Lemma c_dic_cell_store (df : list (row Z)) (rate : Q) (year : Z) (subj : string)
    (m : gmap key Z) :
  (0 <= rate)%Q -> (rate < 1)%Q ->
  Quartile.c_dic_cell df rate year subj m
  = Ok (store (fun p => (snd p, fst p))
          (fun p => c_dic_value df rate (fst p) (snd p)) (year, subj) m).
Proof.
  intros H0 H1. rewrite c_dic_cell_exact.
  unfold store, c_dic_value. cbn [fst snd]. cbn zeta.
  destruct (Quartile.targets df subj year) as [| r tg]; [reflexivity |].
  cbn [length Nat.eqb].
  destruct (order_index_bounds (S (length tg)) rate) as [-> Hlt];
    [lia | exact H0 | exact H1 |].
  cbn [length] in *.
  destruct (lookup_lt_is_Some_2 (Quartile.sort_values (r :: tg))
              (order_index (S (length tg)) rate)) as [v Hv].
  { rewrite length_sort_values. exact Hlt. }
  rewrite (py_getitem_nat _ _ _ Hv), Hv. reflexivity.
Qed.

(** With an exact rational rate in [0, 1), the entry of [get_c_dic] for
    a (subject, year) group is the element at position
    [floor(groupSize * rate)] of the group's [c50] values sorted in
    ascending order; a pair without papers has no entry. *)
Theorem get_c_dic_order_statistic (c50_list : list Z)
    (subjs_list : list (list string)) (year_list : list Z) (rate : Q) :
  length c50_list = length subjs_list ->
  length subjs_list = length year_list ->
  (0 <= rate)%Q -> (rate < 1)%Q ->
  exists c_dic,
    Quartile.get_c_dic c50_list subjs_list year_list rate = Ok c_dic
    /\ forall subj year,
         (group (DataFrame c50_list subjs_list year_list) subj year = [] ->
          c_dic !! (subj, year) = None)
         /\ forall sorted,
              group (DataFrame c50_list subjs_list year_list) subj year <> [] ->
              Sorted Z.le sorted ->
              sorted ≡ₚ group (DataFrame c50_list subjs_list year_list) subj year ->
              is_Some (c_dic !! (subj, year))
              /\ c_dic !! (subj, year)
                 = sorted !! order_index (length sorted) rate.
Proof.
  intros _ _ H0 H1.
  set (df := DataFrame c50_list subjs_list year_list).
  unfold Quartile.get_c_dic. fold df. rewrite for_each_nested.
  set (cells := list_prod _ _).
  destruct (for_each_store (fun p => (snd p, fst p))
              (fun p => c_dic_value df rate (fst p) (snd p))
              (fun p => Quartile.c_dic_cell df rate (fst p) (snd p)) cells ∅)
    as (m & Hrun & Hin & Hout).
  { intros [year subj] m0 _. apply c_dic_cell_store; assumption. }
  { intros [y s] [y' s'] _ _ [= -> ->]. reflexivity. }
  exists m. split; [exact Hrun |]. intros subj year. split.
  - intros Hg. rewrite Hout; [apply lookup_empty |].
    intros [y s] _ [= -> ->]. cbn [fst snd]. unfold c_dic_value.
    unfold group in Hg. apply fmap_nil_inv in Hg. rewrite Hg. reflexivity.
  - intros sorted Hg Hsorted Hperm.
    assert (Hsame : sorted = Quartile.sort_values (Quartile.targets df subj year)).
    { apply (Sorted_unique Z.le); [exact Hsorted | apply Sorted_merge_sort; apply _ |].
      rewrite Hperm. symmetry. apply merge_sort_Permutation. }
    destruct (Quartile.targets df subj year) as [| r tg] eqn:Htg;
      [unfold group in Hg; rewrite Htg in Hg; cbn in Hg; congruence |].
    assert (Hval : c_dic_value df rate year subj
                   = sorted !! order_index (length sorted) rate).
    { unfold c_dic_value. rewrite Htg, Hsame, length_sort_values. reflexivity. }
    assert (Hsome : is_Some (sorted !! order_index (length sorted) rate)).
    { apply lookup_lt_is_Some_2.
      apply order_index_bounds; [| exact H0 | exact H1].
      rewrite Hsame, length_sort_values. cbn. lia. }
    destruct Hsome as [v Hv]. rewrite Hv in Hval |- *.
    assert (Hm : m !! (subj, year) = Some v).
    { apply (Hin (year, subj) v); [| exact Hval].
      assert (Hr : r ∈ Quartile.targets df subj year) by (rewrite Htg; left).
      apply list_elem_of_filter in Hr as [[Hy Hs] Hr].
      apply elem_of_list_prod. split.
      - apply elem_of_py_set. rewrite <- Hy.
        apply list_elem_of_fmap. eauto.
      - apply elem_of_all_subjects. exists (row_subjs r). split; [| exact Hs].
        apply list_elem_of_fmap. eauto. }
    rewrite Hm. eauto.
Qed.

(** ** A two-paper corpus

    Paper 0: published in 2000, subject x, cited 0, 1, 2 times.
    Paper 1: published in 2001, subjects y and x, cited 3, 0 times. *)
Definition two_papers_c : list (list Z) := [[0; 1; 2]; [3; 0]].
Definition two_papers_subjs : list (list string) :=
  [["x"%string]; ["y"%string; "x"%string]].
Definition two_papers_year : list Z := [2000; 2001].

Lemma two_papers_covers :
  covers (DataFrame two_papers_c two_papers_subjs two_papers_year)
    two_papers_year.
Proof.
  intros r y Hr Hy Hle. cbn in Hr.
  rewrite !elem_of_cons, elem_of_nil in Hr.
  unfold two_papers_year in Hy. rewrite !elem_of_cons, elem_of_nil in Hy.
  destruct Hr as [-> | [-> | []]]; destruct Hy as [-> | [-> | []]];
    cbn in *; lia.
Qed.

Lemma two_papers_nonnegative :
  nonnegative (DataFrame two_papers_c two_papers_subjs two_papers_year).
Proof.
  intros r Hr. cbn in Hr. rewrite !elem_of_cons, elem_of_nil in Hr.
  destruct Hr as [-> | [-> | []]]; cbn; repeat constructor; lia.
Qed.

Lemma get_ekj_cells_witness :
  covers (DataFrame two_papers_c two_papers_subjs two_papers_year)
    two_papers_year
  /\ nonnegative (DataFrame two_papers_c two_papers_subjs two_papers_year)
  /\ exists ekj_dic,
       DNIC.get_ekj two_papers_c two_papers_subjs two_papers_year = Ok ekj_dic
       /\ ekj_dic !! ("x"%string, 2000) = Some (-1)%Q
       /\ ekj_dic !! ("x"%string, 2001) = Some (4 # 2)%Q.
Proof.
  split; [exact two_papers_covers |].
  split; [exact two_papers_nonnegative |].
  destruct (get_ekj_cells two_papers_c two_papers_subjs two_papers_year
              eq_refl eq_refl two_papers_covers two_papers_nonnegative)
    as (ekj_dic & Hrun & Hcells).
  exists ekj_dic. split; [exact Hrun |]. split.
  - apply (proj1 (proj2 (Hcells "x"%string 2000))).
    split; [left |]. split; [discriminate | reflexivity].
  - apply (proj2 (proj2 (Hcells "x"%string 2001)));
      [right; left | discriminate].
Defined.

(** C2 fails as stated: year 2000 and subject y both occur in the
    two-paper corpus, whose histories reach every corpus year; the cell
    (y, 2000) has no qualifying paper, and [get_ekj] gives it no entry
    rather than the sentinel [-1]. *)
Lemma get_ekj_leaves_cell_without_entry :
  covers (DataFrame two_papers_c two_papers_subjs two_papers_year)
    two_papers_year
  /\ 2000 ∈ two_papers_year
  /\ "y"%string ∈ all_subjects two_papers_subjs
  /\ qualifying (DataFrame two_papers_c two_papers_subjs two_papers_year)
       "y" 2000 = []
  /\ rbind (DNIC.get_ekj two_papers_c two_papers_subjs two_papers_year)
       (fun ekj_dic => Ok (ekj_dic !! ("y"%string, 2000)))
     = Ok None.
Proof.
  split; [exact two_papers_covers |].
  split; [left |].
  split; [apply elem_of_all_subjects; exists ["y"%string; "x"%string];
          split; [right; left | left] |].
  split; reflexivity.
Qed.

(** ** A group of five papers *)

Definition five_papers_c50 : list Z := [7; 3; 9; 1; 5].
Definition five_papers_subjs : list (list string) :=
  [["x"%string]; ["x"%string]; ["x"%string]; ["x"%string]; ["x"%string]].
Definition five_papers_year : list Z := [2000; 2000; 2000; 2000; 2000].

(** With the exact rate 1/2 the entry of a group of five is the value at
    sorted position 2, here 5 out of 1, 3, 5, 7, 9. *)
Lemma get_c_dic_order_statistic_witness :
  (0 <= 1 # 2)%Q /\ (1 # 2 < 1)%Q
  /\ exists c_dic,
       Quartile.get_c_dic five_papers_c50 five_papers_subjs five_papers_year
         (1 # 2) = Ok c_dic
       /\ c_dic !! ("x"%string, 2000) = [1; 3; 5; 7; 9] !! 2%nat.
Proof.
  split; [discriminate |]. split; [reflexivity |].
  destruct (get_c_dic_order_statistic five_papers_c50 five_papers_subjs
              five_papers_year (1 # 2) eq_refl eq_refl)
    as (c_dic & Hrun & Hcells); [discriminate | reflexivity |].
  exists c_dic. split; [exact Hrun |].
  apply (proj2 (Hcells "x"%string 2000) [1; 3; 5; 7; 9]).
  - discriminate.
  - change [1; 3; 5; 7; 9] with (merge_sort Z.le five_papers_c50).
    apply Sorted_merge_sort. apply _.
  - change [1; 3; 5; 7; 9] with (merge_sort Z.le five_papers_c50).
    apply merge_sort_Permutation.
Defined.

(** * Quartile.get_c_dic with a binary64 rate *)

(** The [c50] values of the papers published in [year] and tagged with
    [subj], read off the three parallel lists in corpus order. *)
Fixpoint group_c50 (c50_list : list Z) (subjs_list : list (list string))
    (year_list : list Z) (subj : string) (year : Z) : list Z :=
  match c50_list, subjs_list, year_list with
  | v :: c50_list', subjs :: subjs_list', y :: year_list' =>
      if decide (y = year /\ subj ∈ subjs)
      then v :: group_c50 c50_list' subjs_list' year_list' subj year
      else group_c50 c50_list' subjs_list' year_list' subj year
  | _, _, _ => []
  end.

(** ** Rounding to nearest in binary64 *)

Module Binary64.
Import SpecFloat.

Lemma digits2_pos_bounds (p : positive) :
  2 ^ (Z.pos (digits2_pos p) - 1) <= Z.pos p < 2 ^ Z.pos (digits2_pos p).
Proof.
  induction p as [p IH | p IH |]; cbn [digits2_pos];
    rewrite ?Pos2Z.inj_succ.
  - replace (Z.succ (Z.pos (digits2_pos p)) - 1)
      with (Z.succ (Z.pos (digits2_pos p) - 1)) by lia.
    rewrite !Z.pow_succ_r by lia. lia.
  - replace (Z.succ (Z.pos (digits2_pos p)) - 1)
      with (Z.succ (Z.pos (digits2_pos p) - 1)) by lia.
    rewrite !Z.pow_succ_r by lia. lia.
  - cbn. lia.
Qed.

Lemma iter_pos_nat {A : Type} (f : A -> A) (p : positive) (x : A) :
  iter_pos f p x = Nat.iter (Pos.to_nat p) f x.
Proof.
  revert x. induction p as [p IH | p IH |]; intros x; cbn [iter_pos].
  - rewrite !IH, Pos2Nat.inj_xI.
    replace (S (2 * Pos.to_nat p))%nat
      with (Pos.to_nat p + (Pos.to_nat p + 1))%nat by lia.
    rewrite !Nat.iter_add. reflexivity.
  - rewrite !IH, Pos2Nat.inj_xO.
    replace (2 * Pos.to_nat p)%nat
      with (Pos.to_nat p + Pos.to_nat p)%nat by lia.
    rewrite Nat.iter_add. reflexivity.
  - reflexivity.
Qed.

(** What is left of [m] after [S j] one-bit right shifts: the quotient,
    the last bit shifted out and the bits below it. *)
Lemma shr_1_iter (m : Z) (j : nat) :
  0 <= m ->
  let mrs := Nat.iter (S j) shr_1 (Build_shr_record m false false) in
  exists rest,
    m = shr_m mrs * 2 ^ Z.of_nat (S j)
        + (if shr_r mrs then 2 ^ Z.of_nat j else 0) + rest
    /\ 0 <= rest < 2 ^ Z.of_nat j
    /\ 0 <= shr_m mrs.
Proof.
  intros Hm. induction j as [| j IH].
  - cbn [Nat.iter]. exists 0.
    destruct m as [| [p | p |] |]; cbn; lia.
  - cbn zeta in *. destruct IH as (rest & Heq & Hrest & Hpos).
    rewrite Nat.iter_succ.
    destruct (Nat.iter (S j) shr_1 (Build_shr_record m false false))
      as [m' r s]. cbn [shr_m shr_r] in *.
    exists ((if r then 2 ^ Z.of_nat j else 0) + rest).
    assert (Hpow : 2 ^ Z.of_nat (S j) = 2 * 2 ^ Z.of_nat j)
      by (rewrite Nat2Z.inj_succ, Z.pow_succ_r; lia).
    assert (Hpow' : 2 ^ Z.of_nat (S (S j)) = 2 * 2 ^ Z.of_nat (S j))
      by (rewrite (Nat2Z.inj_succ (S j)), Z.pow_succ_r; lia).
    assert (0 < 2 ^ Z.of_nat j) by (apply Z.pow_pos_nonneg; lia).
    destruct m' as [| [p | p |] |]; cbn [shr_1 shr_m shr_r];
      destruct r; lia.
Qed.

(** Shifting [m] right by [k] bits and rounding to nearest even moves the
    value up by at most half a unit of the new last place. *)
Lemma shr_round_bounds (m e k : Z) :
  0 <= m ->
  exists mrs,
    shr (Build_shr_record m false false) e k = (mrs, e + Z.max 0 k)
    /\ 0 <= shr_m mrs
    /\ shr_m mrs * 2 ^ Z.max 0 k <= m
    /\ shr_m mrs <= round_nearest_even (shr_m mrs) (loc_of_shr_record mrs)
    /\ 2 * round_nearest_even (shr_m mrs) (loc_of_shr_record mrs)
         * 2 ^ Z.max 0 k
       <= 2 * m + 2 ^ Z.max 0 k
    /\ round_nearest_even (shr_m mrs) (loc_of_shr_record mrs) <= m + 1
    /\ (k <= 0 ->
        round_nearest_even (shr_m mrs) (loc_of_shr_record mrs) = m).
Proof.
  intros Hm. destruct k as [| p | p].
  - exists (Build_shr_record m false false).
    cbn [shr shr_m loc_of_shr_record round_nearest_even].
    change (Z.max 0 _) with 0. rewrite Z.add_0_r, Z.pow_0_r.
    split; [reflexivity | lia].
  - cbn [shr]. rewrite iter_pos_nat.
    destruct (Pos2Nat.is_succ p) as [j Hj]. rewrite Hj.
    destruct (shr_1_iter m j Hm) as (rest & Heq & Hrest & Hpos).
    cbn zeta in Heq, Hrest, Hpos.
    exists (Nat.iter (S j) shr_1 (Build_shr_record m false false)).
    destruct (Nat.iter (S j) shr_1 (Build_shr_record m false false))
      as [m' r s]. cbn [shr_m shr_r] in *.
    replace (Z.max 0 (Z.pos p)) with (Z.of_nat (S j)) by lia.
    assert (Hpow : 2 ^ Z.of_nat (S j) = 2 * 2 ^ Z.of_nat j)
      by (rewrite Nat2Z.inj_succ, Z.pow_succ_r; lia).
    assert (0 < 2 ^ Z.of_nat j) by (apply Z.pow_pos_nonneg; lia).
    split; [f_equal; lia |].
    assert (Hle : m' * 2 ^ Z.of_nat (S j) <= m) by (destruct r; lia).
    assert (Hm' : m' <= m) by nia.
    destruct r, s; cbn [loc_of_shr_record round_nearest_even];
      try destruct (Z.even m'); repeat split; try lia; nia.
  - exists (Build_shr_record m false false).
    cbn [shr shr_m loc_of_shr_record round_nearest_even].
    change (Z.max 0 _) with 0. rewrite Z.add_0_r, Z.pow_0_r.
    split; [reflexivity | lia].
Qed.

Lemma Zdigits2_le (x : Z) (j : Z) :
  0 <= j -> 0 <= x <= 2 ^ j -> Zdigits2 x <= j + 1.
Proof.
  intros Hj Hx. destruct x as [| p | p]; cbn [Zdigits2]; [lia | | lia].
  pose proof (digits2_pos_bounds p) as [Hlow _].
  destruct (Z_le_gt_dec (Z.pos (digits2_pos p)) (j + 1)) as [| Hgt];
    [assumption |].
  assert (2 ^ (j + 1) <= 2 ^ (Z.pos (digits2_pos p) - 1))
    by (apply Z.pow_le_mono_r; lia).
  rewrite Z.pow_add_r in * by lia. lia.
Qed.

Lemma fexp_mono (a b : Z) :
  a <= b -> fexp FloatOps.prec FloatOps.emax a
            <= fexp FloatOps.prec FloatOps.emax b.
Proof. unfold fexp. lia. Qed.

(** The result of rounding the exact positive number [m * 2 ^ e] to
    binary64: its mantissa [m2] and exponent [e2]. *)
Lemma binary_round_aux_bounds (m e : Z) :
  0 < m ->
  let f := fexp FloatOps.prec FloatOps.emax (Zdigits2 m + e) in
  exists m2 e2,
    binary_round_aux FloatOps.prec FloatOps.emax false m e loc_Exact
    = match m2 with
      | Z0 => S754_zero false
      | Zpos p =>
          if e2 <=? FloatOps.emax - FloatOps.prec
          then S754_finite false p e2 else S754_infinity false
      | Zneg _ => S754_nan
      end
    /\ 0 <= m2
    /\ e <= e2
    /\ e2 <= Z.max (Z.max e f)
               (fexp FloatOps.prec FloatOps.emax
                  (Zdigits2 m + 1 + Z.max e f))
    /\ ((f <= e /\ m2 * 2 ^ (e2 - e) <= m)
        \/ (e < f /\ 2 * m2 * 2 ^ (e2 - e) <= 2 * m + 2 ^ (f - e))).
Proof.
  intros Hm f. unfold binary_round_aux, shr_fexp.
  cbn [shr_record_of_loc]. fold f.
  destruct (shr_round_bounds m e (f - e)) as (mrs1 & -> & H1 & H2 & H3 & H4 & H5 & H6);
    [lia |].
  set (m1 := round_nearest_even (shr_m mrs1) (loc_of_shr_record mrs1)) in *.
  set (e1 := e + Z.max 0 (f - e)).
  set (k2 := fexp FloatOps.prec FloatOps.emax (Zdigits2 m1 + e1) - e1).
  destruct (shr_round_bounds m1 e1 k2) as (mrs2 & -> & G1 & G2 & _);
    [lia |].
  exists (shr_m mrs2), (e1 + Z.max 0 k2).
  split; [reflexivity |]. split; [exact G1 |].
  assert (He1 : e1 = Z.max e f) by (unfold e1; lia).
  split; [lia |].
  assert (Hd : Zdigits2 m1 <= Zdigits2 m + 1).
  { apply Zdigits2_le.
    - destruct m; cbn; lia.
    - split; [lia |]. destruct m as [| p | p]; try lia.
      pose proof (digits2_pos_bounds p). cbn [Zdigits2]. lia. }
  split.
  { rewrite <- He1.
    pose proof (fexp_mono (Zdigits2 m1 + e1) (Zdigits2 m + 1 + e1)).
    unfold k2. lia. }
  assert (Hsplit : 2 ^ (e1 + Z.max 0 k2 - e)
                   = 2 ^ Z.max 0 k2 * 2 ^ Z.max 0 (f - e)).
  { rewrite <- Z.pow_add_r by lia. f_equal. unfold e1. lia. }
  assert (0 < 2 ^ Z.max 0 k2) by (apply Z.pow_pos_nonneg; lia).
  assert (0 < 2 ^ Z.max 0 (f - e)) by (apply Z.pow_pos_nonneg; lia).
  rewrite Hsplit.
  destruct (Z_le_gt_dec f e) as [Hfe | Hfe].
  - left. split; [exact Hfe |]. rewrite H6 in * by lia.
    replace (Z.max 0 (f - e)) with 0 by lia. rewrite Z.pow_0_r. lia.
  - right. split; [lia |].
    replace (f - e) with (Z.max 0 (f - e)) at 2 by lia. nia.
Qed.

Lemma iter_xO (p d : positive) :
  Z.pos (Pos.iter xO p d) = Z.pos p * 2 ^ Z.pos d
  /\ Z.pos (digits2_pos (Pos.iter xO p d))
     = Z.pos (digits2_pos p) + Z.pos d.
Proof.
  induction d as [| d IH] using Pos.peano_ind.
  - cbn [Pos.iter digits2_pos]. rewrite Pos2Z.inj_succ. lia.
  - rewrite Pos.iter_succ. cbn [digits2_pos].
    rewrite !Pos2Z.inj_succ, Z.pow_succ_r by lia. lia.
Qed.

(** A count below [2 ^ 53] converts to binary64 without rounding. *)
Lemma float_of_nat_exact (n : nat) :
  0 < Z.of_nat n < 2 ^ 53 ->
  exists mx ex,
    FloatOps.Prim2SF (float_of_nat n) = S754_finite false mx ex
    /\ -52 <= ex <= 0
    /\ Z.pos mx = Z.of_nat n * 2 ^ (- ex).
Proof.
  intros Hn. unfold float_of_nat. rewrite FloatAxioms.of_uint63_spec.
  change (Uint63Axioms.to_Z ?x) with (Uint63.to_Z x).
  rewrite Uint63.of_Z_spec, Z.mod_small
    by (change Uint63.wB with (2 ^ 63); lia).
  destruct (Z.of_nat n) as [| p | p]; try lia.
  cbn [binary_normalize]. unfold binary_round.
  pose proof (digits2_pos_bounds p) as [Hlow Hhigh].
  assert (Hd : Z.pos (digits2_pos p) <= 53).
  { destruct (Z_le_gt_dec (Z.pos (digits2_pos p)) 53); [assumption |].
    assert (2 ^ 53 <= 2 ^ (Z.pos (digits2_pos p) - 1))
      by (apply Z.pow_le_mono_r; lia).
    lia. }
  assert (Hf : fexp FloatOps.prec FloatOps.emax (Z.pos (digits2_pos p) + 0)
               = Z.pos (digits2_pos p) - 53)
    by (unfold fexp, emin, FloatOps.prec, FloatOps.emax; lia).
  rewrite Hf. unfold shl_align.
  assert (Hexact : forall mz ez,
            Z.pos (digits2_pos mz) = 53 -> -52 <= ez <= 0 ->
            binary_round_aux FloatOps.prec FloatOps.emax false (Z.pos mz) ez
              loc_Exact
            = S754_finite false mz ez).
  { intros mz ez Hmz Hez. unfold binary_round_aux, shr_fexp.
    cbn [Zdigits2 shr_record_of_loc]. rewrite Hmz.
    replace (fexp FloatOps.prec FloatOps.emax (53 + ez) - ez) with 0
      by (unfold fexp, emin, FloatOps.prec, FloatOps.emax; lia).
    cbn [shr shr_m loc_of_shr_record round_nearest_even Zdigits2].
    rewrite Hmz.
    replace (fexp FloatOps.prec FloatOps.emax (53 + ez) - ez) with 0
      by (unfold fexp, emin, FloatOps.prec, FloatOps.emax; lia).
    cbn [shr shr_m].
    replace (ez <=? FloatOps.emax - FloatOps.prec) with true; [reflexivity |].
    symmetry. apply Z.leb_le. unfold FloatOps.prec, FloatOps.emax. lia. }
  destruct (Z.pos (digits2_pos p) - 53 - 0) as [| d | d] eqn:Hsub;
    try lia.
  - exists p, 0. rewrite Hexact by lia.
    split; [reflexivity |]. split; [lia |]. cbn. lia.
  - destruct (iter_xO p d) as [Hval Hdig].
    exists (Pos.iter xO p d), (Z.pos (digits2_pos p) - 53).
    rewrite Hexact by lia.
    split; [reflexivity |]. split; [lia |].
    rewrite Hval. f_equal. f_equal. lia.
Qed.

(** A valid binary64 mantissa has at most 53 bits, and its exponent is
    at least -1074. *)
Lemma valid_finite (x : PrimFloat.float) (s : bool) (m : positive) (e : Z) :
  FloatOps.Prim2SF x = S754_finite s m e ->
  Z.pos m < 2 ^ 53 /\ -1074 <= e.
Proof.
  intros Hx. pose proof (FloatAxioms.Prim2SF_valid x) as Hvalid.
  rewrite Hx in Hvalid. cbn [valid_binary] in Hvalid.
  unfold bounded, canonical_mantissa in Hvalid.
  apply andb_true_iff in Hvalid as [Hcanon _].
  apply Z.eqb_eq in Hcanon.
  unfold fexp, emin, FloatOps.prec, FloatOps.emax in Hcanon.
  pose proof (digits2_pos_bounds m) as [_ Hhigh].
  split; [| lia].
  assert (2 ^ Z.pos (digits2_pos m) <= 2 ^ 53)
    by (apply Z.pow_le_mono_r; lia).
  lia.
Qed.

(** The magnitude [m * 2 ^ e] of a finite binary64 value as a rational
    number, compared with an integer. *)
Lemma magnitude_lt (m : positive) (e : Z) (n : Z) :
  (match e with
   | Z.neg p => Z.pos m # Pos.pow 2 p
   | _ => inject_Z (Z.pos m * 2 ^ e)
   end < inject_Z n)%Q
  <-> (if e <? 0 then Z.pos m < n * 2 ^ (- e) else Z.pos m * 2 ^ e < n).
Proof.
  destruct e as [| p | p].
  - cbn [Z.ltb Z.compare]. rewrite <- Zlt_Qlt. reflexivity.
  - cbn [Z.ltb Z.compare]. rewrite <- Zlt_Qlt. reflexivity.
  - change (Z.neg p <? 0) with true. change (- Z.neg p) with (Z.pos p).
    unfold Qlt, inject_Z. cbn [Qnum Qden].
    rewrite Pos2Z.inj_pow, Z.mul_1_r. reflexivity.
Qed.

(** The binary64 product of a count [n] below [2 ^ 53] and a rate in
    [0, 1) is a finite number in [0, n): rounding to nearest never reaches
    [n], because the largest rate is [1 - 2 ^ -53]. *)
Lemma rounded_product_below (n : nat) (rate : PrimFloat.float) (r : Q) :
  0 < Z.of_nat n < 2 ^ 53 ->
  float_value rate = Some r ->
  (0 <= r)%Q -> (r < 1)%Q ->
  exists q,
    float_value (PrimFloat.mul (float_of_nat n) rate) = Some q
    /\ (0 <= q)%Q /\ (q < inject_Z (Z.of_nat n))%Q.
Proof.
  intros Hn Hrate Hr0 Hr1.
  destruct (float_of_nat_exact n Hn) as (mx & ex & Hx & Hex & Hmx).
  assert (Hprod : FloatOps.Prim2SF (PrimFloat.mul (float_of_nat n) rate)
                  = SFmul FloatOps.prec FloatOps.emax
                      (S754_finite false mx ex) (FloatOps.Prim2SF rate))
    by (rewrite FloatAxioms.mul_spec, Hx; reflexivity).
  unfold float_value in Hrate |- *. rewrite Hprod.
  destruct (FloatOps.Prim2SF rate) as [s | s | | s my ey] eqn:Hy;
    try discriminate.
  { exists 0%Q. cbn [SFmul]. split; [reflexivity |].
    split; [apply Qle_refl |]. change 0%Q with (inject_Z 0).
    rewrite <- Zlt_Qlt. lia. }
  destruct (valid_finite rate s my ey Hy) as [Hmy Hey].
  injection Hrate as <-.
  destruct s.
  { exfalso. apply (Qle_not_lt _ _ Hr0).
    destruct ey; unfold Qlt, inject_Z; cbn; lia. }
  change 1%Q with (inject_Z 1) in Hr1. apply magnitude_lt in Hr1.
  destruct (ey <? 0) eqn:Hneg; [apply Z.ltb_lt in Hneg | ].
  2:{ apply Z.ltb_ge in Hneg.
      assert (0 < 2 ^ ey) by (apply Z.pow_pos_nonneg; lia). nia. }
  rewrite Z.mul_1_l in Hr1.
  cbn [SFmul xorb].
  set (m := Z.pos (mx * my)). set (e := ex + ey).
  destruct (binary_round_aux_bounds m e) as (m2 & e2 & -> & Hm2 & He2 & Hup & Hval);
    [unfold m; lia |].
  set (d := Zdigits2 m) in *.
  set (f := fexp FloatOps.prec FloatOps.emax (d + e)) in *.
  pose proof (digits2_pos_bounds (mx * my)) as [Hdlow Hdhigh].
  change (Z.pos (digits2_pos (mx * my))) with d in Hdlow, Hdhigh.
  change (Z.pos (mx * my)) with m in Hdlow, Hdhigh.
  assert (Hm : m = Z.pos mx * Z.pos my) by reflexivity.
  assert (Hd1 : 1 <= d) by (unfold d, m; cbn; lia).
  (* the scale [2 ^ (- e)] and the count at that scale *)
  assert (Hscale : 2 ^ (- e) = 2 ^ (- ex) * 2 ^ (- ey))
    by (rewrite <- Z.pow_add_r by lia; f_equal; unfold e; lia).
  assert (Hpx : 0 < 2 ^ (- ex)) by (apply Z.pow_pos_nonneg; lia).
  assert (Hpy : 0 < 2 ^ (- ey)) by (apply Z.pow_pos_nonneg; lia).
  set (N := Z.of_nat n * 2 ^ (- e)).
  assert (HN : N = Z.pos mx * 2 ^ (- ey))
    by (unfold N; rewrite Hscale, Hmx; ring).
  (* the rate is at most [1 - 2 ^ -53] *)
  assert (Hrate53 : 2 ^ 53 * Z.pos my <= (2 ^ 53 - 1) * 2 ^ (- ey)).
  { destruct (Z_le_gt_dec 53 (- ey)).
    - assert (2 ^ 53 <= 2 ^ (- ey)) by (apply Z.pow_le_mono_r; lia). nia.
    - assert (2 ^ (- ey) <= 2 ^ 53) by (apply Z.pow_le_mono_r; lia). nia. }
  assert (HmN : 2 ^ 53 * m <= (2 ^ 53 - 1) * N).
  { rewrite Hm, HN.
    replace (2 ^ 53 * (Z.pos mx * Z.pos my))
      with (Z.pos mx * (2 ^ 53 * Z.pos my)) by ring.
    replace ((2 ^ 53 - 1) * (Z.pos mx * 2 ^ (- ey)))
      with (Z.pos mx * ((2 ^ 53 - 1) * 2 ^ (- ey))) by ring.
    apply Z.mul_le_mono_nonneg_l; lia. }
  assert (HNpos : 2 ^ (- e) <= N) by (unfold N; nia).
  assert (Hepos : 0 < 2 ^ (- e)) by (apply Z.pow_pos_nonneg; unfold e; lia).
  (* the rounded product stays below the count *)
  assert (Hbelow : m2 * 2 ^ (e2 - e) < N).
  { destruct Hval as [[_ Hle] | [Hfe Hle]]; [lia |].
    unfold f, fexp, emin, FloatOps.prec, FloatOps.emax in Hfe, Hle.
    fold f in Hfe.
    destruct (Z_le_gt_dec (3 - 1024 - 53) (d + e - 53)) as [Hnorm | Hsub].
    - rewrite Z.max_l in Hle by lia.
      replace (d + e - 53 - e) with (d - 53) in Hle by lia.
      assert (Hd53 : 53 < d)
        by (unfold f, fexp, emin, FloatOps.prec, FloatOps.emax in Hfe; lia).
      assert (Hhalf : 2 ^ 53 * 2 ^ (d - 53) = 2 * 2 ^ (d - 1)).
      { rewrite <- Z.pow_add_r by lia.
        replace (53 + (d - 53)) with (Z.succ (d - 1)) by lia.
        rewrite Z.pow_succ_r by lia. reflexivity. }
      lia.
    - rewrite Z.max_r in Hle by lia.
      assert (Hsmall : 2 ^ 53 * 2 ^ (3 - 1024 - 53 - e) <= 2 ^ (- e)).
      { rewrite <- Z.pow_add_r
          by (unfold f, fexp, emin, FloatOps.prec, FloatOps.emax in Hfe;
              lia).
        apply Z.pow_le_mono_r; lia. }
      lia. }
  (* no overflow *)
  assert (Hde : d + e < 54).
  { destruct (Z_le_gt_dec 54 (d + e)); [| lia].
    assert (Hmlt : m < 2 ^ 53 * 2 ^ (- e)) by (unfold N in HmN; nia).
    rewrite <- Z.pow_add_r in Hmlt by (unfold e; lia).
    assert (2 ^ (53 + - e) <= 2 ^ (d - 1))
      by (apply Z.pow_le_mono_r; lia).
    lia. }
  assert (Hd : d <= 200).
  { destruct (Z_le_gt_dec d 200); [assumption |].
    assert (Hmx53 : Z.pos mx < 2 ^ 53 * 2 ^ 52).
    { rewrite Hmx.
      assert (2 ^ (- ex) <= 2 ^ 52) by (apply Z.pow_le_mono_r; lia).
      nia. }
    assert (m < 2 ^ 53 * 2 ^ 52 * 2 ^ 53) by (rewrite Hm; nia).
    assert (2 ^ 200 <= 2 ^ (d - 1)) by (apply Z.pow_le_mono_r; lia).
    lia. }
  assert (Hleb : (e2 <=? FloatOps.emax - FloatOps.prec) = true).
  { apply Z.leb_le.
    unfold f, fexp, emin, FloatOps.prec, FloatOps.emax in Hup |- *.
    unfold e in *. lia. }
  destruct m2 as [| p2 | p2]; [| | lia].
  { exists 0%Q. split; [reflexivity |]. split; [apply Qle_refl |].
    change 0%Q with (inject_Z 0). rewrite <- Zlt_Qlt. lia. }
  rewrite Hleb. eexists. split; [reflexivity |]. split.
  { destruct e2; unfold Qle, inject_Z; cbn; lia. }
  apply magnitude_lt.
  destruct (e2 <? 0) eqn:Hneg2;
    [apply Z.ltb_lt in Hneg2 | apply Z.ltb_ge in Hneg2].
  - assert (Hs2 : 2 ^ (- e) = 2 ^ (e2 - e) * 2 ^ (- e2))
      by (rewrite <- Z.pow_add_r by lia; f_equal; lia).
    assert (0 < 2 ^ (e2 - e)) by (apply Z.pow_pos_nonneg; lia).
    unfold N in Hbelow. rewrite Hs2 in Hbelow. nia.
  - assert (Hs2 : 2 ^ (e2 - e) = 2 ^ e2 * 2 ^ (- e))
      by (rewrite <- Z.pow_add_r by (unfold e; lia); f_equal; lia).
    unfold N in Hbelow. rewrite Hs2 in Hbelow. nia.
Qed.

End Binary64.

Lemma py_int_float_floor (x : PrimFloat.float) (q : Q) :
  float_value x = Some q -> (0 <= q)%Q -> py_int_float x = Ok (Qfloor q).
Proof.
  unfold float_value, py_int_float.
  destruct (FloatOps.Prim2SF x) as [s | s | | s m e]; try discriminate.
  - intros [= <-] _. reflexivity.
  - cbn zeta. destruct s.
    + intros [= <-] Hq. exfalso. revert Hq. apply Qlt_not_le.
      destruct e; unfold Qlt; cbn; lia.
    + intros [= <-] _. f_equal. destruct e as [| p | p].
      * cbn [Z.leb Z.compare]. rewrite Qfloor_Z. reflexivity.
      * replace (0 <=? Z.pos p) with true by reflexivity.
        rewrite Qfloor_Z. reflexivity.
      * replace (0 <=? Z.neg p) with false by reflexivity.
        cbn [Qfloor Z.opp]. rewrite Pos2Z.inj_pow. reflexivity.
Qed.


Lemma int_of_product_floor (n : nat) (rate : PrimFloat.float) (q : Q) :
  rounded_product n rate = Some q -> (0 <= q)%Q ->
  (q < inject_Z (Z.of_nat n))%Q ->
  int_of_product n rate = Ok (Qfloor q)
  /\ (Z.to_nat (Qfloor q) < n)%nat /\ 0 <= Qfloor q.
Proof.
  intros Hq H0 Hlt. unfold int_of_product, Rate_float.
  rewrite (py_int_float_floor _ q Hq H0). split; [reflexivity |].
  assert (0 <= Qfloor q).
  { rewrite <- (Qfloor_Z 0). apply Qfloor_resp_le. exact H0. }
  assert (Qfloor q < Z.of_nat n).
  { rewrite Zlt_Qlt. eapply Qle_lt_trans; [apply Qfloor_le | exact Hlt]. }
  lia.
Qed.

Lemma group_c50_targets (c50_list : list Z) (subjs_list : list (list string))
    (year_list : list Z) (subj : string) (year : Z) :
  group_c50 c50_list subjs_list year_list subj year
  = map row_data
      (Quartile.targets (DataFrame c50_list subjs_list year_list) subj year).
Proof.
  revert subjs_list year_list.
  induction c50_list as [| v cs IH]; intros [| s ss] [| y ys];
    try reflexivity.
  cbn [group_c50 DataFrame]. unfold Quartile.targets.
  rewrite filter_cons. cbn [row_year row_subjs].
  destruct (decide (y = year /\ subj ∈ s)); cbn [map row_data];
    rewrite IH; reflexivity.
Qed.


Lemma length_group_c50 (c50_list : list Z) (subjs_list : list (list string))
    (year_list : list Z) (subj : string) (year : Z) :
  (length (group_c50 c50_list subjs_list year_list subj year)
   <= length c50_list)%nat.
Proof.
  revert subjs_list year_list.
  induction c50_list as [| v cs IH]; intros [| s ss] [| y ys];
    cbn [group_c50 length]; try lia.
  specialize (IH ss ys).
  destruct (decide (y = year /\ subj ∈ s)); cbn [length]; lia.
Qed.

(** What the loops of [get_c_dic] store for one cell under a binary64
    rate, if anything. *)
Definition c_dic_value_binary64 (df : list (row Z)) (rate : PrimFloat.float)
    (year : Z) (subj : string) : option Z :=
  match Quartile.targets df subj year with
  | [] => None
  | tg =>
      match int_of_product (length tg) rate with
      | Ok i => Quartile.sort_values tg !! Z.to_nat i
      | Raise _ => None
      end
  end.

Lemma c_dic_cell_store_binary64 (df : list (row Z)) (rate : PrimFloat.float)
    (year : Z) (subj : string) (m : gmap key Z) :
  (Quartile.targets df subj year <> [] ->
   exists q,
     rounded_product (length (Quartile.targets df subj year)) rate = Some q
     /\ (0 <= q)%Q
     /\ (q < inject_Z (Z.of_nat (length (Quartile.targets df subj year))))%Q) ->
  Quartile.c_dic_cell df rate year subj m
  = Ok (store (fun p => (snd p, fst p))
          (fun p => c_dic_value_binary64 df rate (fst p) (snd p))
          (year, subj) m).
Proof.
  intros Hpos. unfold Quartile.c_dic_cell, store, c_dic_value_binary64.
  cbn [fst snd]. cbn zeta.
  destruct (Quartile.targets df subj year) as [| r tg]; [reflexivity |].
  destruct Hpos as (q & Hq & H0 & Hlt); [discriminate |].
  destruct (int_of_product_floor _ _ _ Hq H0 Hlt) as (Hp & Hin & Hnn).
  cbn [length Nat.eqb] in *. rewrite Hp. cbn [rbind].
  destruct (lookup_lt_is_Some_2 (Quartile.sort_values (r :: tg))
              (Z.to_nat (Qfloor q))) as [v Hv].
  { rewrite length_sort_values. exact Hin. }
  rewrite <- (Z2Nat.id (Qfloor q)) at 1 by exact Hnn.
  rewrite (py_getitem_nat _ _ _ Hv), Hv. reflexivity.
Qed.

(** C7, as the code computes it: for a corpus of fewer than 2^53 papers
    and a binary64 rate with [0 <= rate < 1], [get_c_dic] returns a table
    whose entry for a (subject, year) group is the element of the group's
    ascending-sorted [c50] values at index [floor(q)], where [q] is the
    product [groupSize * rate] rounded to binary64, a number in
    [0, groupSize); a pair without papers has no entry. *)
Theorem get_c_dic_rounded_position (c50_list : list Z)
    (subjs_list : list (list string)) (year_list : list Z)
    (rate : PrimFloat.float) (r : Q) :
  length c50_list = length subjs_list ->
  length subjs_list = length year_list ->
  Z.of_nat (length c50_list) < 2 ^ 53 ->
  float_value rate = Some r ->
  (0 <= r)%Q -> (r < 1)%Q ->
  exists c_dic,
    Quartile.get_c_dic c50_list subjs_list year_list rate = Ok c_dic
    /\ forall subj year,
         (group_c50 c50_list subjs_list year_list subj year = [] ->
          c_dic !! (subj, year) = None)
         /\ forall sorted,
              group_c50 c50_list subjs_list year_list subj year <> [] ->
              Sorted Z.le sorted ->
              sorted ≡ₚ group_c50 c50_list subjs_list year_list subj year ->
              exists q,
                rounded_product (length sorted) rate = Some q
                /\ (0 <= q)%Q
                /\ (q < inject_Z (Z.of_nat (length sorted)))%Q
                /\ is_Some (c_dic !! (subj, year))
                /\ c_dic !! (subj, year) = sorted !! Z.to_nat (Qfloor q).
Proof.
  intros _ _ Hsize Hrate Hr0 Hr1.
  set (df := DataFrame c50_list subjs_list year_list).
  assert (Hgroup : forall subj year,
            group_c50 c50_list subjs_list year_list subj year
            = map row_data (Quartile.targets df subj year))
    by (intros; apply group_c50_targets).
  assert (Hproduct : forall subj year,
            Quartile.targets df subj year <> [] ->
            exists q,
              rounded_product (length (Quartile.targets df subj year)) rate
              = Some q
              /\ (0 <= q)%Q
              /\ (q < inject_Z
                        (Z.of_nat (length (Quartile.targets df subj year))))%Q).
  { intros subj year Hne.
    pose proof (length_group_c50 c50_list subjs_list year_list subj year)
      as Hlen.
    rewrite Hgroup, length_map in Hlen.
    apply (Binary64.rounded_product_below _ rate r); try assumption.
    destruct (Quartile.targets df subj year); [congruence |].
    cbn [length] in *. lia. }
  unfold Quartile.get_c_dic. fold df. rewrite for_each_nested.
  set (cells := list_prod _ _).
  destruct (for_each_store (fun p => (snd p, fst p))
              (fun p => c_dic_value_binary64 df rate (fst p) (snd p))
              (fun p => Quartile.c_dic_cell df rate (fst p) (snd p)) cells ∅)
    as (m & Hrun & Hin & Hout).
  { intros [year subj] m0 _. apply c_dic_cell_store_binary64.
    apply Hproduct. }
  { intros [y s] [y' s'] _ _ [= -> ->]. reflexivity. }
  exists m. split; [exact Hrun |]. intros subj year. rewrite Hgroup. split.
  - intros Hg. rewrite Hout; [apply lookup_empty |].
    intros [y s] _ [= -> ->]. cbn [fst snd]. unfold c_dic_value_binary64.
    apply fmap_nil_inv in Hg. rewrite Hg. reflexivity.
  - intros sorted Hg Hsorted Hperm.
    assert (Hsame : sorted
                    = Quartile.sort_values (Quartile.targets df subj year)).
    { apply (Sorted_unique Z.le);
        [exact Hsorted | apply Sorted_merge_sort; apply _ |].
      rewrite Hperm. symmetry. apply merge_sort_Permutation. }
    assert (Hlen : length sorted
                   = length (Quartile.targets df subj year))
      by (rewrite Hsame; apply length_sort_values).
    destruct (Hproduct subj year) as (q & Hq & H0 & Hlt).
    { intros H. rewrite H in Hg. apply Hg. reflexivity. }
    rewrite <- Hlen in Hq, Hlt.
    exists q. split; [exact Hq |]. split; [exact H0 |].
    split; [exact Hlt |].
    destruct (int_of_product_floor _ _ _ Hq H0 Hlt) as (Hp & Hpin & Hnn).
    destruct (Quartile.targets df subj year) as [| row tg] eqn:Htg;
      [cbn in Hg; congruence |].
    assert (Hval : c_dic_value_binary64 df rate year subj
                   = sorted !! Z.to_nat (Qfloor q)).
    { unfold c_dic_value_binary64. rewrite Htg, <- Hlen, Hp, Hsame.
      reflexivity. }
    destruct (lookup_lt_is_Some_2 sorted _ Hpin) as [v Hv].
    rewrite Hv in Hval |- *.
    assert (Hm : m !! (subj, year) = Some v).
    { apply (Hin (year, subj) v); [| exact Hval].
      assert (Hr : row ∈ Quartile.targets df subj year)
        by (rewrite Htg; left).
      apply list_elem_of_filter in Hr as [[Hy Hs] Hr].
      apply elem_of_list_prod. split.
      - apply elem_of_py_set. rewrite <- Hy.
        apply list_elem_of_fmap. eauto.
      - apply elem_of_all_subjects. exists (row_subjs row).
        split; [| exact Hs]. apply list_elem_of_fmap. eauto. }
    rewrite Hm. eauto.
Qed.

(** ** Rates written as decimal fractions *)

(** The binary64 number nearest to [a / b]: what Python reads a decimal
    literal such as [0.7] as. *)
Definition binary64_ratio (a b : nat) : PrimFloat.float :=
  PrimFloat.div (float_of_nat a) (float_of_nat b).

(** [n] papers of one subject and one year whose [c50] values are their
    own ranks [0 .. n - 1]. *)
Definition ranked_c50 (n : nat) : list Z := seqZ 0 (Z.of_nat n).
Definition ranked_subjs (n : nat) : list (list string) :=
  replicate n ["x"%string].
Definition ranked_year (n : nat) : list Z := replicate n 2000.

(** C7 fails as stated.  The double nearest to 0.7 is below 0.7, so
    [floor(10 * rate)] is 6, the position of the value 6 among ten ranked
    papers; the code rounds the product to 7.0 first and selects the value
    7.  The double nearest to 0.29
    makes the rounded product 28.999999999999996: of a hundred ranked
    papers the code selects position 28, not [floor(100 * 0.29) = 29]. *)
Lemma get_c_dic_rounds_before_truncating :
  (float_value (binary64_ratio 7 10)
   = Some (6305039478318694 # 9007199254740992)%Q
   /\ (0 <= 6305039478318694 # 9007199254740992)%Q
   /\ (6305039478318694 # 9007199254740992 < 1)%Q
   /\ Qfloor (10 * (6305039478318694 # 9007199254740992)) = 6
   /\ merge_sort Z.le (ranked_c50 10) !! 6%nat = Some 6
   /\ rbind (Quartile.get_c_dic (ranked_c50 10) (ranked_subjs 10)
               (ranked_year 10) (binary64_ratio 7 10))
        (fun c_dic => Ok (c_dic !! ("x"%string, 2000)))
      = Ok (Some 7))
  /\ (Qfloor (100 * (29 # 100)) = 29
      /\ merge_sort Z.le (ranked_c50 100) !! 29%nat = Some 29
      /\ rbind (Quartile.get_c_dic (ranked_c50 100) (ranked_subjs 100)
                  (ranked_year 100) (binary64_ratio 29 100))
           (fun c_dic => Ok (c_dic !! ("x"%string, 2000)))
         = Ok (Some 28)).
Proof.
  split; [| repeat split; vm_compute; reflexivity].
  split; [vm_compute; reflexivity |].
  split; [discriminate |]. split; [reflexivity |].
  repeat split; vm_compute; reflexivity.
Qed.

(** ** Ten papers at rate 0.7, five papers at rate 0.5 *)

Definition ten_papers_c50 : list Z := [3; 9; 0; 5; 1; 8; 2; 7; 4; 6].
Definition ten_papers_subjs : list (list string) :=
  replicate 10 ["x"%string].
Definition ten_papers_year : list Z := replicate 10 2000.

(** Of ten papers with [rate = 0.7] the entry is the value at sorted
    position 7, the floor of the rounded product 7.0; of five papers with
    [rate = 0.5] it is the value at sorted position 2. *)
Lemma get_c_dic_rounded_position_witness :
  (Z.of_nat (length ten_papers_c50) < 2 ^ 53
   /\ float_value (binary64_ratio 7 10)
      = Some (6305039478318694 # 9007199254740992)%Q
   /\ (0 <= 6305039478318694 # 9007199254740992)%Q
   /\ (6305039478318694 # 9007199254740992 < 1)%Q
   /\ exists c_dic,
        Quartile.get_c_dic ten_papers_c50 ten_papers_subjs ten_papers_year
          (binary64_ratio 7 10) = Ok c_dic
        /\ c_dic !! ("x"%string, 2000)
           = [0; 1; 2; 3; 4; 5; 6; 7; 8; 9] !! 7%nat)
  /\ (float_value (binary64_ratio 1 2) = Some (4503599627370496 # 9007199254740992)%Q
      /\ exists c_dic,
           Quartile.get_c_dic five_papers_c50 five_papers_subjs
             five_papers_year (binary64_ratio 1 2) = Ok c_dic
           /\ c_dic !! ("x"%string, 2000) = [1; 3; 5; 7; 9] !! 2%nat).
Proof.
  split.
  - split; [reflexivity |]. split; [vm_compute; reflexivity |].
    split; [discriminate |]. split; [reflexivity |].
    destruct (get_c_dic_rounded_position ten_papers_c50 ten_papers_subjs
                ten_papers_year (binary64_ratio 7 10)
                (6305039478318694 # 9007199254740992))
      as (c_dic & Hrun & Hcells);
      [reflexivity | reflexivity | reflexivity | vm_compute; reflexivity
      | discriminate | reflexivity |].
    exists c_dic. split; [exact Hrun |].
    destruct (proj2 (Hcells "x"%string 2000) [0; 1; 2; 3; 4; 5; 6; 7; 8; 9])
      as (q & Hq & _ & _ & _ & ->).
    + discriminate.
    + change [0; 1; 2; 3; 4; 5; 6; 7; 8; 9]
        with (merge_sort Z.le ten_papers_c50).
      apply Sorted_merge_sort. apply _.
    + change [0; 1; 2; 3; 4; 5; 6; 7; 8; 9]
        with (merge_sort Z.le ten_papers_c50).
      apply merge_sort_Permutation.
    + vm_compute in Hq. injection Hq as <-. reflexivity.
  - split; [vm_compute; reflexivity |].
    destruct (get_c_dic_rounded_position five_papers_c50 five_papers_subjs
                five_papers_year (binary64_ratio 1 2)
                (4503599627370496 # 9007199254740992))
      as (c_dic & Hrun & Hcells);
      [reflexivity | reflexivity | reflexivity | vm_compute; reflexivity
      | discriminate | reflexivity |].
    exists c_dic. split; [exact Hrun |].
    destruct (proj2 (Hcells "x"%string 2000) [1; 3; 5; 7; 9])
      as (q & Hq & _ & _ & _ & ->).
    + discriminate.
    + change [1; 3; 5; 7; 9] with (merge_sort Z.le five_papers_c50).
      apply Sorted_merge_sort. apply _.
    + change [1; 3; 5; 7; 9] with (merge_sort Z.le five_papers_c50).
      apply merge_sort_Permutation.
    + vm_compute in Hq. injection Hq as <-. reflexivity.
Defined.

(** * The remaining indicators and further properties *)

(** * Slices *)

Lemma py_slice_nonneg {A : Type} (l : list A) (lo hi : Z) :
  0 <= lo -> 0 <= hi ->
  py_slice l lo hi = take (Z.to_nat hi - Z.to_nat lo) (drop (Z.to_nat lo) l).
Proof.
  intros Hlo Hhi. unfold py_slice, slice_index.
  destruct (Z.ltb_spec lo 0) as [? | _]; [lia |].
  destruct (Z.ltb_spec hi 0) as [? | _]; [lia |].
  destruct (Z.le_gt_cases (Z.of_nat (length l)) lo) as [Hbig | Hsmall].
  - rewrite !drop_ge by lia. rewrite !take_nil. reflexivity.
  - replace (Z.to_nat (Z.min lo (Z.of_nat (length l)))) with (Z.to_nat lo)
      by lia.
    destruct (Z.le_gt_cases hi (Z.of_nat (length l))) as [Hh | Hh].
    + replace (Z.to_nat (Z.min hi (Z.of_nat (length l)))) with (Z.to_nat hi)
        by lia.
      reflexivity.
    + replace (Z.to_nat (Z.min hi (Z.of_nat (length l)))) with (length l)
        by lia.
      rewrite !take_ge; [reflexivity | |]; rewrite length_drop; lia.
Qed.

Lemma py_slice_prefix {A : Type} (l : list A) (hi : Z) :
  0 <= hi -> py_slice l 0 hi = take (Z.to_nat hi) l.
Proof.
  intros Hhi. rewrite py_slice_nonneg by lia.
  cbn. rewrite Nat.sub_0_r. reflexivity.
Qed.

Lemma py_slice_drop_last {A : Type} (l : list A) :
  py_slice l 0 (-1) = take (length l - 1) l.
Proof.
  unfold py_slice, slice_index. cbn [Z.ltb Z.compare].
  replace (Z.to_nat (Z.min 0 (Z.of_nat (length l)))) with 0%nat by lia.
  replace (Z.to_nat (Z.max 0 (Z.of_nat (length l) + -1)))
    with (length l - 1)%nat by lia.
  rewrite Nat.sub_0_r. reflexivity.
Qed.

Lemma sum_app (l l' : list Z) : sum (l ++ l') = sum l + sum l'.
Proof.
  induction l as [| x l IH]; [reflexivity |].
  cbn [app]. rewrite !sum_cons, IH. lia.
Qed.

Lemma sum_take_drop (k : nat) (l : list Z) :
  sum l = sum (take k l) + sum (drop k l).
Proof. rewrite <- sum_app, take_drop. reflexivity. Qed.

Lemma sum_take_mono (k k' : nat) (l : list Z) :
  Forall (fun x => 0 <= x) l -> (k <= k')%nat ->
  sum (take k l) <= sum (take k' l).
Proof.
  intros Hpos Hk.
  rewrite (sum_take_drop k (take k' l)), take_take.
  replace (k `min` k')%nat with k by lia.
  assert (0 <= sum (drop k (take k' l))); [| lia].
  apply sum_nonneg, Forall_drop, Forall_take, Hpos.
Qed.

Lemma sum_take_le_total (k : nat) (l : list Z) :
  Forall (fun x => 0 <= x) l -> sum (take k l) <= sum l.
Proof.
  intros Hpos. rewrite (sum_take_drop k l).
  assert (0 <= sum (drop k l)); [| lia].
  apply sum_nonneg, Forall_drop, Hpos.
Qed.

(** * Means against integer thresholds *)

Lemma Qdiv_le_Z (x y z : Z) :
  0 < y -> (inject_Z x / inject_Z y <= inject_Z z)%Q <-> x <= z * y.
Proof.
  intros Hy. destruct y as [| p | p]; try lia.
  unfold Qle, Qdiv, Qmult, Qinv, inject_Z. cbn. lia.
Qed.

Lemma Qle_div_Z (x y z : Z) :
  0 < y -> (inject_Z z <= inject_Z x / inject_Z y)%Q <-> z * y <= x.
Proof.
  intros Hy. destruct y as [| p | p]; try lia.
  unfold Qle, Qdiv, Qmult, Qinv, inject_Z. cbn. lia.
Qed.

(** * Average *)

(** X1: [Average.extract] raises [ZeroDivisionError] when the sleep length
    is [-1] or the awake length is [0], whatever the history; for every
    other pair of lengths it returns a boolean. *)
Theorem average_extract_zero_division (c : list Z) (s cs a ca : Z) :
  (s = -1 \/ a = 0 ->
   Average.extract c s cs a ca = Raise ZeroDivisionError)
  /\ (s <> -1 -> a <> 0 -> exists b, Average.extract c s cs a ca = Ok b).
Proof.
  unfold Average.extract, py_true_div. split.
  - intros [-> | ->]; [reflexivity |].
    destruct (s + 1 =? 0); reflexivity.
  - intros Hs Ha.
    destruct (Z.eqb_spec (s + 1) 0) as [? | _]; [lia |].
    destruct (Z.eqb_spec a 0) as [? | _]; [lia |].
    cbn. eauto.
Qed.

(** The two window means of [Average.extract], compared without
    division. *)
Lemma average_extract_windows (c : list Z) (s cs a ca : Z) :
  0 <= s -> 0 < a ->
  Average.extract c s cs a ca
  = Ok ((sum (take (Z.to_nat (s + 1)) c) <=? cs * (s + 1))
        && (ca * a <=? sum (take (Z.to_nat a) (drop (Z.to_nat (s + 1)) c)))).
Proof.
  intros Hs Ha. unfold Average.extract, py_true_div.
  destruct (Z.eqb_spec (s + 1) 0) as [? | _]; [lia |].
  destruct (Z.eqb_spec a 0) as [? | _]; [lia |].
  cbn [rbind]. rewrite py_slice_prefix, py_slice_nonneg by lia.
  replace (Z.to_nat (s + a + 1) - Z.to_nat (s + 1))%nat with (Z.to_nat a)
    by lia.
  f_equal. f_equal.
  - apply eq_true_iff_eq. rewrite Qle_bool_iff, Qdiv_le_Z, Z.leb_le by lia.
    reflexivity.
  - apply eq_true_iff_eq. rewrite Qle_bool_iff, Qle_div_Z, Z.leb_le by lia.
    reflexivity.
Qed.

(** X2: for a sleep length [s >= 0] and an awake length [a > 0],
    [Average.extract] returns [True] exactly when the first [s + 1]
    yearly counts sum to at most [cs * (s + 1)] and the next [a] counts
    (as many of them as the history has) sum to at least [ca * a]. *)
Theorem average_extract_iff (c : list Z) (s cs a ca : Z) :
  0 <= s -> 0 < a ->
  Average.extract c s cs a ca = Ok true
  <-> sum (take (Z.to_nat (s + 1)) c) <= cs * (s + 1)
      /\ ca * a <= sum (take (Z.to_nat a) (drop (Z.to_nat (s + 1)) c)).
Proof.
  intros Hs Ha. rewrite average_extract_windows by assumption.
  rewrite <- !Z.leb_le, <- andb_true_iff.
  split; [intros [= ->]; reflexivity | intros ->; reflexivity].
Qed.

Lemma average_extract_iff_witness :
  0 <= 1 /\ 0 < 3
  /\ Average.extract [1; 1; 1; 1; 1; 1] 1 1 3 1 = Ok true.
Proof.
  split; [lia |]. split; [lia |].
  apply (average_extract_iff [1; 1; 1; 1; 1; 1] 1 1 3 1); [lia | lia |].
  split; apply Z.leb_le; reflexivity.
Defined.

(** X3: a history that ends within the sleep window ([len(c) <= s + 1])
    has an empty awake window, whose sum is 0: with a positive awake
    intensity [ca] it is never classified as a hibernator. *)
Theorem average_extract_short_history (c : list Z) (s cs a ca : Z) :
  0 <= s -> 0 < a -> 0 < ca ->
  Z.of_nat (length c) <= s + 1 ->
  Average.extract c s cs a ca = Ok false.
Proof.
  intros Hs Ha Hca Hlen. rewrite average_extract_windows by assumption.
  rewrite drop_ge by lia. rewrite take_nil.
  replace (ca * a <=? sum []) with false; [apply f_equal, andb_false_r |].
  symmetry. apply Z.leb_gt. cbn. lia.
Qed.

Lemma average_extract_short_history_witness :
  0 <= 3 /\ 0 < 2 /\ 0 < 1
  /\ Z.of_nat (length [0; 0; 9]) <= 3 + 1
  /\ Average.extract [0; 0; 9] 3 100 2 1 = Ok false.
Proof.
  split; [lia |]. split; [lia |]. split; [lia |]. split; [cbn; lia |].
  apply (average_extract_short_history [0; 0; 9] 3 100 2 1); cbn; lia.
Defined.

(** * Naive *)

(** X4: on a history without negative counts, lengthening the sleep
    period can only turn a hibernator into a non-hibernator: if
    [Naive.extract] accepts with sleep length [s'], it accepts with every
    shorter sleep length [s >= -1]. *)
Theorem naive_extract_antitone_in_s (c : list Z) (s s' cs ca : Z) :
  Forall (fun x => 0 <= x) c ->
  -1 <= s -> s <= s' ->
  Naive.extract c s' cs ca = true ->
  Naive.extract c s cs ca = true.
Proof.
  intros Hpos Hs Hle. unfold Naive.extract. cbn zeta.
  rewrite !andb_true_iff, !Z.leb_le, !py_slice_prefix by lia.
  intros [Hsum Hnow]. split; [| exact Hnow].
  etransitivity; [| exact Hsum].
  apply sum_take_mono; [exact Hpos | lia].
Qed.

Lemma naive_extract_antitone_in_s_witness :
  Forall (fun x => 0 <= x) [0; 1; 1; 8]
  /\ -1 <= 0 /\ 0 <= 1
  /\ Naive.extract [0; 1; 1; 8] 1 2 5 = true
  /\ Naive.extract [0; 1; 1; 8] 0 2 5 = true.
Proof.
  assert (Hpos : Forall (fun x => 0 <= x) [0; 1; 1; 8])
    by (repeat constructor; lia).
  split; [exact Hpos |]. split; [lia |]. split; [lia |].
  split; [reflexivity |].
  apply (naive_extract_antitone_in_s [0; 1; 1; 8] 0 1 2 5 Hpos);
    [lia | lia | reflexivity].
Defined.

(** X5: when the sleep window covers the whole history
    ([len(c) <= s + 1]), the sleep total is the lifetime total, so
    [Naive.extract] returns [True] exactly when [ca <= sum(c) <= cs]; in
    particular never when [cs < ca]. *)
Theorem naive_extract_whole_history (c : list Z) (s cs ca : Z) :
  0 <= s -> Z.of_nat (length c) <= s + 1 ->
  (Naive.extract c s cs ca = true <-> ca <= sum c <= cs)
  /\ (cs < ca -> Naive.extract c s cs ca = false).
Proof.
  intros Hs Hlen. unfold Naive.extract. cbn zeta.
  rewrite py_slice_prefix, take_ge by lia.
  rewrite andb_true_iff, !Z.leb_le. split; [lia |].
  intros Hlt. apply andb_false_iff. rewrite !Z.leb_gt. lia.
Qed.

Lemma naive_extract_whole_history_witness :
  0 <= 5 /\ Z.of_nat (length [0; 1; 1; 8]) <= 5 + 1
  /\ Naive.extract [0; 1; 1; 8] 5 9 20 = false.
Proof.
  split; [lia |]. split; [cbn; lia |].
  apply (proj2 (naive_extract_whole_history [0; 1; 1; 8] 5 9 20
                  ltac:(lia) ltac:(cbn; lia))).
  lia.
Defined.

(** * CitationDelay *)

Lemma foldl_np_add_NaN (l : list npfloat) : foldl np_add NaN l = NaN.
Proof. induction l as [| x l IH]; [reflexivity | exact IH]. Qed.

Lemma np_sum_NaN_head (l : list npfloat) : np_sum (NaN :: l) = NaN.
Proof. unfold np_sum. cbn. apply foldl_np_add_NaN. Qed.

Lemma foldl_np_add_Fin (acc : Q) (l : list Q) :
  foldl np_add (Fin acc) (map Fin l) = Fin (foldl Qplus acc l).
Proof.
  revert acc. induction l as [| x l IH]; intros acc; [reflexivity |].
  cbn. apply IH.
Qed.

Lemma foldl_Qplus_bounds (acc : Q) (l : list Q) :
  Forall (fun x => 0 <= x /\ x <= 1)%Q l ->
  (acc <= foldl Qplus acc l
   /\ foldl Qplus acc l <= acc + inject_Z (Z.of_nat (length l)))%Q.
Proof.
  intros Hl. revert acc.
  induction Hl as [| x l [Hx0 Hx1] _ IH]; intros acc.
  - cbn. split; [apply Qle_refl |]. rewrite Qplus_0_r. apply Qle_refl.
  - cbn [foldl length]. destruct (IH (acc + x)%Q) as [Hlo Hhi]. split.
    + eapply Qle_trans; [| exact Hlo].
      rewrite <- (Qplus_0_r acc) at 1. apply Qplus_le_r. exact Hx0.
    + eapply Qle_trans; [exact Hhi |].
      rewrite Nat2Z.inj_succ. unfold Z.succ. rewrite inject_Z_plus.
      rewrite <- Qplus_assoc. apply Qplus_le_r.
      rewrite (Qplus_comm (inject_Z (Z.of_nat (length l)))).
      apply Qplus_le_l. exact Hx1.
Qed.

Lemma cumsum_from_lower (acc : Z) (l : list Z) (s : Z) :
  Forall (fun x => 0 <= x) l -> s ∈ cumsum_from acc l -> acc <= s.
Proof.
  intros Hpos. revert acc.
  induction Hpos as [| x l Hx Hl IH]; intros acc Hs; cbn in Hs.
  - inversion Hs.
  - apply elem_of_cons in Hs as [-> | Hs]; [lia |].
    specialize (IH _ Hs). lia.
Qed.

Lemma length_cumsum_from (acc : Z) (l : list Z) :
  length (cumsum_from acc l) = length l.
Proof.
  revert acc. induction l as [| x l IH]; intros acc; cbn; [reflexivity |].
  rewrite IH. reflexivity.
Qed.

Lemma shares_finite (c : list Z) :
  sum c <> 0 ->
  CitationDelay.shares c
  = map Fin (map (fun s => inject_Z s / inject_Z (sum c))%Q (cumsum c)).
Proof.
  intros Hne. unfold CitationDelay.shares. rewrite map_map.
  apply map_ext. intros s. unfold np_div.
  destruct (Z.eqb_spec (sum c) 0) as [? | _]; [contradiction | reflexivity].
Qed.

(** X6: the citation delay of a single-year history is [nan] (the mean
    over an empty prefix divides [0.0] by [len(c) - 1 = 0]), and so is
    the citation delay of every all-zero history: the method does not
    raise on a zero total, it returns [nan]. *)
Theorem citation_delay_nan (c : list Z) :
  (length c = 1%nat -> CitationDelay.score c = NaN)
  /\ (c <> [] -> Forall (fun x => x = 0) c -> CitationDelay.score c = NaN).
Proof.
  assert (Hone : length c = 1%nat -> CitationDelay.score c = NaN).
  { intros Hlen. destruct c as [| x [| y c]]; try discriminate.
    unfold CitationDelay.score. rewrite py_slice_drop_last.
    unfold CitationDelay.shares. cbn. reflexivity. }
  split; [exact Hone |].
  intros Hne Hzero.
  destruct c as [| x [| y c]]; [congruence | apply Hone; reflexivity |].
  assert (Hsum : sum (x :: y :: c) = 0).
  { clear Hne Hone. induction Hzero as [| z l -> _ IH]; [reflexivity |].
    rewrite sum_cons, IH. reflexivity. }
  apply Forall_cons in Hzero as [-> _].
  unfold CitationDelay.score. rewrite py_slice_drop_last.
  unfold CitationDelay.shares. rewrite Hsum, length_map.
  unfold cumsum. rewrite length_cumsum_from.
  cbn [cumsum_from map length Nat.sub take firstn].
  change (np_div (inject_Z (0 + 0)) 0) with NaN.
  rewrite np_sum_NaN_head. reflexivity.
Qed.

(** X7: on a history of at least two years without negative counts and
    with at least one citation, the citation delay is a finite number
    between 0 and 1. *)
Theorem citation_delay_range (c : list Z) :
  Forall (fun x => 0 <= x) c -> 0 < sum c -> (2 <= length c)%nat ->
  exists q, CitationDelay.score c = Fin q /\ (0 <= q)%Q /\ (q <= 1)%Q.
Proof.
  intros Hpos Hsum Hlen.
  unfold CitationDelay.score.
  rewrite py_slice_drop_last, shares_finite by lia.
  rewrite !length_map. unfold cumsum at 1.
  rewrite length_cumsum_from.
  change (map Fin ?x) with (Fin <$> x).
  change (map ?f (cumsum c)) with (f <$> cumsum c).
  rewrite <- !fmap_take.
  set (l := (fun s => (inject_Z s / inject_Z (sum c))%Q)
              <$> take (length c - 1) (cumsum c)).
  assert (Hl : Forall (fun x => 0 <= x /\ x <= 1)%Q l).
  { apply Forall_fmap, Forall_take, Forall_forall. intros s Hs. cbn.
    pose proof (cumsum_from_lower 0 c s Hpos Hs).
    pose proof (cumsum_from_bound 0 c s Hpos Hs).
    split.
    - apply Qle_shift_div_l.
      + change 0%Q with (inject_Z 0). rewrite <- Zlt_Qlt. exact Hsum.
      + rewrite Qmult_0_l. change 0%Q with (inject_Z 0).
        rewrite <- Zle_Qle. lia.
    - apply Qle_shift_div_r.
      + change 0%Q with (inject_Z 0). rewrite <- Zlt_Qlt. exact Hsum.
      + rewrite Qmult_1_l, <- Zle_Qle. lia. }
  assert (Hlen_l : length l = (length c - 1)%nat).
  { unfold l. rewrite length_fmap, length_take. unfold cumsum.
    rewrite length_cumsum_from. lia. }
  clearbody l.
  unfold np_sum. change (map Fin l) with (Fin <$> l).
  change (Fin <$> l) with (map Fin l). rewrite foldl_np_add_Fin.
  destruct (foldl_Qplus_bounds 0 l Hl) as [Hlo Hhi].
  rewrite Hlen_l, Qplus_0_l in Hhi.
  set (S := foldl Qplus 0%Q l) in *.
  unfold np_fdiv, np_div.
  destruct (Z.eqb_spec (Z.of_nat (length c) - 1) 0) as [? | _]; [lia |].
  cbn [np_sub np_neg np_add].
  replace (Z.of_nat (length c - 1)) with (Z.of_nat (length c) - 1) in Hhi
    by lia.
  set (d := inject_Z (Z.of_nat (length c) - 1)) in *.
  assert (Hd : (0 < d)%Q).
  { unfold d. change 0%Q with (inject_Z 0). rewrite <- Zlt_Qlt. lia. }
  eexists. split; [reflexivity |].
  assert (H0 : (0 <= S / d)%Q).
  { apply Qle_shift_div_l; [exact Hd |]. rewrite Qmult_0_l. exact Hlo. }
  assert (H1 : (S / d <= 1)%Q).
  { apply Qle_shift_div_r; [exact Hd |]. rewrite Qmult_1_l. exact Hhi. }
  split.
  - apply (Qplus_le_r _ _ (S / d)). ring_simplify. exact H1.
  - apply (Qplus_le_r _ _ (S / d)). ring_simplify.
    rewrite <- (Qplus_0_l 1) at 1. apply Qplus_le_l. exact H0.
Qed.

Lemma citation_delay_range_witness :
  Forall (fun x => 0 <= x) [1; 1; 2] /\ 0 < sum [1; 1; 2]
  /\ (2 <= length [1; 1; 2])%nat
  /\ exists q, CitationDelay.score [1; 1; 2] = Fin q
               /\ (0 <= q)%Q /\ (q <= 1)%Q.
Proof.
  assert (Hpos : Forall (fun x => 0 <= x) [1; 1; 2])
    by (repeat constructor; lia).
  split; [exact Hpos |]. split; [reflexivity |]. split; [cbn; lia |].
  apply (citation_delay_range [1; 1; 2] Hpos); [reflexivity | cbn; lia].
Defined.

(** * Weighted sums over a history *)

(** A sum of the counts, each weighted by a factor between [lo] and [hi],
    lies between [lo] and [hi] times the plain sum. *)
Lemma sum_imap_bounds (lo hi : Z) (l : list Z) (f : nat -> Z -> Z) :
  Forall (fun x => 0 <= x) l ->
  (forall t x, (t < length l)%nat -> 0 <= x ->
               lo * x <= f t x /\ f t x <= hi * x) ->
  lo * sum l <= sum (imap f l) /\ sum (imap f l) <= hi * sum l.
Proof.
  intros Hpos. revert f.
  induction Hpos as [| x l Hx Hl IH]; intros f Hf; [cbn; lia |].
  cbn [imap]. rewrite !sum_cons.
  destruct (Hf 0%nat x) as [H1 H2]; [cbn; lia | exact Hx |].
  destruct (IH (f ∘ S)) as [H3 H4].
  { intros t y Ht Hy. apply Hf; [cbn; lia | exact Hy]. }
  lia.
Qed.

(** * KValue *)

(** X9: on a history without negative counts the K value is a real
    number between 0 and 1 (never [nan]). *)
Theorem kvalue_range (c : list Z) :
  Forall (fun x => 0 <= x) c ->
  exists r, KValue.score c = Some r /\ (0 <= r <= 1)%R.
Proof.
  intros Hpos. unfold KValue.score. cbn zeta.
  assert (Hpos21 : Forall (fun x => 0 <= x) (take 21 c))
    by (apply Forall_take, Hpos).
  destruct (Z.eqb_spec (sum (take 21 c)) 0) as [H0 | Hne].
  { exists 0%R. split; [reflexivity | lra]. }
  pose proof (sum_nonneg _ Hpos21) as Hs.
  assert (HW : 0 * sum (take 21 c) <= KValue.weighted (take 21 c)
               /\ KValue.weighted (take 21 c) <= 400 * sum (take 21 c)).
  { apply sum_imap_bounds; [exact Hpos21 |].
    intros t x Ht Hx. rewrite length_take in Ht.
    assert (Ht' : 0 <= Z.of_nat t <= 20) by lia.
    assert (0 <= Z.of_nat t ^ 2 <= 400) by nia. nia. }
  set (W := KValue.weighted (take 21 c)) in *.
  set (S := sum (take 21 c)) in *.
  unfold KValue.np_sqrt.
  destruct (Qltb (inject_Z W / inject_Z S) 0) eqn:Hneg.
  { exfalso. apply Qltb_lt in Hneg. revert Hneg. apply Qle_not_lt.
    apply Qle_shift_div_l.
    - change 0%Q with (inject_Z 0). rewrite <- Zlt_Qlt. lia.
    - rewrite Qmult_0_l. change 0%Q with (inject_Z 0).
      rewrite <- Zle_Qle. lia. }
  cbn [option_map]. eexists. split; [reflexivity |].
  rewrite Q2R_inject_Z_div by lia.
  assert (HS : (0 < IZR S)%R) by (apply IZR_lt; lia).
  assert (Hlo : (0 <= IZR W / IZR S)%R).
  { apply Rmult_le_pos; [apply IZR_le; lia |].
    apply Rlt_le, Rinv_0_lt_compat, HS. }
  assert (Hhi : (IZR W / IZR S <= 20 * 20)%R).
  { apply (Rmult_le_reg_r (IZR S)); [exact HS |].
    unfold Rdiv. rewrite Rmult_assoc, Rinv_l, Rmult_1_r by lra.
    replace (20 * 20 * IZR S)%R with (IZR (400 * S))
      by (rewrite mult_IZR; lra).
    apply IZR_le. lia. }
  split.
  - apply Rmult_le_pos; [apply sqrt_pos | lra].
  - apply (Rmult_le_reg_r 20); [lra |].
    unfold Rdiv. rewrite Rmult_assoc, Rinv_l, Rmult_1_r, Rmult_1_l by lra.
    rewrite <- (sqrt_square 20) by lra.
    apply sqrt_le_1_alt. exact Hhi.
Qed.

Lemma kvalue_range_witness :
  Forall (fun x => 0 <= x) [0; 0; 3]
  /\ exists r, KValue.score [0; 0; 3] = Some r /\ (0 <= r <= 1)%R.
Proof.
  assert (Hpos : Forall (fun x => 0 <= x) [0; 0; 3])
    by (repeat constructor; lia).
  split; [exact Hpos | exact (kvalue_range [0; 0; 3] Hpos)].
Defined.

(** * Cumulative sums *)

Lemma cumsum_from_lookup (acc : Z) (l : list Z) (j : nat) :
  (j < length l)%nat ->
  cumsum_from acc l !! j = Some (acc + sum (take (S j) l)).
Proof.
  revert acc j. induction l as [| x l IH]; intros acc j Hj; cbn in Hj; [lia |].
  destruct j as [| j]; cbn [cumsum_from lookup list_lookup].
  - change (take 1 (x :: l)) with [x]. cbn. f_equal. lia.
  - rewrite IH by lia. change (take (S (S j)) (x :: l)) with (x :: take (S j) l).
    rewrite sum_cons. f_equal. lia.
Qed.

Lemma cumsum_from_last (acc : Z) (l : list Z) :
  l <> [] -> (acc + sum l) ∈ cumsum_from acc l.
Proof.
  intros Hne.
  assert (Hlen : (length l - 1 < length l)%nat).
  { destruct l; [congruence | cbn; lia]. }
  apply (list_elem_of_lookup_2 _ (length l - 1)%nat).
  rewrite cumsum_from_lookup by exact Hlen.
  rewrite take_ge by lia. reflexivity.
Qed.

(** * BeautyCoefficient *)

(** X10: [BeautyCoefficient.score] returns a number on every history (it
    never raises), and that number is 0 whenever no yearly count exceeds
    the count of the publication year, that is, when the peak is at
    [t = 0]. *)
Theorem beauty_score_total (c : list Z) :
  (exists q, BeautyCoefficient.score c = Ok q)
  /\ (forall c0, c !! 0%nat = Some c0 -> (forall x, x ∈ c -> x <= c0) ->
                 BeautyCoefficient.score c = Ok 0%Q).
Proof.
  unfold BeautyCoefficient.score, BeautyCoefficient._get_c0_tm_ctm.
  destruct (Z.eqb_spec (sum c) 0) as [H0 | Hne]; [split; eauto |].
  destruct c as [| x0 l]; [contradiction Hne; reflexivity |].
  cbn [getitem lookup list_lookup rbind np_argmax np_max].
  split.
  - destruct (fst (argmax_from Z.ltb x0 0 1 l) =? 0)%nat; eauto.
  - intros c0 [= <-] Hmax.
    rewrite argmax_from_no_larger; [reflexivity |].
    intros x Hx. apply Z.ltb_ge, Hmax. right. exact Hx.
Qed.

(** * BeautyCoefficientCumulativePercentage *)

Definition is_finite (x : npfloat) : Prop :=
  match x with Fin _ => True | _ => False end.

Lemma foldl_np_add_finite (acc : Q) (l : list npfloat) :
  Forall is_finite l -> exists q, foldl np_add (Fin acc) l = Fin q.
Proof.
  intros Hl. revert acc.
  induction Hl as [| x l Hx _ IH]; intros acc; [cbn; eauto |].
  destruct x as [q | |]; try contradiction. cbn. apply IH.
Qed.

(** X11: on a history without negative counts and with at least one
    citation, [BeautyCoefficientCumulativePercentage.score] never raises;
    it returns [nan] when every citation falls in the publication year
    and a finite number otherwise. *)
Theorem bcp_score_nan_iff (c : list Z) :
  Forall (fun x => 0 <= x) c -> 0 < sum c ->
  (c !! 0%nat = Some (sum c) ->
   BeautyCoefficientCumulativePercentage.score c = Ok NaN)
  /\ (c !! 0%nat <> Some (sum c) ->
      exists q, BeautyCoefficientCumulativePercentage.score c = Ok (Fin q)).
Proof.
  intros Hpos Hsum.
  destruct c as [| x l]; [cbn in Hsum; lia |].
  apply Forall_cons in Hpos as [Hx Hl].
  pose proof (sum_nonneg l Hl) as Hl0. rewrite sum_cons in Hsum.
  split.
  - intros Hx0. change (Some x = Some (x + sum l)) in Hx0.
    injection Hx0 as Hx0.
    apply bcp_score_nan_first_year_only; [lia | exact Hl | lia].
  - intros Hne.
    assert (Hlt : x < x + sum l).
    { destruct (Z.eq_dec (sum l) 0) as [H0 | H0]; [| lia].
      exfalso. apply Hne. change (Some x = Some (x + sum l)).
      f_equal. lia. }
    assert (Hlne : l <> []) by (intros ->; cbn in Hlt; lia).
    unfold BeautyCoefficientCumulativePercentage.score.
    destruct (Z.eqb_spec (sum (x :: l)) 0) as [H0 | _];
      [rewrite sum_cons in H0; lia |].
    cbn zeta.
    unfold BeautyCoefficientCumulativePercentage._get_c0_tm_ctm,
      BeautyCoefficientCumulativePercentage.c_relative, cumsum.
    rewrite sum_cons. cbn [cumsum_from map getitem lookup list_lookup rbind].
    set (S := x + sum l) in *.
    cbn [np_argmax np_max rbind].
    match goal with
    | |- context [argmax_from Qltb ?b 0%nat 1%nat ?r] =>
        destruct (argmax_from Qltb b 0%nat 1%nat r) as [tm ctm] eqn:Hrun
    end.
    cbn [fst snd].
    apply argmax_from_spec in Hrun as (Hub & _ & Hcase); [| apply _].
    assert (Htm : tm <> 0%nat).
    { destruct Hcase as [[_ ->] | (j & -> & _)]; [| lia].
      exfalso.
      assert (Hlast : (inject_Z (0 + x + sum l) / inject_Z S)%Q
                      ∈ map (fun s => (inject_Z s / inject_Z S)%Q)
                          (cumsum_from (0 + x) l)).
      { apply (list_elem_of_fmap_2 (fun s => (inject_Z s / inject_Z S)%Q)).
        apply cumsum_from_last, Hlne. }
      apply Hub, Qltb_ge in Hlast. revert Hlast. apply Qlt_not_le.
      apply Qmult_lt_compat_r.
      - apply Qinv_lt_0_compat. change 0%Q with (inject_Z 0).
        rewrite <- Zlt_Qlt. lia.
      - rewrite <- Zlt_Qlt. lia. }
    unfold np_sum.
    match goal with
    | |- context [foldl np_add (Fin 0) ?l0] =>
        destruct (foldl_np_add_finite 0 l0) as [q Hq];
          [| rewrite Hq; eauto]
    end.
    apply Forall_forall. intros y Hy.
    apply list_elem_of_lookup in Hy as [i Hi].
    rewrite list_lookup_imap in Hi.
    destruct (_ !! i) as [ct |]; [| discriminate].
    cbn in Hi. injection Hi as <-.
    unfold BeautyCoefficientCumulativePercentage._calcBcp, np_div.
    destruct (Z.eqb_spec (Z.of_nat tm) 0) as [? | _]; [lia |]. exact I.
Qed.

Lemma bcp_score_nan_iff_witness :
  Forall (fun x => 0 <= x) [0; 0; 0; 5; 0] /\ 0 < sum [0; 0; 0; 5; 0]
  /\ exists q,
       BeautyCoefficientCumulativePercentage.score [0; 0; 0; 5; 0]
       = Ok (Fin q).
Proof.
  assert (Hpos : Forall (fun x => 0 <= x) [0; 0; 0; 5; 0])
    by (repeat constructor; lia).
  split; [exact Hpos |]. split; [reflexivity |].
  apply (proj2 (bcp_score_nan_iff [0; 0; 0; 5; 0] Hpos eq_refl)).
  discriminate.
Defined.

(** * Quartile.get_c50 *)

(** [np.where] lists the true positions in increasing order: its first
    entry is the first true position. *)
Lemma where_from_first (i : nat) (bs : list bool) :
  match where_from i bs with
  | [] => forall j b, bs !! j = Some b -> b = false
  | x :: rest =>
      exists j, x = (i + j)%nat /\ bs !! j = Some true
        /\ (forall j' b, (j' < j)%nat -> bs !! j' = Some b -> b = false)
        /\ forall y, y ∈ rest -> (x < y)%nat
  end.
Proof.
  revert i. induction bs as [| b bs IH]; intros i; cbn [where_from].
  - intros j b Hj. rewrite lookup_nil in Hj. discriminate.
  - specialize (IH (S i)). destruct b.
    + exists 0%nat. split; [lia |]. split; [reflexivity |].
      split; [intros; lia |]. intros y Hy.
      destruct (where_from (S i) bs) as [| x rest]; [inversion Hy |].
      destruct IH as (j & -> & _ & _ & Hrest).
      apply elem_of_cons in Hy as [-> | Hy]; [lia |].
      specialize (Hrest y Hy). lia.
    + destruct (where_from (S i) bs) as [| x rest].
      * intros [| j] b Hj; cbn in Hj; [congruence | eauto].
      * destruct IH as (j & -> & Hj & Hbefore & Hrest).
        exists (S j). split; [lia |]. split; [exact Hj |].
        split; [| exact Hrest].
        intros [| j'] b Hlt Hb; cbn in Hb; [congruence |].
        apply (Hbefore j'); [lia | exact Hb].
Qed.

Lemma foldr_min_least (x : nat) (l : list nat) :
  (forall y, y ∈ l -> (x < y)%nat) -> foldr Nat.min x l = x.
Proof.
  induction l as [| y l IH]; intros Hl; [reflexivity |].
  cbn. rewrite IH by (intros z Hz; apply Hl; right; exact Hz).
  assert (x < y)%nat by (apply Hl; left). lia.
Qed.

(** The share of its citations that history [c] has received by the end
    of offset [j] is at least one half. *)
Definition half_reached (c : list Z) (j : nat) : Prop :=
  (1 # 2 <= inject_Z (sum (take (S j) c)) / inject_Z (sum c))%Q.

(** X12: on a history whose total is not zero, [get_c50] never raises: it
    returns an offset inside the history, the earliest one by which the
    cumulative share of citations has reached one half. *)
Theorem get_c50_earliest_half (c : list Z) :
  sum c <> 0 ->
  exists i : nat,
    Quartile.get_c50 c = Ok (Z.of_nat i)
    /\ (i < length c)%nat
    /\ half_reached c i
    /\ forall j, (j < i)%nat -> ~ half_reached c j.
Proof.
  intros Hne. unfold Quartile.get_c50.
  destruct (Z.eqb_spec (sum c) 0) as [? | _]; [contradiction |].
  set (test := fun s : Z => Qle_bool (1 # 2) (inject_Z s / inject_Z (sum c))).
  assert (Hlook : forall j, (j < length c)%nat ->
            map test (cumsum c) !! j = Some (test (sum (take (S j) c)))).
  { intros j Hj. unfold cumsum.
    change (map test ?l) with (test <$> l).
    rewrite list_lookup_fmap, cumsum_from_lookup by exact Hj.
    reflexivity. }
  assert (Hlen : length (map test (cumsum c)) = length c).
  { rewrite length_map. apply length_cumsum_from. }
  pose proof (where_from_first 0 (map test (cumsum c))) as Hfirst.
  unfold np_where, np_min.
  destruct (where_from 0 (map test (cumsum c))) as [| x rest].
  - exfalso.
    assert (Hc : c <> []) by (intros ->; apply Hne; reflexivity).
    assert (Hj : (length c - 1 < length c)%nat).
    { destruct c; [congruence | cbn; lia]. }
    specialize (Hfirst _ _ (Hlook _ Hj)).
    replace (S (length c - 1)) with (length c) in Hfirst by lia.
    rewrite take_ge in Hfirst by lia. unfold test in Hfirst.
    apply not_true_iff_false in Hfirst. apply Hfirst, Qle_bool_iff.
    unfold Qdiv. rewrite Qmult_inv_r; [discriminate |].
    intros H. apply (inject_Z_injective (sum c) 0) in H. contradiction.
  - destruct Hfirst as (j & -> & Hj & Hbefore & Hrest).
    rewrite foldr_min_least by exact Hrest. cbn [rbind].
    exists j. split; [reflexivity |].
    assert (Hjlen : (j < length c)%nat).
    { rewrite <- Hlen. eapply lookup_lt_Some, Hj. }
    split; [exact Hjlen |]. split.
    + rewrite Hlook in Hj by exact Hjlen. injection Hj as Hj.
      apply Qle_bool_iff, Hj.
    + intros j' Hlt Hhalf.
      specialize (Hbefore j' _ Hlt (Hlook j' ltac:(lia))).
      apply Qle_bool_iff in Hhalf. unfold test in Hbefore. congruence.
Qed.

Lemma get_c50_earliest_half_witness :
  sum [0; 1; 1; 8] <> 0
  /\ exists i : nat,
       Quartile.get_c50 [0; 1; 1; 8] = Ok (Z.of_nat i)
       /\ (i < length [0; 1; 1; 8])%nat
       /\ half_reached [0; 1; 1; 8] i
       /\ forall j, (j < i)%nat -> ~ half_reached [0; 1; 1; 8] j.
Proof.
  assert (Hne : sum [0; 1; 1; 8] <> 0) by discriminate.
  split; [exact Hne | exact (get_c50_earliest_half [0; 1; 1; 8] Hne)].
Defined.

(** * ExponentialQuartile *)


(** * Quartile.extract *)

(** How fast a paper reached half of its citations, against the two
    percentile values of one of its subjects. *)
Inductive pace : Set := Fast | Typical | Slow.

#[export] Instance pace_eq_dec : EqDecision pace.
Proof. solve_decision. Defined.

Definition pace_score (p : pace) : Z :=
  match p with Fast => 1 | Typical => 2 | Slow => 3 end.

Definition pace_of (c50 before after : Z) : pace :=
  if c50 <? before then Fast else if after <? c50 then Slow else Typical.

Section QuartileVotes.
Variables (c50 year : Z) (c_dic_before c_dic_after : gmap key Z).

(** The pace of the paper within subject [subj]; a missing table entry
    reads as 0 here, the theorem below assumes none is missing. *)
Definition subject_pace (subj : string) : pace :=
  pace_of c50 (default 0 (c_dic_before !! (subj, year)))
              (default 0 (c_dic_after !! (subj, year))).

Definition votes (p : pace) (subjs : list string) : Z :=
  Z.of_nat (length (filter (fun subj => subject_pace subj = p) subjs)).

Lemma subject_score_outcome (subj : string) :
  is_Some (c_dic_before !! (subj, year)) ->
  is_Some (c_dic_after !! (subj, year)) ->
  outcome (Quartile.subject_score c50 year c_dic_before c_dic_after subj)
  = Ok (pace_score (subject_pace subj)).
Proof.
  intros [b Hb] [a Ha].
  unfold Quartile.subject_score, subject_pace, pace_of.
  rewrite outcome_tbind. cbn [outcome tlookup snd]. rewrite Hb, Ha.
  cbn [rbind default from_option Datatypes.id].
  destruct (c50 <? b); [reflexivity |].
  rewrite outcome_tbind. cbn [outcome tlookup snd]. rewrite Ha.
  cbn [rbind]. destruct (a <? c50); reflexivity.
Qed.

Lemma votes_cons (p : pace) (subj : string) (subjs : list string) :
  votes p (subj :: subjs)
  = (if decide (subject_pace subj = p) then 1 else 0) + votes p subjs.
Proof.
  unfold votes. rewrite filter_cons.
  destruct (decide (subject_pace subj = p)); cbn [length]; lia.
Qed.

Lemma sum_pace_scores (subjs : list string) :
  sum (map (fun subj => pace_score (subject_pace subj)) subjs)
  = votes Fast subjs + 2 * votes Typical subjs + 3 * votes Slow subjs
  /\ Z.of_nat (length subjs)
     = votes Fast subjs + votes Typical subjs + votes Slow subjs.
Proof.
  induction subjs as [| subj subjs [IH1 IH2]]; [split; reflexivity |].
  cbn [map length]. rewrite sum_cons, !votes_cons, IH1.
  rewrite Nat2Z.inj_succ, IH2.
  destruct (subject_pace subj);
    repeat (case_decide; try congruence); cbn [pace_score]; lia.
Qed.

End QuartileVotes.

Lemma mean_ge_five_halves (s n : Z) :
  0 < n -> (5 # 2 <= inject_Z s / inject_Z n)%Q <-> 5 * n <= 2 * s.
Proof.
  intros Hn. destruct n as [| p | p]; try lia.
  unfold Qle, Qdiv, Qmult, Qinv, inject_Z. cbn. lia.
Qed.

(** X14: when both percentile tables hold an entry for every subject of
    the paper, [Quartile.extract] returns [True] exactly when the paper
    has at least one subject and the subjects in which it is slow
    ([c50] above the "after" value and not below the "before" value) are
    at least as many as three times the subjects in which it is fast
    ([c50] below the "before" value) plus the remaining, typical ones. *)
Theorem quartile_extract_votes (c50 : Z) (subjs : list string) (year : Z)
    (c_dic_before c_dic_after : gmap key Z) :
  (forall subj, subj ∈ subjs ->
     is_Some (c_dic_before !! (subj, year))
     /\ is_Some (c_dic_after !! (subj, year))) ->
  exists b,
    Quartile.extract c50 subjs year c_dic_before c_dic_after = Ok b
    /\ (b = true <->
        subjs <> []
        /\ 3 * votes c50 year c_dic_before c_dic_after Fast subjs
           + votes c50 year c_dic_before c_dic_after Typical subjs
           <= votes c50 year c_dic_before c_dic_after Slow subjs).
Proof.
  intros Hkeys. unfold Quartile.extract, Quartile.extract_m.
  rewrite outcome_tbind, outcome_tmap.
  rewrite (rmap_Ok_map _
             (fun subj => pace_score
                (subject_pace c50 year c_dic_before c_dic_after subj))).
  2:{ intros subj Hs. destruct (Hkeys subj Hs).
      apply subject_score_outcome; assumption. }
  cbn [rbind outcome tret snd]. eexists. split; [reflexivity |].
  destruct (sum_pace_scores c50 year c_dic_before c_dic_after subjs)
    as [Hsum Hlen].
  unfold np_mean. rewrite length_map.
  destruct subjs as [| subj subjs].
  - cbn. split; [discriminate | intros [H _]; congruence].
  - unfold np_div.
    destruct (Z.eqb_spec (Z.of_nat (length (subj :: subjs))) 0) as [H0 | _];
      [cbn in H0; lia |].
    cbn [np_ge]. rewrite Qle_bool_iff, mean_ge_five_halves by (cbn; lia).
    rewrite Hsum, Hlen. split.
    + intros H. split; [discriminate | lia].
    + intros [_ H]. lia.
Qed.

Lemma quartile_extract_votes_witness :
  exists b,
    Quartile.extract 7 ["a"%string] 2000
      {[("a"%string, 2000) := 3]} {[("a"%string, 2000) := 5]} = Ok b
    /\ (b = true <->
        ["a"%string] <> []
        /\ 3 * votes 7 2000 {[("a"%string, 2000) := 3]}
                 {[("a"%string, 2000) := 5]} Fast ["a"%string]
           + votes 7 2000 {[("a"%string, 2000) := 3]}
               {[("a"%string, 2000) := 5]} Typical ["a"%string]
           <= votes 7 2000 {[("a"%string, 2000) := 3]}
                {[("a"%string, 2000) := 5]} Slow ["a"%string]).
Proof.
  apply (quartile_extract_votes 7 ["a"%string] 2000
           {[("a"%string, 2000) := 3]} {[("a"%string, 2000) := 5]}).
  intros subj Hs. apply list_elem_of_singleton in Hs as ->.
  split; eexists; reflexivity.
Defined.

(** * Which keys DNIC.extract reads *)

Section LookupsFacts.
Context {E : Type}.

Lemma lookups_tbind {A B : Type} (m : traced (E := E) A) (f : A -> traced B)
    (ev : E) :
  ev ∈ lookups (tbind m f) ->
  ev ∈ lookups m \/ exists a, outcome m = Ok a /\ ev ∈ lookups (f a).
Proof.
  destruct m as [tr [a | e]]; cbn; [| auto].
  destruct (f a) as [tr' r] eqn:Hfa. cbn.
  intros [H | H]%elem_of_app; [auto |].
  right. exists a. rewrite Hfa. auto.
Qed.

Lemma lookups_tmap {A B : Type} (f : A -> traced (E := E) B) (l : list A)
    (ev : E) :
  ev ∈ lookups (tmap f l) -> exists x, x ∈ l /\ ev ∈ lookups (f x).
Proof.
  induction l as [| x l IH]; cbn [tmap]; [intros H; inversion H |].
  intros [H | (y & _ & [H | (ys & _ & H)]%lookups_tbind)]%lookups_tbind.
  - exists x. split; [left | exact H].
  - destruct (IH H) as (x' & Hx' & Hev). exists x'. split; [right |]; auto.
  - inversion H.
Qed.

End LookupsFacts.

Lemma normalized_lookups (c : list Z) (year : Z) (ekj_dic : gmap key Q)
    (subj : string) (i : Z) (k : key) :
  k ∈ lookups (DNIC.normalized c year ekj_dic subj i) -> k = (subj, i).
Proof.
  unfold DNIC.normalized.
  intros [H | (ci & _ & [H | (e & _ & H)]%lookups_tbind)]%lookups_tbind.
  - inversion H.
  - apply list_elem_of_singleton in H. exact H.
  - inversion H.
Qed.

Lemma for_subj_lookups (c : list Z) (year : Z) (ekj_dic : gmap key Q)
    (c_peak c_before_peak : Q) (y_peak_v c_peak_v : Z) (subjs : list string)
    (k : key) :
  k ∈ lookups (DNIC.for_subj c year ekj_dic c_peak c_before_peak
                 y_peak_v c_peak_v subjs) ->
  fst k ∈ subjs /\ (snd k = y_peak_v \/ year <= snd k < y_peak_v - 2).
Proof.
  induction subjs as [| subj rest IH]; cbn [DNIC.for_subj];
    [intros H; inversion H |].
  assert (Hrest : k ∈ lookups (DNIC.for_subj c year ekj_dic c_peak
                                 c_before_peak y_peak_v c_peak_v rest) ->
                  fst k ∈ subj :: rest
                  /\ (snd k = y_peak_v \/ year <= snd k < y_peak_v - 2)).
  { intros H. destruct (IH H). split; [right |]; assumption. }
  intros [H | (e & _ & H)]%lookups_tbind.
  { apply list_elem_of_singleton in H as ->. split; [left | left; reflexivity]. }
  apply lookups_tbind in H as [H | (q & _ & H)]; [inversion H |].
  destruct (Qltb c_peak q); [| exact (Hrest H)].
  apply lookups_tbind in H as [H | (before & _ & H)].
  { apply lookups_tmap in H as (i & Hi & H).
    apply normalized_lookups in H as ->. apply elem_of_range in Hi.
    split; [left | right; exact Hi]. }
  apply lookups_tbind in H as [H | (m & _ & H)]; [inversion H |].
  destruct (Qltb m c_before_peak); [inversion H | exact (Hrest H)].
Qed.

(** X15: [DNIC.extract] reads the baseline table only when the peak of
    the history lies strictly beyond offset [len(c)//2], and then only
    under the paper's own subjects, for the peak year or for a year from
    publication up to three years before the peak. *)
Theorem dnic_extract_lookups (c : list Z) (subjs : list string) (year : Z)
    (ekj_dic : gmap key Q) (c_peak c_before_peak : Q) (k : key) :
  k ∈ lookups (DNIC.extract_m c subjs year ekj_dic c_peak c_before_peak) ->
  exists t v,
    is_peak c t v /\ (length c / 2 < t)%nat
    /\ fst k ∈ subjs
    /\ (snd k = year + Z.of_nat t
        \/ year <= snd k < year + Z.of_nat t - 2).
Proof.
  unfold DNIC.extract_m.
  intros [H | (t & Ht & H)]%lookups_tbind; [inversion H |].
  apply lookups_tbind in H as [H | (v & Hv & H)]; [inversion H |].
  cbn [outcome tlift snd] in Ht, Hv.
  assert (Hne : c <> []) by (intros ->; discriminate).
  destruct (np_argmax_peak c Hne) as (t' & v' & Ht' & _ & Hpeak).
  rewrite Ht in Ht'. injection Ht' as <-.
  assert (v' = v) as ->.
  { destruct Hpeak as [Hl _]. unfold getitem in Hv. rewrite Hl in Hv.
    congruence. }
  destruct (Nat.ltb_spec (length c / 2) t) as [Hlt | _]; [| inversion H].
  apply for_subj_lookups in H as [Hs Hy].
  exists t, v. auto.
Qed.

Lemma dnic_extract_lookups_witness :
  ("a"%string, 2003)
    ∈ lookups (DNIC.extract_m [0; 0; 0; 5] ["a"%string] 2000 ∅ 2 1)
  /\ exists t v,
       is_peak [0; 0; 0; 5] t v /\ (length [0; 0; 0; 5] / 2 < t)%nat
       /\ fst ("a"%string, 2003) ∈ ["a"%string]
       /\ (snd ("a"%string, 2003) = 2000 + Z.of_nat t
           \/ 2000 <= snd ("a"%string, 2003) < 2000 + Z.of_nat t - 2).
Proof.
  assert (Hk : ("a"%string, 2003)
                 ∈ lookups (DNIC.extract_m [0; 0; 0; 5] ["a"%string]
                              2000 ∅ 2 1)) by left.
  split; [exact Hk |].
  exact (dnic_extract_lookups [0; 0; 0; 5] ["a"%string] 2000 ∅ 2 1
           ("a"%string, 2003) Hk).
Defined.

(** * Tables of get_ekj under DNIC.extract *)

Lemma py_getitem_only_IndexError {A : Type} (l : list A) (i : Z) (e : exn) :
  py_getitem l i = Raise e -> e = IndexError.
Proof.
  unfold py_getitem, getitem.
  repeat match goal with
         | |- context [if ?b then _ else _] => destruct b
         | |- context [match ?o with Some _ => _ | None => _ end] =>
             destruct o
         end; congruence.
Qed.

Lemma rmap_never_raises {A B : Type} (f : A -> result B) (l : list A)
    (e : exn) :
  (forall x, x ∈ l -> f x <> Raise e) -> rmap f l <> Raise e.
Proof.
  induction l as [| x l IH]; intros Hf; cbn; [discriminate |].
  assert (Hx : f x <> Raise e) by (apply Hf; left).
  destruct (f x) as [y | e']; cbn; [| congruence].
  assert (Hl : rmap f l <> Raise e)
    by (apply IH; intros z Hz; apply Hf; right; exact Hz).
  destruct (rmap f l); cbn; [discriminate | congruence].
Qed.

Lemma for_subj_no_zero_division (c : list Z) (year : Z) (ekj_dic : gmap key Q)
    (c_peak c_before_peak : Q) (t : nat) (v : Z) (subjs : list string) :
  (forall k q, ekj_dic !! k = Some q -> ~ (q == 0)%Q) ->
  outcome (DNIC.for_subj c year ekj_dic c_peak c_before_peak
             (year + Z.of_nat t) v subjs)
  <> Raise ZeroDivisionError.
Proof.
  intros Hnz. induction subjs as [| subj rest IH]; [discriminate |].
  rewrite loop_step.
  destruct (ekj_dic !! (subj, year + Z.of_nat t)) as [e |] eqn:He;
    [| discriminate].
  rewrite (py_div_Ok v e (Hnz _ _ He)). cbn [rbind].
  destruct (Qltb c_peak _); [| exact IH].
  match goal with
  | |- rbind ?r _ <> _ =>
      assert (Hr : r <> Raise ZeroDivisionError); [| destruct r as [before | e']]
  end.
  - apply rmap_never_raises. intros i _. rewrite normalized_outcome.
    destruct (py_getitem c (i - year)) as [ci | e'] eqn:Hget; cbn [rbind].
    + destruct (ekj_dic !! (subj, i)) as [ei |] eqn:Hei; [| discriminate].
      rewrite (py_div_Ok ci ei (Hnz _ _ Hei)). discriminate.
    + apply py_getitem_only_IndexError in Hget as ->. discriminate.
  - cbn [rbind]. destruct before as [| b0 before]; cbn; [discriminate |].
    destruct (Qltb _ c_before_peak); [discriminate | exact IH].
  - cbn [rbind]. congruence.
Qed.

(** X16: a baseline table built by [DNIC.get_ekj] (from a corpus whose
    histories are non-negative and reach every corpus year) never makes
    [DNIC.extract] divide by zero, for any paper and any thresholds: the
    sentinel [-1] and the positive means are the only values it holds. *)
Theorem dnic_extract_no_zero_division (c_list : list (list Z))
    (subjs_list : list (list string)) (year_list : list Z)
    (ekj_dic : gmap key Q) (c : list Z) (subjs : list string) (year : Z)
    (c_peak c_before_peak : Q) :
  covers (DataFrame c_list subjs_list year_list) year_list ->
  nonnegative (DataFrame c_list subjs_list year_list) ->
  DNIC.get_ekj c_list subjs_list year_list = Ok ekj_dic ->
  DNIC.extract c subjs year ekj_dic c_peak c_before_peak
  <> Raise ZeroDivisionError.
Proof.
  intros Hcov Hpos Hrun.
  assert (Hnz : forall k q, ekj_dic !! k = Some q -> ~ (q == 0)%Q).
  { intros k q. exact (get_ekj_nonzero _ _ _ _ k q Hcov Hpos Hrun). }
  unfold DNIC.extract, DNIC.extract_m.
  rewrite outcome_tbind. cbn [outcome tlift snd].
  destruct (np_argmax Z.ltb c) as [t | e] eqn:Ht; cbn [rbind].
  2:{ destruct c; cbn in Ht; congruence. }
  rewrite outcome_tbind. cbn [outcome tlift snd].
  unfold getitem. destruct (c !! t); cbn [rbind]; [| discriminate].
  destruct (_ <? _)%nat; [| discriminate].
  apply for_subj_no_zero_division, Hnz.
Qed.

Lemma dnic_extract_no_zero_division_witness :
  exists ekj_dic,
    DNIC.get_ekj two_papers_c two_papers_subjs two_papers_year = Ok ekj_dic
    /\ DNIC.extract [0; 0; 0; 5] ["x"%string] 2000 ekj_dic 2 1
       <> Raise ZeroDivisionError.
Proof.
  destruct (DNIC.get_ekj two_papers_c two_papers_subjs two_papers_year)
    as [ekj_dic | e] eqn:Hrun; [| discriminate Hrun].
  exists ekj_dic. split; [reflexivity |].
  exact (dnic_extract_no_zero_division two_papers_c two_papers_subjs
           two_papers_year ekj_dic [0; 0; 0; 5] ["x"%string] 2000 2 1
           two_papers_covers two_papers_nonnegative Hrun).
Defined.

(** * Loops that stop at an exception *)

(** [r] ends normally or with the exception [e]. *)
Definition ok_or {A : Type} (e : exn) (r : result A) : Prop :=
  r = Raise e \/ exists a, r = Ok a.

Lemma rmap_raises {A B : Type} (f : A -> result B) (l : list A) (e : exn) :
  (forall x, x ∈ l -> ok_or e (f x)) ->
  (exists x, x ∈ l /\ f x = Raise e) ->
  rmap f l = Raise e.
Proof.
  induction l as [| x l IH]; intros Hall (x0 & Hx0 & Hbad);
    [inversion Hx0 |].
  cbn. destruct (Hall x) as [-> | [y Hy]]; [left | reflexivity |].
  rewrite Hy. cbn. rewrite IH; [reflexivity | |].
  - intros z Hz. apply Hall. right. exact Hz.
  - apply elem_of_cons in Hx0 as [-> | Hx0]; [congruence | eauto].
Qed.

Lemma for_each_raises {A S : Type} (l : list A) (body : A -> S -> result S)
    (e : exn) (s : S) :
  (forall x s', x ∈ l -> ok_or e (body x s')) ->
  (exists x, x ∈ l /\ forall s', body x s' = Raise e) ->
  for_each l body s = Raise e.
Proof.
  revert s. induction l as [| x l IH]; intros s Hall (x0 & Hx0 & Hbad);
    [inversion Hx0 |].
  cbn. destruct (Hall x s) as [-> | [s' Hs']]; [left | reflexivity |].
  rewrite Hs'. cbn. apply IH.
  - intros z s'' Hz. apply Hall. right. exact Hz.
  - apply elem_of_cons in Hx0 as [-> | Hx0]; [| eauto].
    rewrite Hbad in Hs'. discriminate.
Qed.

Lemma py_getitem_ok_or {A : Type} (l : list A) (i : Z) :
  ok_or IndexError (py_getitem l i).
Proof.
  destruct (py_getitem l i) as [x | e] eqn:H; [right; eauto |].
  apply py_getitem_only_IndexError in H as ->. left. reflexivity.
Qed.

Lemma py_getitem_beyond {A : Type} (l : list A) (i : Z) :
  Z.of_nat (length l) <= i -> py_getitem l i = Raise IndexError.
Proof.
  intros Hi. unfold py_getitem.
  destruct (Z.ltb_spec i (Z.of_nat (length l))) as [? | _]; [lia |].
  destruct (Z.ltb_spec i 0) as [? | _]; [lia |].
  rewrite !andb_false_r. reflexivity.
Qed.

(** * DNIC.get_ekj on a history that is too short *)

Lemma ekj_cell_ok_or (df : list (row (list Z))) (year : Z) (subj : string)
    (m : gmap key Q) :
  ok_or IndexError (DNIC.ekj_cell df year subj m).
Proof.
  unfold DNIC.ekj_cell.
  destruct (length _ =? 0)%nat; [right; eauto |].
  destruct (DNIC.citations_kj (DNIC.targets df subj year) year)
    as [cit | e] eqn:Hcit; cbn [rbind].
  - destruct (DNIC.N_kj cit =? 0)%nat; right; eauto.
  - left. f_equal. unfold DNIC.citations_kj in Hcit.
    destruct e; try reflexivity; exfalso; revert Hcit;
      apply rmap_never_raises; intros r _ Hr;
      apply py_getitem_only_IndexError in Hr; discriminate.
Qed.

(** X17: [DNIC.get_ekj] raises [IndexError] as soon as some paper with a
    subject has a history that ends before a corpus year that is not
    earlier than the paper's publication year: histories must reach the
    latest publication year of the corpus. *)
Theorem get_ekj_short_history (c_list : list (list Z))
    (subjs_list : list (list string)) (year_list : list Z)
    (r : row (list Z)) (subj : string) (y : Z) :
  r ∈ DataFrame c_list subjs_list year_list ->
  subj ∈ row_subjs r ->
  y ∈ year_list -> row_year r <= y ->
  Z.of_nat (length (row_data r)) <= y - row_year r ->
  DNIC.get_ekj c_list subjs_list year_list = Raise IndexError.
Proof.
  intros Hr Hsubj Hy Hle Hshort.
  set (df := DataFrame c_list subjs_list year_list) in *.
  unfold DNIC.get_ekj. fold df. rewrite for_each_nested.
  apply for_each_raises.
  - intros [y' s'] m _. apply ekj_cell_ok_or.
  - exists (y, subj). split.
    + apply elem_of_list_prod. split; [apply elem_of_py_set, Hy |].
      apply elem_of_all_subjects. exists (row_subjs r).
      split; [apply (elem_of_DataFrame _ _ _ _ Hr) | exact Hsubj].
    + intros m. cbn [fst snd]. unfold DNIC.ekj_cell.
      assert (Htg : r ∈ DNIC.targets df subj y).
      { apply list_elem_of_filter. auto. }
      destruct (DNIC.targets df subj y) as [| r0 tg] eqn:Htargets;
        [inversion Htg |].
      cbn [length Nat.eqb]. unfold DNIC.citations_kj.
      rewrite (rmap_raises _ _ IndexError); [reflexivity | |].
      * intros x _. apply py_getitem_ok_or.
      * exists r. split; [exact Htg |]. apply py_getitem_beyond, Hshort.
Qed.

Lemma get_ekj_short_history_witness :
  Row [3] ["y"%string] 2000
    ∈ DataFrame [[3]; [0; 1]] [["y"%string]; ["x"%string]] [2000; 2001]
  /\ DNIC.get_ekj [[3]; [0; 1]] [["y"%string]; ["x"%string]] [2000; 2001]
     = Raise IndexError.
Proof.
  split; [left |].
  apply (get_ekj_short_history [[3]; [0; 1]] [["y"%string]; ["x"%string]]
           [2000; 2001] (Row [3] ["y"%string] 2000) "y" 2001).
  - left.
  - left.
  - right. left.
  - cbn. lia.
  - cbn. lia.
Defined.

(** * Quartile.get_c_dic with a rate of one or more *)




(** * DNIC.extract on degenerate papers *)

(** X19: [DNIC.extract] raises [ValueError] on the empty history
    ([np.argmax] of an empty sequence), before it reads the table; on a
    non-empty history of a paper without subjects it returns [False]
    without reading the table. *)
Theorem dnic_extract_degenerate (c : list Z) (subjs : list string) (year : Z)
    (ekj_dic : gmap key Q) (c_peak c_before_peak : Q) :
  (c = [] ->
   DNIC.extract_m c subjs year ekj_dic c_peak c_before_peak
   = ([], Raise ValueError))
  /\ (c <> [] -> subjs = [] ->
      DNIC.extract_m c subjs year ekj_dic c_peak c_before_peak
      = ([], Ok false)).
Proof.
  split.
  - intros ->. reflexivity.
  - intros Hne ->.
    destruct (np_argmax_peak c Hne) as (t & v & Harg & _ & Hpeak).
    destruct (is_peak_np_argmax c t v Hpeak) as (_ & _ & Hget).
    unfold DNIC.extract_m. rewrite Harg. cbn [tlift tbind].
    rewrite Hget. cbn [tbind app].
    destruct (_ <? _)%nat; reflexivity.
Qed.
